(** * Preset Cache Analyzer: the rule engine, embedded and verified

    A shallow embedding of the rule engine of the SillyTavern preset cache
    analyzer (analyzer.js, the five files under rules/, and the parts of
    index.js and ui/components.js that compute), followed by the properties
    its specification states about it and further properties of the code.

    Conventions of the embedding.
    - A JavaScript string is a [string]; each character stands for one
      UTF-16 code unit, so [String.length] is the [.length] of the source.
      Texts with code units above 255 are not inputs of the model.
    - A JavaScript number that the code only uses as an integer is a [Z];
      the two quotients the code computes ([index / totalEntries] and
      [estimatedTokens / threshold]) are exact rationals in [Q].  Both are
      only compared with the literals [0.4] and [0.9]; for integer operands
      and a divisor below 2^32 the binary64 comparison and the rational one
      agree, because such a quotient is either equal to the literal, and then
      rounds to the same binary64 number, or differs from it by more than
      2^-36, far more than the rounding error.
    - A property that may be absent ([undefined] or [null]) is an [option].
    - Objects used as dictionaries ([promptMap], [THRESHOLDS]) are plain
      objects: a [gmap] holds what the code puts into them, and a lookup
      also answers for the members every plain object inherits from
      [Object.prototype] (see [JS.OBJECT_PROTOTYPE]).
    - The fixed texts of the findings, whose length the code never takes,
      are kept as the bytes of the source files (a dash of the source is
      its UTF-8 bytes).  Where the code prints a native function into such
      a text, the text is as V8 prints it. *)

From Stdlib Require Import ZArith QArith Lia String Ascii List Sorted.
From stdpp Require Import gmap strings list pretty.

Open Scope Z_scope.

(** ** JavaScript helpers *)

Module JS.

  (** The one-character strings holding a double quote (code unit 34) and a
      line feed (code unit 10). *)
Definition dquote : string := String (ascii_of_nat 34) EmptyString.
Definition newline : string := String (ascii_of_nat 10) EmptyString.

  (** Truthiness of a string-valued property: absent and empty are falsy. *)
Definition truthy (s : option string) : bool :=
    match s with
    | Some (String _ _) => true
    | _ => false
    end.

  (** [a || b] on strings where [a] may be absent. *)
Definition or_else (a : option string) (b : string) : string :=
    if truthy a then default b a else b.

  (** [Array.prototype.join]. *)
Fixpoint join (sep : string) (l : list string) : string :=
    match l with
    | [] => EmptyString
    | [x] => x
    | x :: rest => x +:+ sep +:+ join sep rest
    end.

  (** Rendering of an integer inside a template literal. *)
Definition num (z : Z) : string := pretty z.

  (** [len]: the [.length] of a string or an array, as a number. *)
Definition slen (s : string) : Z := Z.of_nat (String.length s).
Definition alen {A} (l : list A) : Z := Z.of_nat (List.length l).

  (** [Math.ceil (n / 4)] for a length [n]. *)
Definition ceil_div4 (n : Z) : Z := (n + 3) / 4.

  (** The remainder operator [%]: its sign follows the dividend. *)
Definition rem (a b : Z) : Z := Z.rem a b.

  (** [x / y] on numbers, kept exact. *)
Definition div (x y : Z) : Q := (inject_Z x / inject_Z y)%Q.

  (** [x < y] and [x >= y] on exact quotients. *)
Definition ltb (x y : Q) : bool := negb (Qle_bool y x).
Definition geb (x y : Q) : bool := Qle_bool y x.

  (** Primitive values, as far as the properties of a prompt hold them. *)
Inductive Primitive :=
  | PString (s : string)
  | PBoolean (b : bool)
  | PNumber (n : Z).

Definition truthy_primitive (v : Primitive) : bool :=
    match v with
    | PString s => truthy (Some s)
    | PBoolean b => b
    | PNumber n => negb (n =? 0)
    end.

  (** The members of [Object.prototype]: a lookup [object[key]] on a plain
      object that has no property [key] of its own answers with them.
      Eleven are functions; [__proto__] is an accessor whose getter returns
      the prototype of the object and whose setter replaces it. *)
Definition OBJECT_PROTOTYPE_FUNCTIONS : list string :=
    [ "constructor"; "__defineGetter__"; "__defineSetter__"; "hasOwnProperty";
      "__lookupGetter__"; "__lookupSetter__"; "isPrototypeOf";
      "propertyIsEnumerable"; "toString"; "valueOf"; "toLocaleString" ]%string.

Definition OBJECT_PROTOTYPE : list string :=
    OBJECT_PROTOTYPE_FUNCTIONS ++ ["__proto__"%string].

Definition inherits (key : string) : bool :=
    bool_decide (key ∈ OBJECT_PROTOTYPE).

  (** The [name] of the member under [key]: [constructor] is the function
      [Object], the other functions are named like their key, and the
      prototype object that [__proto__] gives has no [name]. *)
Definition member_name (key : string) : option string :=
    if String.eqb key "__proto__" then None
    else if String.eqb key "constructor" then Some "Object"%string
    else Some key.

  (** The member under [key] inside a template literal. *)
Definition member_text (key : string) : string :=
    match member_name key with
    | Some name => "function " +:+ name +:+ "() { [native code] }"
    | None => "[object Object]"
    end.

  (** A value that may be [undefined], inside a template literal and as an
      element of [Array.prototype.join], which writes nothing for it. *)
Definition template (v : option string) : string := default "undefined"%string v.
Definition joined (v : option string) : string := default EmptyString v.

End JS.

(** ** The dynamic-macro pattern

    [/\{\{(random|roll|time|date|weekday|isotime|isodate|idle_duration|time_UTC)(::|\}\})/gi]

    Every rule file declares the same literal.  The matcher below is the
    backtracking matcher of the language specialised to this pattern: two
    literal braces, the alternatives of the first group tried from left to
    right, then the alternatives of the second group; a failure of the second
    group backtracks into the next alternative of the first. *)

Module Regex.

Definition MACRO_NAMES : list string :=
    [ "random"; "roll"; "time"; "date"; "weekday"; "isotime"; "isodate";
      "idle_duration"; "time_UTC" ]%string.

Definition TERMINATORS : list string := [ "::"; "}}" ]%string.

  (** Canonicalisation under the [i] flag (without [u]): a code unit is
      compared through its upper-case form.  Every character of the pattern
      is ASCII, and a code unit outside ASCII never canonicalises to an ASCII
      one, so only the ASCII letters need folding. *)
Definition canonicalize (c : ascii) : ascii :=
    let n := nat_of_ascii c in
    if ((97 <=? n)%nat && (n <=? 122)%nat)%bool then ascii_of_nat (n - 32) else c.

Definition char_eq_ci (a b : ascii) : bool :=
    Ascii.eqb (canonicalize a) (canonicalize b).

  (** Match the literal [pat] at the head of [s], ignoring case; the result
      is the matched text (as the subject spells it) and the rest. *)
Fixpoint match_lit (pat s : string) : option (string * string) :=
    match pat with
    | EmptyString => Some (EmptyString, s)
    | String p pat' =>
        match s with
        | EmptyString => None
        | String c s' =>
            if char_eq_ci p c then
              match match_lit pat' s' with
              | Some (m, rest) => Some (String c m, rest)
              | None => None
              end
            else None
        end
    end.

  (** One alternative after another. *)
Fixpoint match_alt (alts : list string) (s : string) : option (string * string) :=
    match alts with
    | [] => None
    | a :: alts' =>
        match match_lit a s with
        | Some r => Some r
        | None => match_alt alts' s
        end
    end.

  (** The first group followed by the second, with backtracking. *)
Fixpoint match_name (names : list string) (s : string) : option (string * string) :=
    match names with
    | [] => None
    | n :: names' =>
        match match_lit n s with
        | Some (cap, rest) =>
            match match_alt TERMINATORS rest with
            | Some (_, rest') => Some (cap, rest')
            | None => match_name names' s
            end
        | None => match_name names' s
        end
    end.

  (** The whole pattern at the head of [s]: the text captured by group 1 and
      the number of code units the match spans. *)
Definition match_here (s : string) : option (string * nat) :=
    match match_lit "{{" s with
    | Some (_, rest) =>
        match match_name MACRO_NAMES rest with
        | Some (cap, rest') => Some (cap, (String.length s - String.length rest')%nat)
        | None => None
        end
    | None => None
    end.

Fixpoint drop_chars (n : nat) (s : string) : string :=
    match n, s with
    | O, _ => s
    | S _, EmptyString => EmptyString
    | S n', String _ s' => drop_chars n' s'
    end.

  (** Leftmost match in [s], which starts at index [pos] of the subject:
      capture, start index, end index. *)
Fixpoint search (s : string) (pos : nat) : option (string * nat * nat) :=
    match match_here s with
    | Some (cap, len) => Some (cap, pos, (pos + len)%nat)
    | None =>
        match s with
        | EmptyString => None
        | String _ s' => search s' (S pos)
        end
    end.

  (** [RegExp.prototype.exec] under the [g] flag: the scan starts at
      [lastIndex]; the second component is the [lastIndex] it leaves. *)
Definition exec (lastIndex : nat) (s : string) : option (string * nat) * nat :=
    if (String.length s <? lastIndex)%nat then (None, O)
    else
      match search (drop_chars lastIndex s) lastIndex with
      | Some (cap, start, e) => (Some (cap, start), e)
      | None => (None, O)
      end.

  (** [RegExp.prototype.test]. *)
Definition test (lastIndex : nat) (s : string) : bool * nat :=
    let '(r, li) := exec lastIndex s in (bool_decide (is_Some r), li).

End Regex.

(** ** Data model *)

(** A prompt entry of [preset.prompts]. *)
Module Prompt.
Record t := {
    identifier : string;
    name : string;
    content : option string;
    enabled : bool;
    role : string;
    injection_position : option Z;
    injection_depth : option Z
  }.

  (** [prompt[key]] for the properties of the record ([None] for an absent
      one and for every other key). *)
Definition property (prompt : t) (key : string) : option JS.Primitive :=
    if String.eqb key "identifier" then Some (JS.PString (identifier prompt))
    else if String.eqb key "name" then Some (JS.PString (name prompt))
    else if String.eqb key "content" then JS.PString <$> content prompt
    else if String.eqb key "enabled" then Some (JS.PBoolean (enabled prompt))
    else if String.eqb key "role" then Some (JS.PString (role prompt))
    else if String.eqb key "injection_position" then JS.PNumber <$> injection_position prompt
    else if String.eqb key "injection_depth" then JS.PNumber <$> injection_depth prompt
    else None.
End Prompt.

(** A record of the prompt order. *)
Module OrderRecord.
Record t := {
    identifier : string;
    enabled : bool
  }.
End OrderRecord.

(** An element of [preset.prompt_order]: an order record, or the
    per-character wrapper [{ character_id, order }]. *)
Module OrderElem.
Inductive t :=
  | Rec (r : OrderRecord.t)
  | Wrapper (character_id : Z) (order : list OrderRecord.t).
End OrderElem.

Module Preset.
Record t := {
    prompts : option (list Prompt.t);
    prompt_order : option (list OrderElem.t);
    squash_system_messages : option bool
  }.
End Preset.

Module Options.
Record t := {
    provider : option string;
    tokenizer : option (string -> Z)
  }.
End Options.

(** The [meta] object of a finding, one shape per rule.
    [TokenThresholdsInherited] is the meta of Token Thresholds when the
    threshold is not a number but the member of [Object.prototype] under the
    key [threshold]: [deficit] and [ratio] are then [NaN]. *)
Module Meta.
Inductive t :=
  | MacroPlacement (macroFound : string) (position totalEntries : Z) (positionPercent : Q)
  | PromptOrdering (volatilePosition stableEntriesAfter : Z) (stableIdentifiers : list string)
  | TokenThresholds (estimatedTokens threshold deficit : Z) (ratio : Q)
  | TokenThresholdsInherited (estimatedTokens : Z) (threshold : string)
  | InjectionDepth (depth : Z) (injectionPosition : option Z) (hasDynamicContent : bool)
  | Anthropic (systemPromptCount : Z) (squashEnabled : bool)
  | OpenAI (estimatedTokens remainder paddingNeeded : Z)
  | Google (estimatedTokens threshold deficit : Z).
End Meta.

Module Finding.
Record t := {
    id : string;
    rule : string;
    severity : string;
    title : string;
    description : string;
    affectedEntry : string;
    recommendation : string;
    provider : string;
    meta : Meta.t
  }.
End Finding.

Module Summary.
Record t := { critical : Z; warning : Z; info : Z }.
End Summary.

Module AnalysisResult.
Record t := { findings : list Finding.t; score : Z; summary : Summary.t }.
End AnalysisResult.

(** ** Shared preset handling

    Every rule repeats the same three steps: the guard on the shape of the
    preset, the unwrapping of a per-character wrapper, and the filter on
    [enabled]. *)

(** [!preset || !preset.prompts || !preset.prompt_order] is false: an array,
    even an empty one, is truthy. *)
Definition present (preset : option Preset.t) : option (list Prompt.t * list OrderElem.t) :=
  match preset with
  | Some p =>
      match Preset.prompts p, Preset.prompt_order p with
      | Some ps, Some po => Some (ps, po)
      | _, _ => None
      end
  | None => None
  end.

(** [orderArray]: the [order] of a leading wrapper, else the array itself. *)
Definition orderArray (prompt_order : list OrderElem.t) : list OrderElem.t :=
  match prompt_order with
  | OrderElem.Wrapper _ order :: _ => map OrderElem.Rec order
  | _ => prompt_order
  end.

(** [orderArray.filter(entry => entry.enabled)]: a wrapper has no [enabled]
    property and is dropped. *)
Definition enabledEntries (prompt_order : list OrderElem.t) : list OrderRecord.t :=
  omap (fun e =>
          match e with
          | OrderElem.Rec r => if OrderRecord.enabled r then Some r else None
          | OrderElem.Wrapper _ _ => None
          end) (orderArray prompt_order).

(** [promptMap]: filled in the order of [preset.prompts], a later prompt
    overwriting an earlier one with the same identifier.  The map holds what
    the loop assigns; [promptMap_get] below is the lookup on the plain
    object.  The rules that read nothing but [content] from what they look
    up are written with the lookup in the map: what the plain object answers
    beyond it has no [content] (lemma [promptMap_get_content]). *)
Definition promptMap (prompts : list Prompt.t) : gmap string Prompt.t :=
  foldl (fun m p => <[Prompt.identifier p := p]> m) ∅ prompts.

(** [prompt ? prompt.content : ''] *)
Definition content_of (prompt : option Prompt.t) : option string :=
  match prompt with
  | Some p => Prompt.content p
  | None => Some EmptyString
  end.

(** What [promptMap[identifier]] can be.  [promptMap] starts as [{}], a
    plain object, so beside a prompt that was put under the identifier the
    lookup finds the members of [Object.prototype]; and a prompt whose
    identifier is [__proto__] is not stored but becomes the prototype of the
    object (which is what a lookup of [__proto__] then returns, as the [gmap]
    has it), so that its own properties are found under their keys. *)
Module Looked.
Inductive t :=
  | Own (prompt : Prompt.t)
  | Field (value : JS.Primitive)
  | Member (key : string)
  | Missing.

(** [prompt ? ... : ...] *)
Definition truthy (prompt : t) : bool :=
    match prompt with
    | Own _ => true
    | Field v => JS.truthy_primitive v
    | Member _ => true
    | Missing => false
    end.

(** [prompt.content] and [prompt.name] of a truthy value: primitives have
    neither, the functions of [Object.prototype] have a name. *)
Definition content (prompt : t) : option string :=
    match prompt with
    | Own p => Prompt.content p
    | _ => None
    end.

Definition name (prompt : t) : option string :=
    match prompt with
    | Own p => Some (Prompt.name p)
    | Member key => JS.member_name key
    | _ => None
    end.
End Looked.

Definition promptMap_get (promptMap : gmap string Prompt.t) (identifier : string)
  : Looked.t :=
  match promptMap !! identifier with
  | Some p => Looked.Own p
  | None =>
      match (promptMap !! "__proto__"%string) ≫= (fun proto => Prompt.property proto identifier) with
      | Some v => Looked.Field v
      | None =>
          if JS.inherits identifier then Looked.Member identifier else Looked.Missing
      end
  end.

Definition VOLATILE_IDENTIFIERS : gset string :=
  {[ "chatHistory"; "dialogueExamples" ]}%string.

(** [isVolatile], with the scan position of the shared pattern object as
    explicit state: the function sets it to 0 before it tests, and [test]
    leaves a new one. *)
Definition isVolatile_st (lastIndex : nat) (identifier : string) (content : option string)
  : bool * nat :=
  if bool_decide (identifier ∈ VOLATILE_IDENTIFIERS) then (true, lastIndex)
  else if JS.truthy content then
    let lastIndex0 := O in
    let '(found, lastIndex') := Regex.test lastIndex0 (default EmptyString content) in
    if found then (true, lastIndex') else (false, lastIndex')
  else (false, lastIndex).

Definition isVolatile (identifier : string) (content : option string) : bool :=
  fst (isVolatile_st O identifier content).

(** [hasDynamicMacros] of rules/injection-depth.js. *)
Definition hasDynamicMacros_st (lastIndex : nat) (content : option string) : bool * nat :=
  if negb (JS.truthy content) then (false, lastIndex)
  else Regex.test O (default EmptyString content).

Definition hasDynamicMacros (content : option string) : bool :=
  fst (hasDynamicMacros_st O content).

(** ** analyzer.js: the score *)

Definition score_step (score : Z) (finding : Finding.t) : Z :=
  if String.eqb (Finding.severity finding) "critical" then score - 20
  else if String.eqb (Finding.severity finding) "warning" then score - 10
  else if String.eqb (Finding.severity finding) "info" then score - 3
  else score.

Definition calculateScore (findings : list Finding.t) : Z :=
  let score := foldl score_step 100 findings in
  Z.max 0 (Z.min 100 score).

(** [findings.filter(f => f.severity === s).length] *)
Definition count_severity (s : string) (findings : list Finding.t) : Z :=
  JS.alen (filter (fun f => Finding.severity f = s) findings).

(** ** rules/macro-placement.js *)

Module MacroPlacement.

(** The severity assigned inside the [while] loop. *)
Definition severity_at (entryIndex totalEntries : nat) : string :=
  let positionPercent := JS.div (Z.of_nat entryIndex) (Z.of_nat totalEntries) in
  if (entryIndex =? 0)%nat then "critical"
  else if JS.ltb positionPercent (4 # 10) then "warning"
  else "info".

(** The object pushed for one match; [cap] is [match[1]]. *)
Definition finding (entry : OrderRecord.t) (prompt : Prompt.t)
    (entryIndex totalEntries macroIndex : nat) (cap : string) : Finding.t :=
  let macroFound := "{{" +:+ cap +:+ "}}" in
  let positionPercent := JS.div (Z.of_nat entryIndex) (Z.of_nat totalEntries) in
  let severity := severity_at entryIndex totalEntries in
  let entryName := JS.or_else (Some (Prompt.name prompt)) (OrderRecord.identifier entry) in
  {| Finding.id := "macro-placement-" +:+ JS.num (Z.of_nat entryIndex) +:+ "-"
                     +:+ JS.num (Z.of_nat macroIndex);
     Finding.rule := "macro-placement";
     Finding.severity := severity;
     Finding.title := "Dynamic macro in "
                     +:+ (if String.eqb severity "critical" then "system prompt"
                          else "early prompt section");
     Finding.description :=
       macroFound +:+ " found in " +:+ JS.dquote +:+ entryName +:+ JS.dquote
         +:+ " (position " +:+ JS.num (Z.of_nat entryIndex + 1) +:+ " of "
         +:+ JS.num (Z.of_nat totalEntries)
         +:+ "). This changes every generation and invalidates the cached prefix for all content after it.";
     Finding.affectedEntry := OrderRecord.identifier entry;
     Finding.recommendation :=
       "Move " +:+ macroFound
         +:+ " to a prompt entry in the latter half of the prompt order (after chat history), or replace it with a fixed value.";
     Finding.provider := "all";
     Finding.meta := Meta.MacroPlacement macroFound (Z.of_nat entryIndex)
                       (Z.of_nat totalEntries) positionPercent |}.

(** [while ((match = DYNAMIC_MACRO_REGEX.exec(content)) !== null) { push; macroIndex++ }].
    The loop is bounded by [fuel]; [None] means the bound was reached before
    [exec] returned [null]. *)
Fixpoint exec_loop (fuel lastIndex macroIndex : nat) (content : string)
    (push : nat -> string -> Finding.t) : option (list Finding.t) :=
  match fuel with
  | O => None
  | S fuel' =>
      match Regex.exec lastIndex content with
      | (Some (cap, _), lastIndex') =>
          match exec_loop fuel' lastIndex' (S macroIndex) content push with
          | Some fs => Some (push macroIndex cap :: fs)
          | None => None
          end
      | (None, _) => Some []
      end
  end.

(** The body of the [for] loop over the enabled entries.  The scan position
    is reset to 0; one more iteration than the content has code units is
    always enough (lemma [exec_loop_enough] below). *)
Definition scan_entry (promptMap : gmap string Prompt.t) (totalEntries : nat)
    (entryIndex : nat) (entry : OrderRecord.t) : list Finding.t :=
  match promptMap !! OrderRecord.identifier entry with
  | None => []
  | Some prompt =>
      if negb (JS.truthy (Prompt.content prompt)) then []
      else
        let content := default EmptyString (Prompt.content prompt) in
        default [] (exec_loop (S (String.length content)) O O content
                      (finding entry prompt entryIndex totalEntries))
  end.

Definition checkMacroPlacement (preset : option Preset.t) (options : Options.t)
  : list Finding.t :=
  match present preset with
  | None => []
  | Some (prompts, prompt_order) =>
      let enabledEntries := enabledEntries prompt_order in
      let totalEntries := List.length enabledEntries in
      if (totalEntries =? 0)%nat then []
      else
        let promptMap := promptMap prompts in
        concat (imap (scan_entry promptMap totalEntries) enabledEntries)
  end.

End MacroPlacement.

(** ** rules/prompt-ordering.js *)

Module PromptOrdering.

(** An element of [classified]. *)
Record classified := {
  entry : OrderRecord.t;
  prompt : Looked.t;
  index : nat;
  volatile : bool
}.

Definition classify (promptMap : gmap string Prompt.t) (index : nat)
    (entry : OrderRecord.t) : classified :=
  let prompt := promptMap_get promptMap (OrderRecord.identifier entry) in
  let content :=
    if Looked.truthy prompt then Looked.content prompt else Some EmptyString in
  {| entry := entry; prompt := prompt; index := index;
     volatile := isVolatile (OrderRecord.identifier entry) content |}.

(** [c.prompt ? c.prompt.name : c.entry.identifier]; [None] is [undefined]. *)
Definition display_name (c : classified) : option string :=
  if Looked.truthy (prompt c) then Looked.name (prompt c)
  else Some (OrderRecord.identifier (entry c)).

Definition finding (i : nat) (volatileEntry : classified) (stableAfter : list classified)
  : Finding.t :=
  let entryName := display_name volatileEntry in
  let stableNames := map display_name stableAfter in
  {| Finding.id := "prompt-ordering-" +:+ JS.num (Z.of_nat i);
     Finding.rule := "prompt-ordering";
     Finding.severity := "warning";
     Finding.title := "Volatile entry interleaved before stable content";
     Finding.description :=
       JS.dquote +:+ JS.template entryName +:+ JS.dquote +:+ " (position "
         +:+ JS.num (Z.of_nat i + 1) +:+ ") is volatile and appears before "
         +:+ JS.num (JS.alen stableAfter) +:+ " stable entries ("
         +:+ JS.join ", " (map JS.joined stableNames)
         +:+ "). This breaks the cacheable prefix — all stable content after this point cannot be cached together with earlier stable content.";
     Finding.affectedEntry := OrderRecord.identifier (entry volatileEntry);
     Finding.recommendation :=
       "Move " +:+ JS.dquote +:+ JS.template entryName +:+ JS.dquote
         +:+ " after all stable prompt entries so that the maximum amount of static content forms a contiguous cacheable prefix.";
     Finding.provider := "all";
     Finding.meta :=
       Meta.PromptOrdering (Z.of_nat i) (JS.alen stableAfter)
         (map (fun s => OrderRecord.identifier (entry s)) stableAfter) |}.

(** The outer loop, started at index [i] with [rest] the elements of
    [classified] from [i] on.  The inner loop over [j > i] collects the
    elements after the head that are not volatile. *)
Fixpoint ordering_loop (i : nat) (rest : list classified) : list Finding.t :=
  match rest with
  | [] => []
  | c :: after =>
      if negb (volatile c) then ordering_loop (S i) after
      else
        let stableAfter := List.filter (fun s => negb (volatile s)) after in
        if (List.length stableAfter <? 2)%nat then ordering_loop (S i) after
        else finding i c stableAfter :: ordering_loop (S i) after
  end.

Definition checkPromptOrdering (preset : option Preset.t) (options : Options.t)
  : list Finding.t :=
  match present preset with
  | None => []
  | Some (prompts, prompt_order) =>
      let enabledEntries := enabledEntries prompt_order in
      if (List.length enabledEntries =? 0)%nat then []
      else
        let promptMap := promptMap prompts in
        let classified := imap (classify promptMap) enabledEntries in
        ordering_loop O classified
  end.

End PromptOrdering.

(** ** rules/token-thresholds.js *)

Module TokenThresholds.

Definition THRESHOLDS : gmap string Z :=
  <["anthropic" := 1024]> (<["openai" := 1024]> (<["google" := 4096]> ∅)).

Definition defaultTokenizer (text : string) : Z :=
  JS.ceil_div4 (JS.slen text).

(** The value of [threshold]: a number of tokens, or the member of
    [Object.prototype] under the key [member]. *)
Inductive Threshold :=
  | Tokens (t : Z)
  | Inherited (member : string).

(** [THRESHOLDS[provider] || THRESHOLDS.anthropic]: [THRESHOLDS] is a plain
    object, and the members it inherits are truthy. *)
Definition threshold_of (provider : string) : Threshold :=
  let anthropic := default 0 (THRESHOLDS !! "anthropic"%string) in
  match THRESHOLDS !! provider with
  | Some t => Tokens (if t =? 0 then anthropic else t)
  | None => if JS.inherits provider then Inherited provider else Tokens anthropic
  end.

(** The loop that fills [stableContent]. *)
Fixpoint stableContent (promptMap : gmap string Prompt.t) (entries : list OrderRecord.t)
  : list string :=
  match entries with
  | [] => []
  | entry :: rest =>
      let prompt := promptMap !! OrderRecord.identifier entry in
      let content := content_of prompt in
      if negb (isVolatile (OrderRecord.identifier entry) content) then
        if JS.truthy content then
          default EmptyString content :: stableContent promptMap rest
        else stableContent promptMap rest
      else stableContent promptMap rest
  end.

(** [estimatedTokens] as the function computes it before it compares. *)
Definition estimatedTokens (prompts : list Prompt.t) (prompt_order : list OrderElem.t)
    (tokenizer : string -> Z) : Z :=
  let enabledEntries := enabledEntries prompt_order in
  let promptMap := promptMap prompts in
  let concatenated := JS.join JS.newline (stableContent promptMap enabledEntries) in
  tokenizer concatenated.

Definition severity_of (ratio : Q) : string :=
  if JS.geb ratio (9 # 10) then "warning"
  else if JS.geb ratio (8 # 10) then "info"
  else "info".

Definition finding (provider : string) (estimatedTokens threshold : Z) : Finding.t :=
  let ratio := JS.div estimatedTokens threshold in
  {| Finding.id := "token-thresholds-" +:+ provider;
     Finding.rule := "token-thresholds";
     Finding.severity := severity_of ratio;
     Finding.title := "Stable prefix below " +:+ provider +:+ " cache threshold";
     Finding.description :=
       "The stable prefix is estimated at " +:+ JS.num estimatedTokens
         +:+ " tokens, which is below the " +:+ provider +:+ " caching threshold of "
         +:+ JS.num threshold
         +:+ " tokens. The prompt prefix will not be cached, resulting in full re-processing on every request.";
     Finding.affectedEntry := "all";
     Finding.recommendation :=
       "Add more static content to your prompt entries before the chat history, or consolidate prompt entries to reach at least "
         +:+ JS.num threshold +:+ " tokens in the stable prefix.";
     Finding.provider := provider;
     Finding.meta :=
       Meta.TokenThresholds estimatedTokens threshold (threshold - estimatedTokens) ratio |}.

(** The finding when [threshold] is an inherited member.  As a number the
    member is [NaN]: [estimatedTokens >= threshold] is false, so there is no
    early return, [ratio] is [NaN], and both comparisons of the ratio are
    false, which leaves the severity of the last branch. *)
Definition finding_inherited (provider : string) (estimatedTokens : Z) (member : string)
  : Finding.t :=
  {| Finding.id := "token-thresholds-" +:+ provider;
     Finding.rule := "token-thresholds";
     Finding.severity := "info";
     Finding.title := "Stable prefix below " +:+ provider +:+ " cache threshold";
     Finding.description :=
       "The stable prefix is estimated at " +:+ JS.num estimatedTokens
         +:+ " tokens, which is below the " +:+ provider +:+ " caching threshold of "
         +:+ JS.member_text member
         +:+ " tokens. The prompt prefix will not be cached, resulting in full re-processing on every request.";
     Finding.affectedEntry := "all";
     Finding.recommendation :=
       "Add more static content to your prompt entries before the chat history, or consolidate prompt entries to reach at least "
         +:+ JS.member_text member +:+ " tokens in the stable prefix.";
     Finding.provider := provider;
     Finding.meta := Meta.TokenThresholdsInherited estimatedTokens member |}.

Definition checkTokenThresholds (preset : option Preset.t) (options : Options.t)
  : list Finding.t :=
  match present preset with
  | None => []
  | Some (prompts, prompt_order) =>
      let provider := JS.or_else (Options.provider options) "anthropic" in
      let threshold := threshold_of provider in
      let tokenizer := default defaultTokenizer (Options.tokenizer options) in
      let estimatedTokens := estimatedTokens prompts prompt_order tokenizer in
      match threshold with
      | Tokens threshold =>
          if estimatedTokens >=? threshold then []
          else [finding provider estimatedTokens threshold]
      | Inherited member => [finding_inherited provider estimatedTokens member]
      end
  end.

End TokenThresholds.

(** ** rules/injection-depth.js *)

Module InjectionDepth.

Definition enabledIdentifiers (prompt_order : list OrderElem.t) : gset string :=
  list_to_set (map OrderRecord.identifier (enabledEntries prompt_order)).

Definition severity_of (depth : Z) (isDynamic : bool) : string :=
  if ((depth <=? 1) && isDynamic)%bool then "critical"
  else if depth <=? 1 then "warning"
  else if isDynamic then "warning"
  else "info".

Definition finding (prompt : Prompt.t) (depth : Z) (isDynamic : bool) : Finding.t :=
  let entryName := JS.or_else (Some (Prompt.name prompt)) (Prompt.identifier prompt) in
  {| Finding.id := "injection-depth-" +:+ Prompt.identifier prompt;
     Finding.rule := "injection-depth";
     Finding.severity := severity_of depth isDynamic;
     Finding.title :=
       (if isDynamic then "Dynamic" else "Static")
         +:+ " content injected at shallow depth " +:+ JS.num depth;
     Finding.description :=
       JS.dquote +:+ entryName +:+ JS.dquote +:+ " is injected into chat at depth "
         +:+ JS.num depth +:+ (if isDynamic then " with dynamic macros" else EmptyString)
         +:+ ". Shallow injections near the end of conversation disrupt the cacheable portion of recent messages.";
     Finding.affectedEntry := Prompt.identifier prompt;
     Finding.recommendation :=
       "Consider increasing the injection depth to 4+ or moving this content to a fixed prompt position to preserve cache efficiency.";
     Finding.provider := "all";
     Finding.meta :=
       Meta.InjectionDepth depth (Prompt.injection_position prompt) isDynamic |}.

(** One iteration of the loop over [preset.prompts]: the findings it pushes. *)
Definition check_prompt (enabledIdentifiers : gset string) (prompt : Prompt.t)
  : list Finding.t :=
  if negb (Prompt.enabled prompt) then []
  else if negb (bool_decide (Prompt.identifier prompt ∈ enabledIdentifiers)) then []
  else if negb (bool_decide (Prompt.injection_position prompt = Some 1)) then []
  else
    match Prompt.injection_depth prompt with
    | None => []
    | Some depth =>
        if depth >=? 4 then []
        else
          let isDynamic := hasDynamicMacros (Prompt.content prompt) in
          [finding prompt depth isDynamic]
    end.

Definition checkInjectionDepth (preset : option Preset.t) (options : Options.t)
  : list Finding.t :=
  match present preset with
  | None => []
  | Some (prompts, prompt_order) =>
      let enabledIdentifiers := enabledIdentifiers prompt_order in
      concat (map (check_prompt enabledIdentifiers) prompts)
  end.

End InjectionDepth.

(** ** rules/provider-specific.js *)

Module ProviderSpecific.

(** The loop of [getStablePrefixTokens]; it tests both conditions at once. *)
Fixpoint stableContent (promptMap : gmap string Prompt.t) (entries : list OrderRecord.t)
  : list string :=
  match entries with
  | [] => []
  | entry :: rest =>
      let prompt := promptMap !! OrderRecord.identifier entry in
      let content := content_of prompt in
      if (negb (isVolatile (OrderRecord.identifier entry) content) && JS.truthy content)%bool
      then default EmptyString content :: stableContent promptMap rest
      else stableContent promptMap rest
  end.

Definition getStablePrefixTokens (prompts : list Prompt.t) (prompt_order : list OrderElem.t)
    (tokenizer : string -> Z) : Z :=
  let enabledEntries := enabledEntries prompt_order in
  let promptMap := promptMap prompts in
  let concatenated := JS.join JS.newline (stableContent promptMap enabledEntries) in
  tokenizer concatenated.

Definition defaultTokenizer (text : string) : Z :=
  JS.ceil_div4 (JS.slen text).

(** [systemPrompts]: the prompts that are enabled, have role "system" and
    occur enabled in the order. *)
Definition systemPrompts (prompts : list Prompt.t) (prompt_order : list OrderElem.t)
  : list Prompt.t :=
  let enabledIdentifiers : gset string :=
    list_to_set (map OrderRecord.identifier (enabledEntries prompt_order)) in
  List.filter (fun p =>
            (Prompt.enabled p && String.eqb (Prompt.role p) "system"
             && bool_decide (Prompt.identifier p ∈ enabledIdentifiers))%bool) prompts.

Definition squash_on (count : Z) : Finding.t :=
  {| Finding.id := "provider-specific-anthropic-squash-on";
     Finding.rule := "provider-specific";
     Finding.severity := "info";
     Finding.title := "System message squashing enabled";
     Finding.description :=
       "squash_system_messages is enabled with " +:+ JS.num count
         +:+ " system prompts. This consolidates them into a single system message, which is optimal for Anthropic prompt caching.";
     Finding.affectedEntry := "all";
     Finding.recommendation :=
       "No action needed â€” this is the recommended configuration for Anthropic caching.";
     Finding.provider := "anthropic";
     Finding.meta := Meta.Anthropic count true |}.

Definition squash_off (count : Z) : Finding.t :=
  {| Finding.id := "provider-specific-anthropic-squash-off";
     Finding.rule := "provider-specific";
     Finding.severity := "warning";
     Finding.title := "Fragmented system messages without squashing";
     Finding.description :=
       JS.num count
         +:+ " separate system prompts detected but squash_system_messages is not enabled. Anthropic treats each system message as a separate cache-breaking boundary.";
     Finding.affectedEntry := "all";
     Finding.recommendation :=
       "Enable squash_system_messages in your preset settings to consolidate system prompts into a single message for better cache utilization.";
     Finding.provider := "anthropic";
     Finding.meta := Meta.Anthropic count false |}.

Definition checkAnthropic (prompts : list Prompt.t) (prompt_order : list OrderElem.t)
    (squash_system_messages : option bool) (options : Options.t) : list Finding.t :=
  let systemPrompts := systemPrompts prompts prompt_order in
  if JS.alen systemPrompts >? 1 then
    if bool_decide (squash_system_messages = Some true)
    then [squash_on (JS.alen systemPrompts)]
    else [squash_off (JS.alen systemPrompts)]
  else [].

Definition alignment (estimatedTokens remainder padding : Z) : Finding.t :=
  {| Finding.id := "provider-specific-openai-alignment";
     Finding.rule := "provider-specific";
     Finding.severity := "info";
     Finding.title := "Stable prefix not aligned to 128-token boundary";
     Finding.description :=
       "The stable prefix is estimated at " +:+ JS.num estimatedTokens
         +:+ " tokens (remainder " +:+ JS.num remainder
         +:+ " when divided by 128). OpenAI caches at 128-token boundaries, so "
         +:+ JS.num padding +:+ " tokens are wasted in the current boundary.";
     Finding.affectedEntry := "all";
     Finding.recommendation :=
       "Consider adding ~" +:+ JS.num padding
         +:+ " tokens of static content to align your prefix to the next 128-token boundary for optimal cache utilization.";
     Finding.provider := "openai";
     Finding.meta := Meta.OpenAI estimatedTokens remainder padding |}.

Definition checkOpenAI (prompts : list Prompt.t) (prompt_order : list OrderElem.t)
    (options : Options.t) : list Finding.t :=
  let tokenizer := default defaultTokenizer (Options.tokenizer options) in
  let estimatedTokens := getStablePrefixTokens prompts prompt_order tokenizer in
  let remainder := JS.rem estimatedTokens 128 in
  if negb (remainder =? 0) then
    let padding := 128 - remainder in
    [alignment estimatedTokens remainder padding]
  else [].

Definition below_google (estimatedTokens threshold : Z) : Finding.t :=
  {| Finding.id := "provider-specific-google-threshold";
     Finding.rule := "provider-specific";
     Finding.severity := "warning";
     Finding.title := "Stable prefix below Google caching threshold";
     Finding.description :=
       "The stable prefix is estimated at " +:+ JS.num estimatedTokens
         +:+ " tokens, below Google's " +:+ JS.num threshold
         +:+ "-token minimum for context caching. The prefix will not be cached.";
     Finding.affectedEntry := "all";
     Finding.recommendation :=
       "Add more static content to reach at least " +:+ JS.num threshold
         +:+ " tokens in your stable prefix for Google context caching to activate.";
     Finding.provider := "google";
     Finding.meta := Meta.Google estimatedTokens threshold (threshold - estimatedTokens) |}.

Definition checkGoogle (prompts : list Prompt.t) (prompt_order : list OrderElem.t)
    (options : Options.t) : list Finding.t :=
  let tokenizer := default defaultTokenizer (Options.tokenizer options) in
  let estimatedTokens := getStablePrefixTokens prompts prompt_order tokenizer in
  let threshold := 4096 in
  if estimatedTokens <? threshold then [below_google estimatedTokens threshold]
  else [].

Definition checkProviderSpecific (preset : option Preset.t) (options : Options.t)
  : list Finding.t :=
  match preset, present preset with
  | Some p, Some (prompts, prompt_order) =>
      if negb (JS.truthy (Options.provider options)) then []
      else
        let provider := default EmptyString (Options.provider options) in
        if String.eqb provider "anthropic" then
          checkAnthropic prompts prompt_order (Preset.squash_system_messages p) options
        else if String.eqb provider "openai" then
          checkOpenAI prompts prompt_order options
        else if String.eqb provider "google" then
          checkGoogle prompts prompt_order options
        else []
  | _, _ => []
  end.

End ProviderSpecific.

(** ** analyzer.js: the aggregate *)

Definition analyze (preset : option Preset.t) (options : Options.t) : AnalysisResult.t :=
  let findings :=
    MacroPlacement.checkMacroPlacement preset options
      ++ PromptOrdering.checkPromptOrdering preset options
      ++ TokenThresholds.checkTokenThresholds preset options
      ++ InjectionDepth.checkInjectionDepth preset options
      ++ ProviderSpecific.checkProviderSpecific preset options in
  let score := calculateScore findings in
  let summary :=
    {| Summary.critical := count_severity "critical" findings;
       Summary.warning := count_severity "warning" findings;
       Summary.info := count_severity "info" findings |} in
  {| AnalysisResult.findings := findings;
     AnalysisResult.score := score;
     AnalysisResult.summary := summary |}.

(** ** Definitions used to state the properties *)

Module Spec.

(** Two strings that differ at most in the case of their ASCII letters. *)
Fixpoint eq_ci (a b : string) : bool :=
  match a, b with
  | EmptyString, EmptyString => true
  | String x a', String y b' => (Regex.char_eq_ci x y && eq_ci a' b')%bool
  | _, _ => false
  end.

(** The text that the pattern accepts at index [p] of [content]: two opening
    braces, one of the nine names in any case, then either two colons or two
    closing braces.  Nothing is asked of what follows. *)
Definition macro_at (content : string) (p : nat) : Prop :=
  exists name term before mid after,
    name ∈ Regex.MACRO_NAMES /\ term ∈ Regex.TERMINATORS
    /\ content = before +:+ mid +:+ after
    /\ String.length before = p
    /\ eq_ci ("{{" +:+ name +:+ term) mid = true.

(** A complete template marker at index [p]: [{{name}}], or [{{name::args}}]
    with its closing braces. *)
Definition marker_at (content : string) (p : nat) : Prop :=
  exists name before spelled after,
    name ∈ Regex.MACRO_NAMES /\ eq_ci name spelled = true
    /\ String.length before = p
    /\ (content = before +:+ "{{" +:+ spelled +:+ "}}" +:+ after
        \/ exists args,
             content = before +:+ "{{" +:+ spelled +:+ "::" +:+ args +:+ "}}" +:+ after).

(** Whether two closing braces occur somewhere in a string. *)
Fixpoint has_closing (s : string) : bool :=
  match s with
  | String a ((String b _) as s') =>
      ((Ascii.eqb a "}" && Ascii.eqb b "}") || has_closing s')%bool
  | _ => false
  end.

(** A string without an opening brace. *)
Fixpoint no_brace (s : string) : bool :=
  match s with
  | EmptyString => true
  | String c s' => (negb (Regex.char_eq_ci "{" c) && no_brace s')%bool
  end.

(** The matches of the pattern at every index of [s], from left to right,
    as (index, captured name); [pos] is the index of the head of [s]. *)
Fixpoint occ_from (s : string) (pos : nat) : list (nat * string) :=
  (match Regex.match_here s with
   | Some (cap, _) => [(pos, cap)]
   | None => []
   end)
  ++ match s with
     | EmptyString => []
     | String _ s' => occ_from s' (S pos)
     end.

(** The severity the specification assigns to a macro in the entry at index
    [i] of [total]; [i / total < 0.4] is written [5 * i < 2 * total]. *)
Definition placement_severity (i total : nat) : string :=
  if bool_decide (i = O) then "critical"
  else if bool_decide (5 * Z.of_nat i < 2 * Z.of_nat total) then "warning"
  else "info".

End Spec.

Module SpecFindings.

(** The position a Prompt Ordering finding is about. *)
Definition ordering_position (f : Finding.t) : option nat :=
  match Finding.meta f with
  | Meta.PromptOrdering p _ _ => Some (Z.to_nat p)
  | _ => None
  end.

(** [part] occurs in [text]. *)
Definition mentions (text part : string) : Prop :=
  exists before after, text = before +:+ part +:+ after.

(** The same as a test that computes, used to show that a text does not
    mention a part. *)
Fixpoint starts_with (part text : string) : bool :=
  match part, text with
  | EmptyString, _ => true
  | String a part', String b text' => (Ascii.eqb a b && starts_with part' text')%bool
  | String _ _, EmptyString => false
  end.

Fixpoint mentionsb (text part : string) : bool :=
  (starts_with part text
   || match text with
      | EmptyString => false
      | String _ text' => mentionsb text' part
      end)%bool.

(** The name of an entry of the order: the name of the prompt that carries
    its identifier, and the identifier itself when there is no such prompt. *)
Definition entry_name (prompts : gmap string Prompt.t) (entry : OrderRecord.t) : string :=
  match prompts !! OrderRecord.identifier entry with
  | Some p => Prompt.name p
  | None => OrderRecord.identifier entry
  end.

(** An entry that has a prompt, or else one under whose identifier a plain
    object holds nothing of another name: the identifier is neither
    [constructor] nor [__proto__], and no prompt is identified [__proto__]. *)
Definition plainly_named (prompts : gmap string Prompt.t) (entry : OrderRecord.t) : Prop :=
  is_Some (prompts !! OrderRecord.identifier entry)
  \/ (OrderRecord.identifier entry <> "constructor"%string
      /\ OrderRecord.identifier entry <> "__proto__"%string
      /\ prompts !! "__proto__"%string = None).

End SpecFindings.

Module SpecDepth.




End SpecDepth.

Module SpecProvider.


(** The stable prefix in the words of the specification: the contents, in
    order, of the entries of the effective sequence that are not volatile and
    whose content is not empty. *)
Definition stable_contents (prompts : list Prompt.t) (prompt_order : list OrderElem.t)
  : list string :=
  omap (fun entry : OrderRecord.t =>
          match content_of (promptMap prompts !! OrderRecord.identifier entry) with
          | Some (String a c) =>
              if isVolatile (OrderRecord.identifier entry) (Some (String a c))
              then None else Some (String a c)
          | _ => None
          end)
    (enabledEntries prompt_order).

End SpecProvider.

Module SpecAnalyze.

(** The result for a preset with nothing to analyse. *)
Definition empty_result : AnalysisResult.t :=
  {| AnalysisResult.findings := [];
     AnalysisResult.score := 100;
     AnalysisResult.summary :=
       {| Summary.critical := 0; Summary.warning := 0; Summary.info := 0 |} |}.

(** [prompts] or [prompt_order] is absent, or the preset itself is. *)
Definition absent (preset : option Preset.t) : Prop :=
  match preset with
  | None => True
  | Some p => Preset.prompts p = None \/ Preset.prompt_order p = None
  end.

(** [prompts] or [prompt_order] is empty or absent, or the preset itself is
    absent. *)
Definition empty_or_absent (preset : option Preset.t) : Prop :=
  match preset with
  | None => True
  | Some p =>
      Preset.prompts p = None \/ Preset.prompts p = Some []
      \/ Preset.prompt_order p = None \/ Preset.prompt_order p = Some []
  end.

End SpecAnalyze.

(** ** Sample inputs *)

Module Samples.

Definition prompt (identifier name content : string) : Prompt.t :=
  {| Prompt.identifier := identifier; Prompt.name := name;
     Prompt.content := Some content; Prompt.enabled := true;
     Prompt.role := "system"; Prompt.injection_position := Some 0;
     Prompt.injection_depth := None |}.

Definition injected (identifier content : string) (depth : Z) : Prompt.t :=
  {| Prompt.identifier := identifier; Prompt.name := identifier;
     Prompt.content := Some content; Prompt.enabled := true;
     Prompt.role := "system"; Prompt.injection_position := Some 1;
     Prompt.injection_depth := Some depth |}.

Definition on (identifier : string) : OrderRecord.t :=
  {| OrderRecord.identifier := identifier; OrderRecord.enabled := true |}.

Definition off (identifier : string) : OrderRecord.t :=
  {| OrderRecord.identifier := identifier; OrderRecord.enabled := false |}.

Definition finding_of (severity : string) : Finding.t :=
  {| Finding.id := "sample"; Finding.rule := "sample"; Finding.severity := severity;
     Finding.title := EmptyString; Finding.description := EmptyString;
     Finding.affectedEntry := "all"; Finding.recommendation := EmptyString;
     Finding.provider := "all"; Finding.meta := Meta.Anthropic 0 false |}.

Definition no_options : Options.t :=
  {| Options.provider := None; Options.tokenizer := None |}.

Definition for_provider (provider : string) : Options.t :=
  {| Options.provider := Some provider; Options.tokenizer := None |}.

(** [{ prompts: [], prompt_order: [] }] *)
Definition empty_arrays : Preset.t :=
  {| Preset.prompts := Some []; Preset.prompt_order := Some [];
     Preset.squash_system_messages := None |}.

(** Six enabled entries under a per-character wrapper, one disabled; macros
    at positions 0, 2 and 5. *)
Definition macros_prompts : list Prompt.t :=
  [ prompt "main" "Main" "Pick {{random::a,b}} on {{date}}.";
    prompt "worldInfo" "World" "The world.";
    prompt "scenario" "Scenario" "It is {{time}} now.";
    prompt "charDescription" "Char" "About {{char}}.";
    prompt "chatHistory" "Chat" EmptyString;
    prompt "jailbreak" "Post" "Roll {{roll::1d20}}.";
    prompt "unused" "Unused" "{{random}}" ].

Definition macros_order : list OrderElem.t :=
  [ OrderElem.Wrapper 100001
      [ on "main"; on "worldInfo"; on "scenario"; on "charDescription";
        off "unused"; on "chatHistory"; on "jailbreak" ] ].

Definition macros : Preset.t :=
  {| Preset.prompts := Some macros_prompts; Preset.prompt_order := Some macros_order;
     Preset.squash_system_messages := None |}.

(** A flat order with the conversation history before two stable entries. *)
Definition interleaved_prompts : list Prompt.t :=
  [ prompt "main" "Main" "You are a narrator.";
    prompt "chatHistory" "Chat History" EmptyString;
    prompt "charDescription" "Description" "Tall.";
    prompt "scenario" "Scenario" "A tavern." ].

Definition interleaved_order : list OrderElem.t :=
  [ OrderElem.Rec (on "main"); OrderElem.Rec (on "chatHistory");
    OrderElem.Rec (on "charDescription"); OrderElem.Rec (on "scenario") ].

Definition interleaved : Preset.t :=
  {| Preset.prompts := Some interleaved_prompts;
     Preset.prompt_order := Some interleaved_order;
     Preset.squash_system_messages := Some true |}.

(** The conversation history before two stable entries, the first of which
    has no prompt and is identified by a name that plain objects inherit. *)
Definition inherited_prompts : list Prompt.t :=
  [ prompt "main" "Main" "You are a narrator.";
    prompt "chatHistory" "Chat History" EmptyString;
    prompt "scenario" "Scenario" "A tavern." ].

Definition inherited_order : list OrderElem.t :=
  [ OrderElem.Rec (on "main"); OrderElem.Rec (on "chatHistory");
    OrderElem.Rec (on "constructor"); OrderElem.Rec (on "scenario") ].

Definition inherited : Preset.t :=
  {| Preset.prompts := Some inherited_prompts;
     Preset.prompt_order := Some inherited_order;
     Preset.squash_system_messages := None |}.

(** Options with a tokenizer that answers 2000 for every text. *)
Definition counting_2000 (provider : string) : Options.t :=
  {| Options.provider := Some provider; Options.tokenizer := Some (fun _ => 2000) |}.

(** Two injected prompts, one shallow and dynamic, one deep. *)
Definition injections_prompts : list Prompt.t :=
  [ prompt "main" "Main" "You are a narrator.";
    injected "note" "It is {{time}}." 1;
    injected "deep" "Remember." 5 ].

Definition injections_order : list OrderElem.t :=
  [ OrderElem.Rec (on "main"); OrderElem.Rec (on "note"); OrderElem.Rec (on "deep") ].

Definition injections : Preset.t :=
  {| Preset.prompts := Some injections_prompts;
     Preset.prompt_order := Some injections_order;
     Preset.squash_system_messages := None |}.

End Samples.

(** ** Definitions used to state the further properties *)

Module SpecResult.

(** The three severities. *)
Definition known_severity (s : string) : Prop :=
  s = "critical"%string \/ s = "warning"%string \/ s = "info"%string.

(** The findings of one rule among a list of findings. *)
Definition by_rule (rule : string) (findings : list Finding.t) : list Finding.t :=
  filter (fun f => Finding.rule f = rule) findings.

(** The position a Macro Placement finding records. *)
Definition macro_position (f : Finding.t) : option Z :=
  match Finding.meta f with
  | Meta.MacroPlacement _ p _ _ => Some p
  | _ => None
  end.

End SpecResult.

(** ** index.js: the host adapter

    The globals the file reads are gathered in a record: whether the code
    runs under Node, the [oai_settings] global of the host ([None] when it is
    undefined), what [getContext()] gives (the outer [None] when it throws,
    the inner one when [extensionSettings] has no entry for the module), and
    the function at [window.cacheAnalyzer.analyze], if there is one: nothing
    in the repository puts it there, so it is whatever the host has loaded. *)

Module Index.

Definition MODULE_NAME : string := "cache_analyzer".

Record Settings := {
  enabled : bool;
  autoAnalyze : bool;
  provider : string
}.

Definition defaultSettings : Settings :=
  {| enabled := true; autoAnalyze := true; provider := "auto" |}.

Record OaiSettings := {
  chat_completion_source : option string;
  prompts : option (list Prompt.t);
  prompt_order : option (list OrderElem.t);
  squash_system_messages : option bool;
  stream_openai : option bool;
  openai_max_context : option Z
}.

Record Host := {
  IS_NODE : bool;
  oai_settings : option OaiSettings;
  context : option (option Settings);
  cacheAnalyzer : option (option Preset.t -> Options.t -> AnalysisResult.t)
}.

(** The object [getCurrentPreset] builds. *)
Record CurrentPreset := {
  cp_prompts : list Prompt.t;
  cp_prompt_order : list OrderElem.t;
  cp_squash_system_messages : bool;
  cp_stream_openai : bool;
  cp_openai_max_context : Z
}.

(** The preset as the rules read it: they look at three of its properties. *)
Definition as_preset (c : CurrentPreset) : Preset.t :=
  {| Preset.prompts := Some (cp_prompts c);
     Preset.prompt_order := Some (cp_prompt_order c);
     Preset.squash_system_messages := Some (cp_squash_system_messages c) |}.

Definition detectProvider (h : Host) : string :=
  match oai_settings h with
  | Some s =>
      let source := chat_completion_source s in
      if bool_decide (source = Some "claude"%string) then "anthropic"
      else if bool_decide (source = Some "openai"%string) then "openai"
      else if bool_decide (source = Some "google"%string) then "google"
      else "anthropic"
  | None => "anthropic"
  end.

Definition getCurrentPreset (h : Host) : option CurrentPreset :=
  match oai_settings h with
  | None => None
  | Some s =>
      Some {| cp_prompts := default [] (prompts s);
              cp_prompt_order := default [] (prompt_order s);
              cp_squash_system_messages := default false (squash_system_messages s);
              cp_stream_openai := default false (stream_openai s);
              cp_openai_max_context := default 0 (openai_max_context s) |}
  end.

(** [getSettings]: the settings it returns and the host afterwards (in the
    browser a missing entry is created from the defaults). *)
Definition getSettings (h : Host) : Settings * Host :=
  if IS_NODE h then (defaultSettings, h)
  else
    match context h with
    | Some (Some s) => (s, h)
    | Some None =>
        (defaultSettings,
         {| IS_NODE := IS_NODE h; oai_settings := oai_settings h;
            context := Some (Some defaultSettings); cacheAnalyzer := cacheAnalyzer h |})
    | None => (defaultSettings, h)
    end.

(** [runAnalysis]: the result ([None] for [null]) and the host afterwards. *)
Definition runAnalysis (h : Host) (presetOverride : option Preset.t)
    (optionsOverride : option Options.t) : option AnalysisResult.t * Host :=
  let preset :=
    match presetOverride with
    | Some p => Some p
    | None => as_preset <$> getCurrentPreset h
    end in
  match preset with
  | None => (None, h)
  | Some preset =>
      let '(settings, h') := getSettings h in
      let provider :=
        JS.or_else (optionsOverride ≫= Options.provider)
          (if String.eqb (provider settings) "auto" then detectProvider h
           else provider settings) in
      let analyze := if IS_NODE h then Some analyze else cacheAnalyzer h in
      match analyze with
      | None => (None, h')
      | Some analyze =>
          let results :=
            analyze (Some preset)
              {| Options.provider := Some provider; Options.tokenizer := None |} in
          (Some results, h')
      end
  end.

End Index.

(** ** ui/components.js: the parts that compute *)

Module Components.

Definition getScoreLabel (score : Z) : string * string :=
  if score >=? 90 then ("Excellent", "ca-score-excellent")
  else if score >=? 70 then ("Good", "ca-score-good")
  else if score >=? 50 then ("Needs Work", "ca-score-needswork")
  else ("Poor", "ca-score-poor").

(** [str.replace(/c/g, by)] for a pattern of one literal character. *)
Fixpoint replace_char (c : ascii) (by_ : string) (str : string) : string :=
  match str with
  | EmptyString => EmptyString
  | String x rest =>
      if Ascii.eqb x c then by_ +:+ replace_char c by_ rest
      else String x (replace_char c by_ rest)
  end.

Definition escapeHtml (str : option string) : string :=
  if negb (JS.truthy str) then EmptyString
  else
    replace_char (ascii_of_nat 34) "&quot;"
      (replace_char ">" "&gt;"
         (replace_char "<" "&lt;"
            (replace_char "&" "&amp;" (default EmptyString str)))).

(** [Array.prototype.sort] with a comparator.  The language asks for a
    stable sort; when the comparator compares keys, as the one below does,
    the stable sorted arrangement is unique, and the stable insertion sort
    computes it: an element is placed before the first element of the sorted
    rest that it does not exceed. *)
Fixpoint sort_place {A} (compare : A -> A -> Z) (x : A) (s : list A) : list A :=
  match s with
  | [] => [x]
  | y :: s' =>
      if compare x y <=? 0 then x :: y :: s'
      else y :: sort_place compare x s'
  end.

Fixpoint sort {A} (compare : A -> A -> Z) (l : list A) : list A :=
  match l with
  | [] => []
  | x :: l' => sort_place compare x (sort compare l')
  end.

(** [order[severity] || 3] with [order = { critical: 0, warning: 1, info: 2 }]:
    0 is falsy, so "critical" gets 3 like a severity the table does not hold.
    The lookup is modelled on the table's own three properties; names that
    every object inherits (constructor, toString and the like) are no
    severity a rule gives, and the property proved of the sort is stated for
    the three severities. *)
Definition order (severity : string) : option Z :=
  if String.eqb severity "critical" then Some 0
  else if String.eqb severity "warning" then Some 1
  else if String.eqb severity "info" then Some 2
  else None.

Definition order_or_3 (severity : string) : Z :=
  match order severity with
  | Some n => if n =? 0 then 3 else n
  | None => 3
  end.

(** The array [sorted] of [renderFindingsList], over which it maps
    [renderFindingCard]. *)
Definition sorted (findings : list Finding.t) : list Finding.t :=
  sort (fun a b => order_or_3 (Finding.severity a) - order_or_3 (Finding.severity b))
    findings.

End Components.

Module SpecComponents.

(** What [escapeHtml] writes for one character. *)
Definition escape_char (c : ascii) : string :=
  if Ascii.eqb c "&" then "&amp;"
  else if Ascii.eqb c "<" then "&lt;"
  else if Ascii.eqb c ">" then "&gt;"
  else if Ascii.eqb c (ascii_of_nat 34) then "&quot;"
  else String c EmptyString.

Fixpoint escape_each (s : string) : string :=
  match s with
  | EmptyString => EmptyString
  | String c rest => escape_char c +:+ escape_each rest
  end.

Fixpoint has_char (c : ascii) (s : string) : bool :=
  match s with
  | EmptyString => false
  | String x rest => (Ascii.eqb x c || has_char c rest)%bool
  end.


(** The three groups in which [renderFindingsList] ends up rendering. *)
Definition warnings (findings : list Finding.t) : list Finding.t :=
  filter (fun f => Finding.severity f = "warning"%string) findings.

Definition infos (findings : list Finding.t) : list Finding.t :=
  filter (fun f => Finding.severity f = "info"%string) findings.

Definition others (findings : list Finding.t) : list Finding.t :=
  filter (fun f => Finding.severity f <> "warning"%string
                   /\ Finding.severity f <> "info"%string) findings.

Definition criticals (findings : list Finding.t) : list Finding.t :=
  filter (fun f => Finding.severity f = "critical"%string) findings.

End SpecComponents.

(** ** Sample hosts *)

Module HostSamples.

(** Settings of a host that has loaded no prompts yet. *)
Definition bare_settings : Index.OaiSettings :=
  {| Index.chat_completion_source := Some "claude"%string;
     Index.prompts := None; Index.prompt_order := None;
     Index.squash_system_messages := None; Index.stream_openai := None;
     Index.openai_max_context := None |}.

(** Node, as the tests run it: no [oai_settings] global. *)
Definition node : Index.Host :=
  {| Index.IS_NODE := true; Index.oai_settings := None;
     Index.context := None; Index.cacheAnalyzer := None |}.

Definition node_with_settings : Index.Host :=
  {| Index.IS_NODE := true; Index.oai_settings := Some bare_settings;
     Index.context := None; Index.cacheAnalyzer := None |}.

End HostSamples.

(** ** Strings *)

Section Strings.

Lemma app_cons (c : ascii) (s t : string) : String c s +:+ t = String c (s +:+ t).
Proof. reflexivity. Qed.

Lemma app_nil_l (s : string) : EmptyString +:+ s = s.
Proof. reflexivity. Qed.

Lemma app_nil_r (s : string) : s +:+ EmptyString = s.
Proof. induction s as [|c s IH]; [done|]. by rewrite app_cons, IH. Qed.

Lemma app_assoc_s (a b c : string) : (a +:+ b) +:+ c = a +:+ b +:+ c.
Proof. induction a as [|x a IH]; [done|]. by rewrite !app_cons, IH. Qed.

Lemma length_app_s (a b : string) :
  String.length (a +:+ b) = (String.length a + String.length b)%nat.
Proof. induction a as [|x a IH]; [done|]. rewrite app_cons. simpl. by rewrite IH. Qed.

Lemma drop_chars_app (a b : string) :
  Regex.drop_chars (String.length a) (a +:+ b) = b.
Proof. induction a as [|x a IH]; [by destruct b|]. by rewrite app_cons. Qed.

Lemma drop_chars_split (n : nat) (s : string) :
  (n <= String.length s)%nat ->
  exists a, s = a +:+ Regex.drop_chars n s /\ String.length a = n.
Proof.
  revert s. induction n as [|n IH]; intros s Hn.
  - exists EmptyString. by destruct s.
  - destruct s as [|c s]; simpl in Hn; [lia|].
    destruct (IH s) as (a & Ha & Hl); [lia|].
    exists (String c a). simpl. split; [|by rewrite Hl].
    rewrite app_cons. by rewrite <- Ha.
Qed.

Lemma drop_chars_length (n : nat) (s : string) :
  String.length (Regex.drop_chars n s) = (String.length s - n)%nat.
Proof.
  revert s. induction n as [|n IH]; intros [|c s]; simpl; done.
Qed.

Lemma drop_chars_drop (n m : nat) (s : string) :
  Regex.drop_chars n (Regex.drop_chars m s) = Regex.drop_chars (m + n) s.
Proof.
  revert s. induction m as [|m IH]; intros s; [done|].
  destruct s as [|c s]; simpl; [by destruct n|]. apply IH.
Qed.

End Strings.

(** ** The matcher against the form of the pattern *)

Section Matcher.

Lemma char_eq_ci_trans (x y z : ascii) :
  Regex.char_eq_ci x y = true -> Regex.char_eq_ci y z = true ->
  Regex.char_eq_ci x z = true.
Proof.
  unfold Regex.char_eq_ci. rewrite !Ascii.eqb_eq. congruence.
Qed.

Lemma char_eq_ci_sym (x y : ascii) :
  Regex.char_eq_ci x y = Regex.char_eq_ci y x.
Proof. unfold Regex.char_eq_ci. apply Ascii.eqb_sym. Qed.

Lemma match_lit_sound (pat s m rest : string) :
  Regex.match_lit pat s = Some (m, rest) ->
  s = m +:+ rest /\ Spec.eq_ci pat m = true.
Proof.
  revert s m. induction pat as [|p pat IH]; intros s m H; simpl in H.
  - by simplify_eq.
  - destruct s as [|c s]; [done|].
    destruct (Regex.char_eq_ci p c) eqn:E; [|done].
    destruct (Regex.match_lit pat s) as [[m' r']|] eqn:E'; [|done].
    simplify_eq. destruct (IH _ _ E') as [-> Hm].
    split; [done|]. simpl. by rewrite E, Hm.
Qed.

Lemma match_lit_complete (pat m rest : string) :
  Spec.eq_ci pat m = true -> Regex.match_lit pat (m +:+ rest) = Some (m, rest).
Proof.
  revert m. induction pat as [|p pat IH]; intros [|c m] H; simpl in H; try done.
  apply andb_true_iff in H as [Hc Hm].
  rewrite app_cons. simpl. by rewrite Hc, (IH _ Hm).
Qed.

Lemma eq_ci_length (a b : string) :
  Spec.eq_ci a b = true -> String.length a = String.length b.
Proof.
  revert b. induction a as [|x a IH]; intros [|y b] H; simpl in *; try done.
  apply andb_true_iff in H as [_ H]. by rewrite (IH _ H).
Qed.

Lemma eq_ci_app (a b m : string) :
  Spec.eq_ci (a +:+ b) m = true <->
  exists m1 m2, m = m1 +:+ m2 /\ Spec.eq_ci a m1 = true /\ Spec.eq_ci b m2 = true.
Proof.
  revert m. induction a as [|x a IH]; intros m.
  - rewrite app_nil_l. split.
    + intros H. by exists EmptyString, m.
    + intros (m1 & m2 & -> & H1 & H2). by destruct m1.
  - rewrite app_cons. split.
    + destruct m as [|y m]; simpl; [done|].
      intros [Hc H]%andb_true_iff. apply IH in H as (m1 & m2 & -> & H1 & H2).
      exists (String y m1), m2. simpl. by rewrite Hc, H1.
    + intros (m1 & m2 & -> & H1 & H2). destruct m1 as [|y m1]; simpl in H1; [done|].
      apply andb_true_iff in H1 as [Hc H1]. rewrite app_cons. simpl.
      rewrite Hc. simpl. apply IH. by exists m1, m2.
Qed.

Lemma eq_ci_no_brace (a b : string) :
  Spec.eq_ci a b = true -> Spec.no_brace a = true -> Spec.no_brace b = true.
Proof.
  revert b. induction a as [|x a IH]; intros [|y b] H Ha; simpl in *; try done.
  apply andb_true_iff in H as [Hc H]. apply andb_true_iff in Ha as [Hx Ha].
  rewrite (IH _ H Ha), andb_true_r.
  destruct (Regex.char_eq_ci "{" y) eqn:E; [|done].
  rewrite char_eq_ci_sym in Hc.
  by rewrite (char_eq_ci_trans _ _ _ E Hc) in Hx.
Qed.

Lemma match_alt_sound (alts : list string) (s m rest : string) :
  Regex.match_alt alts s = Some (m, rest) ->
  exists a, a ∈ alts /\ s = m +:+ rest /\ Spec.eq_ci a m = true.
Proof.
  induction alts as [|a alts IH]; simpl; [done|].
  destruct (Regex.match_lit a s) as [[m' r']|] eqn:E.
  - intros ?; simplify_eq. apply match_lit_sound in E as [-> ?].
    exists a. split; [left|done].
  - intros H. destruct (IH H) as (a' & ? & ? & ?). exists a'. split; [by right|done].
Qed.

Lemma match_alt_complete (alts : list string) (a m rest : string) :
  a ∈ alts -> Spec.eq_ci a m = true ->
  is_Some (Regex.match_alt alts (m +:+ rest)).
Proof.
  intros Hin Hm. induction alts as [|a' alts IH]; [by apply elem_of_nil in Hin|].
  simpl. destruct (Regex.match_lit a' (m +:+ rest)) eqn:E; [done|].
  apply elem_of_cons in Hin as [->|Hin]; [|by apply IH].
  by rewrite (match_lit_complete _ _ _ Hm) in E.
Qed.

Lemma match_name_sound (names : list string) (s cap rest : string) :
  Regex.match_name names s = Some (cap, rest) ->
  exists name term t,
    name ∈ names /\ term ∈ Regex.TERMINATORS
    /\ s = cap +:+ t +:+ rest
    /\ Spec.eq_ci name cap = true /\ Spec.eq_ci term t = true.
Proof.
  induction names as [|n names IH]; cbn [Regex.match_name]; [done|].
  destruct (Regex.match_lit n s) as [[c r]|] eqn:E.
  - destruct (Regex.match_alt Regex.TERMINATORS r) as [[t r']|] eqn:E'.
    + intros ?; simplify_eq. apply match_lit_sound in E as [-> Hc].
      apply match_alt_sound in E' as (term & Hin & -> & Ht).
      exists n, term, t. split; [apply elem_of_cons; by left|done].
    + intros H. destruct (IH H) as (name & term & t & ? & ?).
      exists name, term, t. split; [by right|done].
  - intros H. destruct (IH H) as (name & term & t & ? & ?).
    exists name, term, t. split; [by right|done].
Qed.

Lemma match_name_complete (names : list string) (name term cap t rest : string) :
  name ∈ names -> term ∈ Regex.TERMINATORS ->
  Spec.eq_ci name cap = true -> Spec.eq_ci term t = true ->
  is_Some (Regex.match_name names (cap +:+ t +:+ rest)).
Proof.
  intros Hin Hterm Hc Ht. induction names as [|n names IH]; [by apply elem_of_nil in Hin|].
  cbn [Regex.match_name]. destruct (Regex.match_lit n (cap +:+ t +:+ rest)) as [[c r]|] eqn:E.
  - destruct (Regex.match_alt Regex.TERMINATORS r) as [[t' r']|] eqn:E'; [done|].
    apply elem_of_cons in Hin as [->|Hin]; [|by apply IH].
    rewrite (match_lit_complete _ _ _ Hc) in E. simplify_eq.
    destruct (match_alt_complete _ _ _ rest Hterm Ht) as [x Hx]. by rewrite Hx in E'.
  - apply elem_of_cons in Hin as [->|Hin]; [|by apply IH].
    by rewrite (match_lit_complete _ _ _ Hc) in E.
Qed.

End Matcher.

Section MatchHere.

Lemma char_eq_ci_brace (c : ascii) :
  Regex.char_eq_ci "{" c = true -> c = "{"%char.
Proof. destruct c as [[] [] [] [] [] [] [] []]; vm_compute; congruence. Qed.

Lemma eq_ci_braces (m : string) : Spec.eq_ci "{{" m = true -> m = "{{"%string.
Proof.
  destruct m as [|a [|b [|c m]]]; simpl; try done.
  - by rewrite andb_false_r.
  - intros [Ha [Hb _]%andb_true_iff]%andb_true_iff.
    by rewrite (char_eq_ci_brace _ Ha), (char_eq_ci_brace _ Hb).
  - by rewrite !andb_false_r.
Qed.

Lemma names_no_brace (name : string) :
  name ∈ Regex.MACRO_NAMES -> Spec.no_brace name = true.
Proof.
  unfold Regex.MACRO_NAMES. rewrite !elem_of_cons, elem_of_nil.
  intros H. repeat (destruct H as [->|H]; [reflexivity|]). done.
Qed.

Lemma terminators_no_brace (term : string) :
  term ∈ Regex.TERMINATORS -> Spec.no_brace term = true /\ String.length term = 2%nat.
Proof.
  unfold Regex.TERMINATORS. rewrite !elem_of_cons, elem_of_nil.
  intros H. repeat (destruct H as [->|H]; [by split|]). done.
Qed.

Lemma names_nonempty (name : string) :
  name ∈ Regex.MACRO_NAMES -> (1 <= String.length name)%nat.
Proof.
  unfold Regex.MACRO_NAMES. rewrite !elem_of_cons, elem_of_nil.
  intros H. repeat (destruct H as [->|H]; [simpl; lia|]). done.
Qed.

Lemma no_brace_app (a b : string) :
  Spec.no_brace (a +:+ b) = (Spec.no_brace a && Spec.no_brace b)%bool.
Proof.
  induction a as [|x a IH]; [done|]. rewrite app_cons. simpl.
  by rewrite IH, andb_assoc.
Qed.

(** What a match at the head of [s] looks like. *)
Lemma match_here_sound (s cap : string) (len : nat) :
  Regex.match_here s = Some (cap, len) ->
  exists name term t rest,
    name ∈ Regex.MACRO_NAMES /\ term ∈ Regex.TERMINATORS
    /\ s = "{{" +:+ cap +:+ t +:+ rest
    /\ Spec.eq_ci name cap = true /\ Spec.eq_ci term t = true
    /\ len = (2 + String.length cap + 2)%nat.
Proof.
  unfold Regex.match_here.
  destruct (Regex.match_lit "{{" s) as [[m r]|] eqn:E; [|done].
  destruct (Regex.match_name Regex.MACRO_NAMES r) as [[c r']|] eqn:E'; [|done].
  intros ?; simplify_eq.
  apply match_lit_sound in E as [-> Hm]. apply eq_ci_braces in Hm as ->.
  apply match_name_sound in E' as (name & term & t & Hn & Ht & -> & Hc & Htt).
  exists name, term, t, r'. repeat split; try done.
  rewrite !length_app_s.
  pose proof (eq_ci_length _ _ Htt) as Hl.
  destruct (terminators_no_brace _ Ht) as [_ Hl2]. simpl String.length. lia.
Qed.

Lemma match_here_complete (name term mid rest : string) :
  name ∈ Regex.MACRO_NAMES -> term ∈ Regex.TERMINATORS ->
  Spec.eq_ci ("{{" +:+ name +:+ term) mid = true ->
  is_Some (Regex.match_here (mid +:+ rest)).
Proof.
  intros Hn Ht H.
  apply eq_ci_app in H as (m1 & m2 & -> & H1 & H2).
  apply eq_ci_app in H2 as (cap & t & -> & Hc & Htt).
  apply eq_ci_braces in H1 as ->.
  unfold Regex.match_here. rewrite !app_assoc_s.
  rewrite (match_lit_complete "{{" "{{" _ eq_refl).
  destruct (match_name_complete _ _ _ _ _ rest Hn Ht Hc Htt) as [[c r] Hx].
  by rewrite Hx.
Qed.

(** The pattern matches at index [p] exactly where the text has the form. *)
Lemma macro_at_match_here (content : string) (p : nat) :
  Spec.macro_at content p <->
  (p <= String.length content)%nat
  /\ is_Some (Regex.match_here (Regex.drop_chars p content)).
Proof.
  split.
  - intros (name & term & before & mid & after & Hn & Ht & -> & <- & H).
    split; [rewrite length_app_s; lia|].
    rewrite drop_chars_app. by eapply match_here_complete.
  - intros [Hp [[cap len] H]].
    destruct (drop_chars_split p content Hp) as (before & Hsplit & Hlen).
    apply match_here_sound in H as (name & term & t & rest & Hn & Ht & Hs & Hc & Htt & _).
    exists name, term, before, ("{{" +:+ cap +:+ t), rest.
    repeat split; try done.
    + rewrite Hsplit at 1. rewrite Hs. by rewrite !app_assoc_s.
    + apply eq_ci_app. exists "{{"%string, (cap +:+ t). repeat split; try done.
      apply eq_ci_app. by exists cap, t.
Qed.

Lemma match_here_length (s cap : string) (len : nat) :
  Regex.match_here s = Some (cap, len) ->
  (1 <= len <= String.length s)%nat.
Proof.
  intros H.
  apply match_here_sound in H as (name & term & t & rest & _ & Hterm & -> & _ & Ht & ->).
  rewrite !length_app_s. simpl String.length.
  pose proof (eq_ci_length _ _ Ht).
  destruct (terminators_no_brace _ Hterm) as [_ ?]. lia.
Qed.

Lemma no_brace_drop (body rest : string) (j : nat) :
  Spec.no_brace body = true -> (j < String.length body)%nat ->
  exists b t, Regex.drop_chars j (body +:+ rest) = String b t
              /\ Regex.char_eq_ci "{" b = false.
Proof.
  revert body. induction j as [|j IH]; intros [|c body] Hb Hj; simpl in *; try lia.
  - apply andb_true_iff in Hb as [Hc _]. exists c, (body +:+ rest).
    split; [done|]. by destruct (Regex.char_eq_ci "{" c).
  - apply andb_true_iff in Hb as [_ Hb]. apply IH; [done|lia].
Qed.

Lemma match_here_head (b : ascii) (t : string) :
  Regex.char_eq_ci "{" b = false -> Regex.match_here (String b t) = None.
Proof. intros H. unfold Regex.match_here. simpl. by rewrite H. Qed.

(** No match starts inside another one. *)
Lemma match_here_no_overlap (s cap : string) (len j : nat) :
  Regex.match_here s = Some (cap, len) -> (1 <= j < len)%nat ->
  Regex.match_here (Regex.drop_chars j s) = None.
Proof.
  intros H Hj.
  apply match_here_sound in H as (name & term & t & rest & Hn & Ht & -> & Hc & Htt & ->).
  assert (Hbody : Spec.no_brace (cap +:+ t) = true).
  { rewrite no_brace_app.
    rewrite (eq_ci_no_brace _ _ Hc (names_no_brace _ Hn)).
    by rewrite (eq_ci_no_brace _ _ Htt (proj1 (terminators_no_brace _ Ht))). }
  assert (Hlen : String.length (cap +:+ t) = (String.length cap + 2)%nat).
  { rewrite length_app_s. rewrite <- (eq_ci_length _ _ Htt).
    by destruct (terminators_no_brace _ Ht) as [_ ->]. }
  assert (Hcap : (1 <= String.length cap)%nat).
  { rewrite <- (eq_ci_length _ _ Hc). by apply names_nonempty. }
  rewrite <- !app_assoc_s. rewrite (app_assoc_s "{{" cap t).
  destruct j as [|[|j]]; [lia| |].
  - destruct (no_brace_drop (cap +:+ t) rest 0 Hbody) as (b & u & Hd & Hb); [lia|].
    simpl in Hd. change (Regex.drop_chars 1 (("{{" +:+ cap +:+ t) +:+ rest))
      with (String "{" ((cap +:+ t) +:+ rest)).
    rewrite Hd. unfold Regex.match_here. simpl. by rewrite Hb.
  - destruct (no_brace_drop (cap +:+ t) rest j Hbody) as (b & u & Hd & Hb); [lia|].
    change (Regex.drop_chars (S (S j)) (("{{" +:+ cap +:+ t) +:+ rest))
      with (Regex.drop_chars j ((cap +:+ t) +:+ rest)).
    rewrite Hd. by apply match_here_head.
Qed.

End MatchHere.

Section Search.

Lemma search_Some (s : string) (pos : nat) (cap : string) (start e : nat) :
  Regex.search s pos = Some (cap, start, e) ->
  exists k len,
    (k <= String.length s)%nat /\ start = (pos + k)%nat /\ e = (start + len)%nat
    /\ (forall j, (j < k)%nat -> Regex.match_here (Regex.drop_chars j s) = None)
    /\ Regex.match_here (Regex.drop_chars k s) = Some (cap, len).
Proof.
  revert pos. induction s as [|c s IH]; intros pos; cbn [Regex.search].
  - done.
  - destruct (Regex.match_here (String c s)) as [[cp ln]|] eqn:E.
    + intros ?; simplify_eq. exists O, ln. repeat split; try done; try lia.
    + intros H. destruct (IH _ H) as (k & len & Hk & -> & -> & Hnone & Hm).
      exists (S k), len. repeat split; try done; try lia.
      * simpl. lia.
      * intros [|j] Hj; [done|]. apply Hnone. lia.
Qed.

Lemma search_None (s : string) (pos : nat) :
  Regex.search s pos = None ->
  forall j, Regex.match_here (Regex.drop_chars j s) = None.
Proof.
  revert pos. induction s as [|c s IH]; intros pos; cbn [Regex.search].
  - intros _ [|j]; done.
  - destruct (Regex.match_here (String c s)) as [[cp ln]|] eqn:E; [done|].
    intros H [|j]; [done|]. simpl. by eapply IH.
Qed.

Lemma search_is_Some (s : string) (pos : nat) :
  is_Some (Regex.search s pos) <->
  exists j, (j <= String.length s)%nat
            /\ is_Some (Regex.match_here (Regex.drop_chars j s)).
Proof.
  split.
  - intros [[[cap st] e] H].
    apply search_Some in H as (k & len & Hk & _ & _ & _ & Hm). exists k. by rewrite Hm.
  - intros (j & _ & Hj). destruct (Regex.search s pos) eqn:E; [done|].
    rewrite (search_None _ _ E j) in Hj. by destruct Hj.
Qed.

(** [test] from a scan position of 0 answers whether the text holds the
    form somewhere. *)
Lemma test_true_iff (content : string) :
  fst (Regex.test O content) = true <-> exists p, Spec.macro_at content p.
Proof.
  unfold Regex.test, Regex.exec. simpl Nat.ltb. cbn [Regex.drop_chars].
  assert (Hs : is_Some (Regex.search content O) <-> exists p, Spec.macro_at content p).
  { rewrite search_is_Some. by setoid_rewrite macro_at_match_here. }
  destruct (Regex.search content O) as [[[cap st] e]|] eqn:E; simpl.
  - split; [intros _; by apply Hs|done].
  - split; [done|]. intros H. apply Hs in H. by destruct H.
Qed.

End Search.

(** ** The volatility classifier *)

Section Volatility.

Lemma isVolatile_unfold (identifier : string) (content : option string) :
  isVolatile identifier content =
  (bool_decide (identifier ∈ VOLATILE_IDENTIFIERS)
   || (JS.truthy content && fst (Regex.test O (default EmptyString content))))%bool.
Proof.
  unfold isVolatile, isVolatile_st.
  destruct (bool_decide _); [done|]. destruct (JS.truthy content); [|done].
  simpl. by destruct (Regex.test _ _) as [[] ?].
Qed.

Lemma isVolatile_st_fst (lastIndex : nat) (identifier : string) (content : option string) :
  fst (isVolatile_st lastIndex identifier content) = isVolatile identifier content.
Proof.
  unfold isVolatile, isVolatile_st.
  destruct (bool_decide _); [done|]. destruct (JS.truthy content); [|done].
  by destruct (Regex.test _ _) as [[] ?].
Qed.

Lemma volatile_identifier (identifier : string) :
  identifier ∈ VOLATILE_IDENTIFIERS <->
  identifier = "chatHistory"%string \/ identifier = "dialogueExamples"%string.
Proof. unfold VOLATILE_IDENTIFIERS. set_solver. Qed.

Lemma macro_at_nonempty (p : nat) : ~ Spec.macro_at EmptyString p.
Proof.
  intros [Hp [[cap len] H]]%macro_at_match_here.
  simpl in Hp. assert (p = O) as -> by lia. done.
Qed.

Lemma isVolatile_iff (identifier : string) (content : option string) :
  isVolatile identifier content = true <->
  identifier = "chatHistory"%string \/ identifier = "dialogueExamples"%string
  \/ exists c p, content = Some c /\ Spec.macro_at c p.
Proof.
  rewrite isVolatile_unfold, orb_true_iff, andb_true_iff, bool_decide_eq_true.
  rewrite volatile_identifier, test_true_iff.
  split.
  - intros [[?|?]|[Ht [p Hp]]]; [by left|by right; left|].
    right; right. destruct content as [[|a c]|]; try done. by exists (String a c), p.
  - intros [?|[?|(c & p & -> & Hp)]]; [left; by left|left; by right|].
    right. split; [|by exists p].
    destruct c; [by apply macro_at_nonempty in Hp|done].
Qed.

End Volatility.

Section Score.

Lemma score_step_shift (a b : Z) (f : Finding.t) :
  score_step (a + b) f = score_step a f + b.
Proof. unfold score_step. repeat case_match; lia. Qed.

Lemma foldl_score_step_shift (fs : list Finding.t) (a b : Z) :
  foldl score_step (a + b) fs = foldl score_step a fs + b.
Proof.
  revert a. induction fs as [|f fs IH]; intros a; simpl; [done|].
  by rewrite score_step_shift, IH.
Qed.

Lemma count_severity_cons (s : string) (f : Finding.t) (fs : list Finding.t) :
  count_severity s (f :: fs) =
  (if String.eqb (Finding.severity f) s then 1 else 0) + count_severity s fs.
Proof.
  unfold count_severity, JS.alen. rewrite filter_cons.
  destruct (String.eqb_spec (Finding.severity f) s) as [E|E].
  - rewrite decide_True by done. simpl length. lia.
  - rewrite decide_False by done. lia.
Qed.

Lemma count_severity_nonneg (s : string) (fs : list Finding.t) :
  0 <= count_severity s fs.
Proof. unfold count_severity, JS.alen. lia. Qed.

Lemma count_severity_app (s : string) (fs gs : list Finding.t) :
  count_severity s (fs ++ gs) = count_severity s fs + count_severity s gs.
Proof.
  unfold count_severity, JS.alen. rewrite filter_app, length_app. lia.
Qed.

Lemma foldl_score_closed (fs : list Finding.t) (a : Z) :
  foldl score_step a fs =
  a - 20 * count_severity "critical" fs - 10 * count_severity "warning" fs
    - 3 * count_severity "info" fs.
Proof.
  revert a. induction fs as [|f fs IH]; intros a.
  - simpl. unfold count_severity, JS.alen. simpl. lia.
  - simpl foldl. rewrite IH, !count_severity_cons. unfold score_step.
    destruct (String.eqb_spec (Finding.severity f) "critical") as [E|E].
    { rewrite E. simpl. lia. }
    destruct (String.eqb_spec (Finding.severity f) "warning") as [E'|E'].
    { rewrite E'. simpl. lia. }
    destruct (String.eqb_spec (Finding.severity f) "info") as [E''|E'']; lia.
Qed.

Lemma calculateScore_closed (fs : list Finding.t) :
  calculateScore fs =
  Z.max 0 (Z.min 100
    (100 - 20 * count_severity "critical" fs - 10 * count_severity "warning" fs
       - 3 * count_severity "info" fs)).
Proof. unfold calculateScore. by rewrite foldl_score_closed. Qed.

End Score.

(** C2.  The score is 100 minus 20 for each critical finding, 10 for each
    warning and 3 for each info, clamped to the range from 0 to 100.  A
    further finding never raises it; it is 100 without findings, 80, 90 and
    97 for a single critical, warning and info finding, and 0 from five
    critical findings on. *)
Theorem calculateScore_spec :
  (forall findings : list Finding.t,
     calculateScore findings =
     Z.max 0 (Z.min 100
       (100 - 20 * count_severity "critical" findings
            - 10 * count_severity "warning" findings
            - 3 * count_severity "info" findings)))
  /\ (forall (before after : list Finding.t) (f : Finding.t),
        calculateScore (before ++ f :: after) <= calculateScore (before ++ after))
  /\ calculateScore [] = 100
  /\ (forall f, Finding.severity f = "critical"%string -> calculateScore [f] = 80)
  /\ (forall f, Finding.severity f = "warning"%string -> calculateScore [f] = 90)
  /\ (forall f, Finding.severity f = "info"%string -> calculateScore [f] = 97)
  /\ (forall findings, 5 <= count_severity "critical" findings ->
        calculateScore findings = 0).
Proof.
  split; [exact calculateScore_closed|].
  split.
  { intros before after f. rewrite !calculateScore_closed.
    rewrite !count_severity_app, !count_severity_cons.
    repeat case_match; lia. }
  split; [reflexivity|].
  split; [|split; [|split]].
  - intros f E. unfold calculateScore. simpl. unfold score_step. rewrite E. reflexivity.
  - intros f E. unfold calculateScore. simpl. unfold score_step. rewrite E. reflexivity.
  - intros f E. unfold calculateScore. simpl. unfold score_step. rewrite E. reflexivity.
  - intros fs H. rewrite calculateScore_closed.
    pose proof (count_severity_nonneg "warning" fs).
    pose proof (count_severity_nonneg "info" fs). lia.
Qed.

Section Markers.

Lemma has_closing_cons (x : ascii) (s : string) :
  Spec.has_closing s = true -> Spec.has_closing (String x s) = true.
Proof.
  destruct s as [|b s]; [done|]. intros H.
  change (Spec.has_closing (String x (String b s)))
    with ((Ascii.eqb x "}" && Ascii.eqb b "}") || Spec.has_closing (String b s))%bool.
  by rewrite H, orb_true_r.
Qed.

Lemma has_closing_app (a b : string) :
  Spec.has_closing (a +:+ "}}" +:+ b) = true.
Proof.
  induction a as [|x a IH]; [done|].
  rewrite app_cons. by apply has_closing_cons.
Qed.

Lemma marker_has_closing (content : string) (p : nat) :
  Spec.marker_at content p -> Spec.has_closing content = true.
Proof.
  intros (name & before & spelled & after & _ & _ & _ & [->| [args ->]]).
  - rewrite <- (app_assoc_s "{{" spelled), <- (app_assoc_s before).
    apply has_closing_app.
  - rewrite <- (app_assoc_s "::" args), <- (app_assoc_s spelled),
      <- (app_assoc_s "{{"), <- (app_assoc_s before).
    apply has_closing_app.
Qed.

Lemma eq_ci_refl (s : string) : Spec.eq_ci s s = true.
Proof.
  induction s as [|c s IH]; [done|]. simpl. rewrite IH, andb_true_r.
  unfold Regex.char_eq_ci. apply Ascii.eqb_refl.
Qed.

(** A complete marker starts with the text the pattern accepts. *)
Lemma marker_at_macro_at (content : string) (p : nat) :
  Spec.marker_at content p -> Spec.macro_at content p.
Proof.
  intros (name & before & spelled & after & Hn & Hs & Hp & [->| [args ->]]).
  - exists name, "}}"%string, before, ("{{" +:+ spelled +:+ "}}"), after.
    repeat split; try done.
    + unfold Regex.TERMINATORS. apply elem_of_cons; right. apply elem_of_cons; by left.
    + by rewrite !app_assoc_s.
    + apply eq_ci_app. exists "{{"%string, (spelled +:+ "}}"). repeat split; try done.
      apply eq_ci_app. by exists spelled, "}}"%string.
  - exists name, "::"%string, before, ("{{" +:+ spelled +:+ "::"), (args +:+ "}}" +:+ after).
    repeat split; try done.
    + unfold Regex.TERMINATORS. apply elem_of_cons; by left.
    + by rewrite !app_assoc_s.
    + apply eq_ci_app. exists "{{"%string, (spelled +:+ "::"). repeat split; try done.
      apply eq_ci_app. by exists spelled, "::"%string.
Qed.

Lemma isVolatile_static (identifier content : string) :
  fst (Regex.test O content) = false ->
  isVolatile identifier (Some content) = bool_decide (identifier ∈ VOLATILE_IDENTIFIERS).
Proof.
  intros H. rewrite isVolatile_unfold. simpl default. rewrite H.
  by rewrite andb_false_r, orb_false_r.
Qed.

End Markers.

(** C3, as amended.  [isVolatile] answers true exactly when the identifier is
    one of the two volatile identifiers or the content holds, at some index
    and in any case, two opening braces, one of the nine macro names and then
    either two colons or two closing braces (whatever follows the colons, a
    closing pair or not); so a content with a complete marker [{{name}}] or
    [{{name::args}}] is volatile.  The answer does not depend on the scan
    position the shared pattern object was left with, and the deterministic
    macros and the comment marker do not make a content volatile. *)
Theorem isVolatile_classification (identifier : string) (content : option string) :
  (isVolatile identifier content = true <->
     identifier = "chatHistory"%string \/ identifier = "dialogueExamples"%string
     \/ exists c p, content = Some c /\ Spec.macro_at c p)
  /\ (forall c p, content = Some c -> Spec.marker_at c p ->
        isVolatile identifier content = true)
  /\ (forall lastIndex : nat,
        fst (isVolatile_st lastIndex identifier content) = isVolatile identifier content)
  /\ Forall (fun c => isVolatile identifier (Some c)
                      = bool_decide (identifier ∈ VOLATILE_IDENTIFIERS))
       [ "{{char}}"; "{{user}}"; "{{getvar::x}}"; "{{setvar::x::1}}";
         "{{// a comment}}"; "Hello {{user}}, I am {{char}}." ]%string.
Proof.
  split; [apply isVolatile_iff|]. split; [|split].
  - intros c p Hc Hm. apply isVolatile_iff. right; right.
    exists c, p. split; [done|]. by apply marker_at_macro_at.
  - intros lastIndex. apply isVolatile_st_fst.
  - repeat (apply Forall_cons; split; [by apply isVolatile_static|]).
    apply Forall_nil_2.
Qed.

(** C3 as stated fails: a content that opens a macro with arguments and never
    closes it holds no marker of the form [{{name}}] or [{{name::args}}], yet
    it is classified as volatile. *)
Lemma isVolatile_complete_marker_counterexample :
  ~ (forall (identifier : string) (content : option string),
       isVolatile identifier content = true <->
       identifier = "chatHistory"%string \/ identifier = "dialogueExamples"%string
       \/ exists c p, content = Some c /\ Spec.marker_at c p).
Proof.
  intros H.
  destruct (H "main"%string (Some "{{random::1,2"%string)) as [Hfwd _].
  destruct (Hfwd eq_refl) as [?|[?|(c & p & Hc & Hm)]]; try done.
  simplify_eq. apply marker_has_closing in Hm. discriminate Hm.
Qed.

(** ** The scan loop of Macro Placement *)

Section ScanLoop.

Lemma occ_from_none (s : string) (pos : nat) :
  (forall j, Regex.match_here (Regex.drop_chars j s) = None) ->
  Spec.occ_from s pos = [].
Proof.
  revert pos. induction s as [|c s IH]; intros pos H; cbn [Spec.occ_from].
  - done.
  - assert (H0 : Regex.match_here (String c s) = None) by apply (H O).
    rewrite H0. simpl. apply IH. intros j. apply (H (S j)).
Qed.

Lemma occ_from_skip (k : nat) (s : string) (pos : nat) :
  (k <= String.length s)%nat ->
  (forall j, (j < k)%nat -> Regex.match_here (Regex.drop_chars j s) = None) ->
  Spec.occ_from s pos = Spec.occ_from (Regex.drop_chars k s) (pos + k).
Proof.
  revert s pos. induction k as [|k IH]; intros s pos Hk H.
  - simpl. by rewrite Nat.add_0_r.
  - destruct s as [|c s]; simpl in Hk; [lia|].
    assert (H0 : Regex.match_here (String c s) = None) by (apply (H O); lia).
    cbn [Spec.occ_from]. rewrite H0. simpl.
    rewrite (IH s (S pos)); [f_equal; lia|lia|].
    intros j Hj. apply (H (S j)). lia.
Qed.

Lemma occ_from_match (s cap : string) (len pos : nat) :
  Regex.match_here s = Some (cap, len) ->
  Spec.occ_from s pos
  = (pos, cap) :: Spec.occ_from (Regex.drop_chars len s) (pos + len).
Proof.
  intros H. pose proof (match_here_length _ _ _ H) as Hlen.
  destruct s as [|c s]; simpl in Hlen; [lia|].
  cbn [Spec.occ_from]. rewrite H. simpl. f_equal.
  destruct len as [|len]; [lia|].
  rewrite (occ_from_skip len s (S pos)); [simpl; f_equal; lia|lia|].
  intros j Hj. apply (match_here_no_overlap _ _ _ (S j) H). lia.
Qed.

Lemma occ_from_positions (s : string) (pos p : nat) :
  p ∈ (Spec.occ_from s pos).*1 <->
  exists j, p = (pos + j)%nat /\ (j <= String.length s)%nat
            /\ is_Some (Regex.match_here (Regex.drop_chars j s)).
Proof.
  revert pos. induction s as [|c s IH]; intros pos; cbn [Spec.occ_from].
  - simpl. rewrite elem_of_nil. split; [done|].
    intros (j & _ & Hj & Hm). simpl in Hj. assert (j = O) as -> by lia.
    by destruct Hm.
  - rewrite fmap_app, elem_of_app, IH. split.
    + intros [H|(j & -> & Hj & Hm)].
      * exists O. destruct (Regex.match_here (String c s)) as [[cp ln]|] eqn:E;
          simpl in H; [|by apply elem_of_nil in H].
        apply list_elem_of_singleton in H as ->. cbn [Regex.drop_chars]. rewrite E.
        repeat split; [lia|simpl; lia|done].
      * exists (S j). repeat split; [lia|simpl; lia|done].
    + intros ([|j] & -> & Hj & Hm).
      * left. cbn [Regex.drop_chars] in Hm. destruct Hm as [[cp ln] ->]. simpl.
        rewrite Nat.add_0_r. by apply list_elem_of_singleton.
      * right. exists j. repeat split; [lia|simpl in Hj; lia|done].
Qed.

Lemma occ_from_sorted (s : string) (pos : nat) :
  StronglySorted lt (Spec.occ_from s pos).*1.
Proof.
  revert pos. induction s as [|c s IH]; intros pos; cbn [Spec.occ_from].
  - simpl. constructor.
  - assert (Htail : Forall (lt pos) (Spec.occ_from s (S pos)).*1).
    { apply Forall_forall. intros p Hp. apply occ_from_positions in Hp as (j & -> & _). lia. }
    destruct (Regex.match_here (String c s)) as [[cp ln]|]; simpl; [|apply IH].
    constructor; [apply IH|done].
Qed.

Variable push : nat -> string -> Finding.t.
Variable content : string.

(** The loop ends before its bound is reached, and pushes one finding for
    each index where the pattern matches. *)
Lemma exec_loop_occ (fuel lastIndex macroIndex : nat) :
  (lastIndex <= String.length content)%nat ->
  (String.length content - lastIndex < fuel)%nat ->
  MacroPlacement.exec_loop fuel lastIndex macroIndex content push
  = Some (imap (fun k x => push (macroIndex + k)%nat x.2)
            (Spec.occ_from (Regex.drop_chars lastIndex content) lastIndex)).
Proof.
  revert lastIndex macroIndex.
  induction fuel as [|fuel IH]; intros li mi Hli Hfuel; [lia|].
  cbn [MacroPlacement.exec_loop]. unfold Regex.exec.
  destruct (Nat.ltb_spec (String.length content) li) as [?|_]; [lia|].
  destruct (Regex.search (Regex.drop_chars li content) li) as [[[cap st] e]|] eqn:E.
  - apply search_Some in E as (k & len & Hk & -> & -> & Hnone & Hm).
    rewrite drop_chars_length in Hk.
    pose proof (match_here_length _ _ _ Hm) as Hlen.
    rewrite drop_chars_drop, drop_chars_length in Hlen.
    rewrite (occ_from_skip k _ li); [|by rewrite drop_chars_length|done].
    rewrite (occ_from_match _ _ _ _ Hm), !drop_chars_drop.
    replace (li + (k + len))%nat with (li + k + len)%nat by lia.
    rewrite IH by lia. rewrite imap_cons. rewrite Nat.add_0_r.
    do 2 f_equal. apply imap_ext. intros i x _. simpl. f_equal. lia.
  - by rewrite (occ_from_none _ _ (search_None _ _ E)).
Qed.

Lemma exec_loop_enough :
  MacroPlacement.exec_loop (S (String.length content)) O O content push
  = Some (imap (fun k x => push k x.2) (Spec.occ_from content O)).
Proof. rewrite exec_loop_occ by lia. done. Qed.

End ScanLoop.

Section Placement.

Lemma div_geb_pos (x t a : Z) (b : positive) :
  0 < t -> Qle_bool (a # b) (JS.div x t) = (a * t <=? x * Z.pos b).
Proof.
  intros Ht. destruct t as [|p|p]; try lia.
  unfold JS.div, Qle_bool, Qdiv, Qmult, Qinv. simpl.
  rewrite Z.mul_1_r. reflexivity.
Qed.

Lemma severity_at_spec (i total : nat) :
  (0 < total)%nat ->
  MacroPlacement.severity_at i total = Spec.placement_severity i total.
Proof.
  intros Ht. unfold MacroPlacement.severity_at, Spec.placement_severity, JS.ltb.
  rewrite div_geb_pos by lia.
  destruct i as [|i]; [done|]. simpl Nat.eqb. rewrite bool_decide_eq_false_2 by done.
  case_bool_decide; destruct (Z.leb_spec (4 * Z.of_nat total) (Z.of_nat (S i) * 10));
    simpl; try done; lia.
Qed.

Lemma scan_entry_occ (promptMap : gmap string Prompt.t) (total i : nat)
    (entry : OrderRecord.t) (prompt : Prompt.t) (content : string) :
  promptMap !! OrderRecord.identifier entry = Some prompt ->
  Prompt.content prompt = Some content ->
  MacroPlacement.scan_entry promptMap total i entry
  = imap (fun k x => MacroPlacement.finding entry prompt i total k x.2)
      (Spec.occ_from content O).
Proof.
  intros Hp Hc. unfold MacroPlacement.scan_entry. rewrite Hp, Hc.
  destruct content as [|a content]; [done|].
  cbn [JS.truthy negb default]. by rewrite exec_loop_enough.
Qed.

End Placement.

(** C4.  With a non-empty effective sequence, the findings of Macro Placement
    are the findings of its entries in order, and the entry at index [i]
    yields exactly one finding for each index of its content where a dynamic
    macro occurs; each has severity critical when [i = 0], warning when
    [i > 0] and [i / totalEntries < 0.4], and info otherwise.  From a
    fractional position of 0.4 on the severity is info. *)
Theorem checkMacroPlacement_severity
    (preset : Preset.t) (options : Options.t)
    (prompts : list Prompt.t) (prompt_order : list OrderElem.t) :
  present (Some preset) = Some (prompts, prompt_order) ->
  let entries := enabledEntries prompt_order in
  let totalEntries := List.length entries in
  (0 < totalEntries)%nat ->
  MacroPlacement.checkMacroPlacement (Some preset) options
  = concat (imap (MacroPlacement.scan_entry (promptMap prompts) totalEntries) entries)
  /\ (forall (i : nat) (entry : OrderRecord.t) (prompt : Prompt.t) (content : string),
        entries !! i = Some entry ->
        promptMap prompts !! OrderRecord.identifier entry = Some prompt ->
        Prompt.content prompt = Some content ->
        exists positions : list nat,
          (forall p, p ∈ positions <-> Spec.macro_at content p)
          /\ StronglySorted lt positions
          /\ Forall2
               (fun (p : nat) (f : Finding.t) =>
                  Finding.rule f = "macro-placement"%string
                  /\ Finding.affectedEntry f = OrderRecord.identifier entry
                  /\ Finding.severity f = Spec.placement_severity i totalEntries)
               positions
               (MacroPlacement.scan_entry (promptMap prompts) totalEntries i entry))
  /\ (forall i : nat,
        2 * Z.of_nat totalEntries <= 5 * Z.of_nat i ->
        Spec.placement_severity i totalEntries = "info"%string).
Proof.
  intros Hpresent entries totalEntries Htotal. split; [|split].
  - unfold MacroPlacement.checkMacroPlacement. rewrite Hpresent.
    fold entries. fold totalEntries.
    destruct (Nat.eqb_spec totalEntries 0); [lia|done].
  - intros i entry prompt content Hi Hp Hc.
    exists (Spec.occ_from content O).*1. split; [|split].
    + intros p. rewrite occ_from_positions, macro_at_match_here. split.
      * intros (j & -> & ? & ?). by rewrite Nat.add_0_l.
      * intros [? ?]. by exists p.
    + apply occ_from_sorted.
    + rewrite (scan_entry_occ _ _ _ _ _ _ Hp Hc).
      apply Forall2_fmap_l, Forall2_same_length_lookup_2; [by rewrite length_imap|].
      intros k x f Hx Hf. rewrite list_lookup_imap, Hx in Hf. simpl in Hf.
      simplify_eq. repeat split. simpl. by apply severity_at_spec.
  - intros i Hi. unfold Spec.placement_severity.
    rewrite bool_decide_eq_false_2 by lia. by rewrite bool_decide_eq_false_2 by lia.
Qed.

(** ** Prompt Ordering *)

Section Ordering.

Import PromptOrdering.

Lemma filter_none {A} (P : A -> Prop) `{!forall x, Decision (P x)} (l : list A) :
  Forall (fun x => ~ P x) l -> filter P l = [].
Proof.
  induction 1 as [|x l Hx _ IH]; [done|]. by rewrite filter_cons_False.
Qed.

Lemma ordering_position_finding (i : nat) (c : classified) (sa : list classified) :
  SpecFindings.ordering_position (finding i c sa) = Some i.
Proof. unfold SpecFindings.ordering_position. simpl. by rewrite Nat2Z.id. Qed.

Lemma ordering_loop_lower (rest : list classified) (start : nat) :
  Forall (fun f => exists p, SpecFindings.ordering_position f = Some p /\ (start <= p)%nat)
    (ordering_loop start rest).
Proof.
  revert start. induction rest as [|c after IH]; intros start; simpl; [constructor|].
  assert (Htail : Forall (fun f => exists p, SpecFindings.ordering_position f = Some p
                                            /\ (start <= p)%nat)
                    (ordering_loop (S start) after)).
  { eapply Forall_impl; [apply IH|]. intros f (p & ? & ?). exists p. split; [done|lia]. }
  destruct (volatile c); simpl; [|done].
  destruct (_ <? 2)%nat; [done|].
  constructor; [|done]. exists start. by rewrite ordering_position_finding.
Qed.

Lemma ordering_loop_below (rest : list classified) (start p : nat) :
  (p < start)%nat ->
  filter (fun f => SpecFindings.ordering_position f = Some p) (ordering_loop start rest) = [].
Proof.
  intros Hp. apply filter_none.
  eapply Forall_impl; [apply ordering_loop_lower|].
  intros f (q & Hq & ?) Hf. rewrite Hq in Hf. simplify_eq. lia.
Qed.

(** What the loop pushes for the element at index [k] of [rest]. *)
Lemma ordering_loop_lookup (rest : list classified) (start k : nat) (c : classified) :
  rest !! k = Some c ->
  filter (fun f => SpecFindings.ordering_position f = Some (start + k)%nat)
    (ordering_loop start rest)
  = if volatile c then
      let stableAfter := List.filter (fun s => negb (volatile s)) (drop (S k) rest) in
      if (List.length stableAfter <? 2)%nat then []
      else [finding (start + k) c stableAfter]
    else [].
Proof.
  revert start k. induction rest as [|c0 after IH]; intros start k Hk; [done|].
  destruct k as [|k].
  - simpl in Hk. simplify_eq. rewrite Nat.add_0_r. cbn [ordering_loop drop].
    destruct (volatile c); simpl; [|by apply ordering_loop_below; lia].
    destruct (_ <? 2)%nat; [by apply ordering_loop_below; lia|].
    rewrite filter_cons, decide_True by apply ordering_position_finding.
    f_equal. apply ordering_loop_below. lia.
  - simpl in Hk. cbn [ordering_loop]. cbn [drop].
    replace (start + S k)%nat with (S start + k)%nat by lia.
    destruct (negb (volatile c0)); [by apply IH|].
    destruct (_ <? 2)%nat; [by apply IH|].
    rewrite filter_cons, decide_False; [by apply IH|].
    rewrite ordering_position_finding. intros ?; simplify_eq. lia.
Qed.

Lemma mentions_here (part after : string) :
  SpecFindings.mentions (part +:+ after) part.
Proof. by exists EmptyString, after. Qed.

Lemma mentions_skip (a text part : string) :
  SpecFindings.mentions text part -> SpecFindings.mentions (a +:+ text) part.
Proof.
  intros (before & after & ->). exists (a +:+ before), after. by rewrite app_assoc_s.
Qed.

(** What the plain object answers beyond the prompts it was given has no
    content: reading [content] through the lookup in the map is the same. *)
Lemma promptMap_get_content (m : gmap string Prompt.t) (identifier : string) :
  let prompt := promptMap_get m identifier in
  let content :=
    if Looked.truthy prompt then Looked.content prompt else Some EmptyString in
  JS.truthy content = JS.truthy (content_of (m !! identifier))
  /\ default EmptyString content = default EmptyString (content_of (m !! identifier)).
Proof.
  unfold promptMap_get. destruct (m !! identifier) as [p|]; [done|].
  destruct (_ ≫= _) as [v|]; [by destruct (JS.truthy_primitive v) eqn:E; cbn; rewrite E|].
  by destruct (JS.inherits identifier).
Qed.

Lemma classify_volatile (m : gmap string Prompt.t) (i : nat) (e : OrderRecord.t) :
  volatile (classify m i e)
  = isVolatile (OrderRecord.identifier e) (content_of (m !! OrderRecord.identifier e)).
Proof.
  unfold classify. cbn [volatile]. rewrite !isVolatile_unfold.
  destruct (promptMap_get_content m (OrderRecord.identifier e)) as [-> ->]. done.
Qed.

Lemma classified_elem (m : gmap string Prompt.t) (entries : list OrderRecord.t)
    (s : classified) :
  s ∈ imap (classify m) entries -> exists j e, s = classify m j e.
Proof.
  intros (j & Hj)%list_elem_of_lookup_1. rewrite list_lookup_imap in Hj.
  destruct (entries !! j) as [e|]; [|done]. simpl in Hj. simplify_eq. by exists j, e.
Qed.

(** An entry that is plainly named is displayed under its name. *)
Lemma display_name_plain (m : gmap string Prompt.t) (i : nat) (e : OrderRecord.t) :
  SpecFindings.plainly_named m e ->
  display_name (classify m i e) = Some (SpecFindings.entry_name m e).
Proof.
  unfold SpecFindings.plainly_named, SpecFindings.entry_name, display_name, classify.
  cbn [prompt entry]. unfold promptMap_get.
  destruct (m !! OrderRecord.identifier e) as [p|] eqn:E; [done|].
  intros [[? ?]|(Hc & Hp & Hproto)]; [done|]. rewrite Hproto. cbn [mbind option_bind].
  destruct (JS.inherits _); [|done].
  cbn [Looked.truthy Looked.name]. unfold JS.member_name.
  apply String.eqb_neq in Hc, Hp. by rewrite Hc, Hp.
Qed.

(** A volatile entry has a prompt or one of the two volatile identifiers,
    under which the plain object holds nothing. *)
Lemma volatile_plainly_named (m : gmap string Prompt.t) (i : nat) (e : OrderRecord.t) :
  volatile (classify m i e) = true ->
  display_name (classify m i e) = Some (SpecFindings.entry_name m e).
Proof.
  rewrite classify_volatile.
  unfold SpecFindings.entry_name, display_name, classify.
  cbn [prompt entry]. unfold promptMap_get.
  destruct (m !! OrderRecord.identifier e) as [p|] eqn:E; [done|].
  intros [H|[H|(c & p & Hc & Hp)]]%isVolatile_iff.
  - rewrite H. by destruct (m !! "__proto__"%string).
  - rewrite H. by destruct (m !! "__proto__"%string).
  - cbn [content_of] in Hc. simplify_eq. by apply macro_at_nonempty in Hp.
Qed.

Lemma joined_names (m : gmap string Prompt.t) (l : list classified) :
  Forall (fun s => display_name s = Some (SpecFindings.entry_name m (entry s))) l ->
  map JS.joined (map display_name l)
  = map (fun s => SpecFindings.entry_name m (entry s)) l.
Proof.
  induction 1 as [|s l Hs _ IH]; [done|]. cbn [map]. by rewrite Hs, IH.
Qed.

Lemma starts_with_app (part after : string) :
  SpecFindings.starts_with part (part +:+ after) = true.
Proof.
  induction part as [|a part IH]; [done|]. rewrite app_cons.
  cbn [SpecFindings.starts_with]. by rewrite Ascii.eqb_refl, IH.
Qed.

Lemma mentionsb_complete (text part : string) :
  SpecFindings.mentions text part -> SpecFindings.mentionsb text part = true.
Proof.
  intros (before & after & ->). induction before as [|b before IH].
  - rewrite app_nil_l.
    assert (H := starts_with_app part after).
    by destruct (part +:+ after); cbn [SpecFindings.mentionsb]; rewrite H.
  - rewrite app_cons. cbn [SpecFindings.mentionsb]. rewrite IH. apply orb_true_r.
Qed.

End Ordering.

(** C5.  The order main, chatHistory, constructor, scenario, in which no
    prompt is identified [constructor]: chatHistory is volatile and has the
    two stable entries constructor and scenario after it, and Prompt
    Ordering gives the one warning about it, with their count and their
    identifiers in meta.  Its description, however, does not name the first
    of them: the lookup in the plain object finds the inherited member under
    [constructor], a function called Object, and the description lists
    Object and Scenario. *)
Theorem checkPromptOrdering_inherited_name :
  exists f,
    PromptOrdering.checkPromptOrdering (Some Samples.inherited) Samples.no_options = [f]
    /\ Finding.severity f = "warning"%string
    /\ Finding.affectedEntry f = "chatHistory"%string
    /\ Finding.meta f = Meta.PromptOrdering 1 2 ["constructor"; "scenario"]%string
    /\ SpecFindings.entry_name (promptMap Samples.inherited_prompts)
         (Samples.on "constructor") = "constructor"%string
    /\ ~ SpecFindings.mentions (Finding.description f) "constructor"
    /\ Finding.description f
       = JS.dquote +:+ "Chat History" +:+ JS.dquote
           +:+ " (position 2) is volatile and appears before 2 stable entries (Object, Scenario). This breaks the cacheable prefix — all stable content after this point cannot be cached together with earlier stable content.".
Proof.
  eexists. split; [reflexivity|]. repeat split; try (vm_compute; reflexivity).
  intros H%mentionsb_complete. vm_compute in H. discriminate.
Qed.
(** ** Token Thresholds *)

Section Thresholds.

Lemma threshold_of_known :
  TokenThresholds.threshold_of "anthropic" = TokenThresholds.Tokens 1024
  /\ TokenThresholds.threshold_of "openai" = TokenThresholds.Tokens 1024
  /\ TokenThresholds.threshold_of "google" = TokenThresholds.Tokens 4096.
Proof. repeat split; vm_compute; reflexivity. Qed.

Lemma thresholds_other (provider : string) :
  provider <> "anthropic"%string -> provider <> "openai"%string ->
  provider <> "google"%string ->
  TokenThresholds.THRESHOLDS !! provider = None.
Proof.
  intros Ha Ho Hg. unfold TokenThresholds.THRESHOLDS.
  rewrite (lookup_insert_ne _ "anthropic"%string provider) by done.
  rewrite (lookup_insert_ne _ "openai"%string provider) by done.
  rewrite (lookup_insert_ne _ "google"%string provider) by done.
  apply lookup_empty.
Qed.

Lemma threshold_of_other (provider : string) :
  provider <> "anthropic"%string -> provider <> "openai"%string ->
  provider <> "google"%string -> JS.inherits provider = false ->
  TokenThresholds.threshold_of provider = TokenThresholds.Tokens 1024.
Proof.
  intros Ha Ho Hg Hi. unfold TokenThresholds.threshold_of.
  rewrite thresholds_other, Hi by done. reflexivity.
Qed.

Lemma inherits_not_known (provider : string) :
  JS.inherits provider = true ->
  provider <> "anthropic"%string /\ provider <> "openai"%string
  /\ provider <> "google"%string.
Proof. intros H. by repeat split; intros ->. Qed.

Lemma threshold_of_inherited (provider : string) :
  JS.inherits provider = true ->
  TokenThresholds.threshold_of provider = TokenThresholds.Inherited provider.
Proof.
  intros Hi. destruct (inherits_not_known _ Hi) as (Ha & Ho & Hg).
  unfold TokenThresholds.threshold_of. rewrite thresholds_other, Hi by done. reflexivity.
Qed.

(** The threshold of a provider: a number, 1024 or 4096, unless the provider
    names an inherited member. *)
Lemma threshold_of_cases (provider : string) :
  (JS.inherits provider = false
   /\ (TokenThresholds.threshold_of provider = TokenThresholds.Tokens 1024
       \/ TokenThresholds.threshold_of provider = TokenThresholds.Tokens 4096))
  \/ (JS.inherits provider = true
      /\ TokenThresholds.threshold_of provider = TokenThresholds.Inherited provider).
Proof.
  destruct (JS.inherits provider) eqn:Hi; [right; split; [done|by apply threshold_of_inherited]|].
  left. split; [done|].
  destruct (decide (provider = "anthropic"%string)) as [->|Ha]; [by left|].
  destruct (decide (provider = "openai"%string)) as [->|Ho]; [by left|].
  destruct (decide (provider = "google"%string)) as [->|Hg]; [by right|].
  left. by apply threshold_of_other.
Qed.

Lemma severity_of_ratio (estimate threshold : Z) :
  TokenThresholds.severity_of (JS.div estimate threshold)
  = if Qle_bool (9 # 10) (inject_Z estimate / inject_Z threshold)
    then "warning"%string else "info"%string.
Proof.
  unfold TokenThresholds.severity_of, JS.geb, JS.div.
  destruct (Qle_bool (9 # 10) _); [done|]. by destruct (Qle_bool (8 # 10) _).
Qed.

Lemma defaultTokenizer_ceil (text : string) :
  let n := TokenThresholds.defaultTokenizer text in
  Z.of_nat (String.length text) <= 4 * n < Z.of_nat (String.length text) + 4.
Proof.
  unfold TokenThresholds.defaultTokenizer, JS.ceil_div4, JS.slen. simpl.
  pose proof (Z.div_mod (Z.of_nat (String.length text) + 3) 4).
  pose proof (Z.mod_pos_bound (Z.of_nat (String.length text) + 3) 4). lia.
Qed.

End Thresholds.

(** C6.  Provider [constructor], with a tokenizer that estimates 2000 tokens:
    [THRESHOLDS] is a plain object, so the lookup finds the inherited
    member, which is truthy, and the fallback to the anthropic threshold is
    not taken.  The comparison with the estimate is false, and Token
    Thresholds reports a finding of severity info although the estimate is
    above every threshold; under a provider name that plain objects do not
    inherit the same estimate gives no finding.  Under every name that
    plain objects inherit there is such a finding, whatever the tokenizer
    estimates. *)
Theorem checkTokenThresholds_inherited_provider :
  TokenThresholds.estimatedTokens Samples.interleaved_prompts Samples.interleaved_order
    (fun _ => 2000) = 2000
  /\ TokenThresholds.threshold_of "constructor" = TokenThresholds.Inherited "constructor"
  /\ (exists f,
        TokenThresholds.checkTokenThresholds (Some Samples.interleaved)
          (Samples.counting_2000 "constructor") = [f]
        /\ Finding.rule f = "token-thresholds"%string
        /\ Finding.severity f = "info"%string
        /\ Finding.meta f = Meta.TokenThresholdsInherited 2000 "constructor")
  /\ TokenThresholds.threshold_of "unknown" = TokenThresholds.Tokens 1024
  /\ TokenThresholds.checkTokenThresholds (Some Samples.interleaved)
       (Samples.counting_2000 "unknown") = []
  /\ (forall (member : string) (options : Options.t),
        member ∈ JS.OBJECT_PROTOTYPE ->
        Options.provider options = Some member ->
        exists f,
          TokenThresholds.checkTokenThresholds (Some Samples.interleaved) options = [f]
          /\ Finding.severity f = "info"%string).
Proof.
  split; [reflexivity|]. split; [vm_compute; reflexivity|].
  split; [eexists; split; [vm_compute; reflexivity|by repeat split]|].
  split; [vm_compute; reflexivity|]. split; [vm_compute; reflexivity|].
  intros member options Hm Hp.
  assert (Hi : JS.inherits member = true) by by apply bool_decide_eq_true.
  assert (Hne : JS.or_else (Some member) "anthropic" = member).
  { destruct member; [done|reflexivity]. }
  unfold TokenThresholds.checkTokenThresholds.
  cbn [present Samples.interleaved Preset.prompts Preset.prompt_order].
  rewrite Hp, Hne, (threshold_of_inherited _ Hi).
  eexists. split; reflexivity.
Qed.

(** ** Injection Depth *)

Section Depth.


Lemma hasDynamicMacros_st_fst (lastIndex : nat) (content : option string) :
  fst (hasDynamicMacros_st lastIndex content) = hasDynamicMacros content.
Proof. unfold hasDynamicMacros, hasDynamicMacros_st. by destruct (negb _). Qed.



End Depth.


(** ** Provider-Specific *)

Section Provider.


End Provider.


(** ** The two constructions of the stable prefix *)

Section StablePrefix.

Lemma stableContent_thresholds (m : gmap string Prompt.t) (entries : list OrderRecord.t) :
  TokenThresholds.stableContent m entries
  = omap (fun entry : OrderRecord.t =>
            match content_of (m !! OrderRecord.identifier entry) with
            | Some (String a c) =>
                if isVolatile (OrderRecord.identifier entry) (Some (String a c))
                then None else Some (String a c)
            | _ => None
            end) entries.
Proof.
  induction entries as [|entry entries IH]; [done|].
  cbn [TokenThresholds.stableContent omap list_omap]. rewrite IH.
  destruct (content_of (m !! OrderRecord.identifier entry)) as [[|a c]|] eqn:E.
  - by destruct (isVolatile _ _).
  - simpl JS.truthy. simpl default. by destruct (isVolatile _ _).
  - by destruct (isVolatile _ _).
Qed.

Lemma stableContent_provider (m : gmap string Prompt.t) (entries : list OrderRecord.t) :
  ProviderSpecific.stableContent m entries
  = omap (fun entry : OrderRecord.t =>
            match content_of (m !! OrderRecord.identifier entry) with
            | Some (String a c) =>
                if isVolatile (OrderRecord.identifier entry) (Some (String a c))
                then None else Some (String a c)
            | _ => None
            end) entries.
Proof.
  induction entries as [|entry entries IH]; [done|].
  cbn [ProviderSpecific.stableContent omap list_omap]. rewrite IH.
  destruct (content_of (m !! OrderRecord.identifier entry)) as [[|a c]|] eqn:E.
  - by rewrite andb_false_r.
  - simpl JS.truthy. simpl default. by destruct (isVolatile _ _).
  - by rewrite andb_false_r.
Qed.

End StablePrefix.

(** C9.  On the same prompts, prompt order and tokenizer, the estimate of
    [getStablePrefixTokens] is the estimate Token Thresholds computes: each
    is the tokenizer applied to the contents of the enabled, non-volatile
    entries with non-empty content, in order, joined by a line feed; and the
    openai and google checks read their estimate from it. *)
Theorem stable_prefix_estimates_agree
    (prompts : list Prompt.t) (prompt_order : list OrderElem.t) (tokenizer : string -> Z) :
  ProviderSpecific.getStablePrefixTokens prompts prompt_order tokenizer
  = TokenThresholds.estimatedTokens prompts prompt_order tokenizer
  /\ TokenThresholds.estimatedTokens prompts prompt_order tokenizer
     = tokenizer (JS.join JS.newline (SpecProvider.stable_contents prompts prompt_order))
  /\ (forall (preset : Preset.t) (options : Options.t),
        let estimate :=
          TokenThresholds.estimatedTokens prompts prompt_order
            (default TokenThresholds.defaultTokenizer (Options.tokenizer options)) in
        present (Some preset) = Some (prompts, prompt_order) ->
        (Options.provider options = Some "openai"%string ->
         ProviderSpecific.checkProviderSpecific (Some preset) options
         = if JS.rem estimate 128 =? 0 then []
           else [ProviderSpecific.alignment estimate (JS.rem estimate 128)
                   (128 - JS.rem estimate 128)])
        /\ (Options.provider options = Some "google"%string ->
            ProviderSpecific.checkProviderSpecific (Some preset) options
            = if estimate <? 4096 then [ProviderSpecific.below_google estimate 4096]
              else [])).
Proof.
  assert (Heq : forall tk,
            ProviderSpecific.getStablePrefixTokens prompts prompt_order tk
            = TokenThresholds.estimatedTokens prompts prompt_order tk).
  { intros tk.
    unfold ProviderSpecific.getStablePrefixTokens, TokenThresholds.estimatedTokens.
    by rewrite stableContent_provider, stableContent_thresholds. }
  split; [done|]. split.
  - unfold TokenThresholds.estimatedTokens, SpecProvider.stable_contents.
    by rewrite stableContent_thresholds.
  - intros preset options estimate Hpresent.
    unfold ProviderSpecific.checkProviderSpecific. rewrite Hpresent.
    split; intros ->; simpl.
    + unfold ProviderSpecific.checkOpenAI. rewrite Heq.
      change ProviderSpecific.defaultTokenizer with TokenThresholds.defaultTokenizer.
      fold estimate. by destruct (JS.rem estimate 128 =? 0).
    + unfold ProviderSpecific.checkGoogle. rewrite Heq.
      change ProviderSpecific.defaultTokenizer with TokenThresholds.defaultTokenizer.
      fold estimate. by destruct (estimate <? 4096).
Qed.

(** ** The alignment check *)

Section Alignment.

Lemma defaultTokenizer_nonneg (text : string) :
  0 <= ProviderSpecific.defaultTokenizer text.
Proof.
  unfold ProviderSpecific.defaultTokenizer, JS.ceil_div4, JS.slen.
  apply Z.div_pos; lia.
Qed.

End Alignment.

(** C10.  With provider "openai" and the default tokenizer, Provider-Specific
    reports the 128-token alignment exactly when the estimate of the stable
    prefix is not a multiple of 128; a preset whose stable prefix is empty
    has an estimate of 0 and gets no alignment finding. *)
Theorem checkOpenAI_alignment
    (preset : Preset.t) (options : Options.t)
    (prompts : list Prompt.t) (prompt_order : list OrderElem.t) :
  present (Some preset) = Some (prompts, prompt_order) ->
  Options.provider options = Some "openai"%string ->
  Options.tokenizer options = None ->
  let estimate :=
    ProviderSpecific.getStablePrefixTokens prompts prompt_order
      ProviderSpecific.defaultTokenizer in
  let result := ProviderSpecific.checkProviderSpecific (Some preset) options in
  (estimate mod 128 = 0 -> result = [])
  /\ (estimate mod 128 <> 0 ->
      exists f,
        result = [f]
        /\ Finding.id f = "provider-specific-openai-alignment"%string
        /\ Finding.severity f = "info"%string
        /\ Finding.meta f
           = Meta.OpenAI estimate (estimate mod 128) (128 - estimate mod 128))
  /\ (SpecProvider.stable_contents prompts prompt_order = [] ->
      estimate = 0 /\ result = []).
Proof.
  intros Hpresent Hprovider Htok estimate result.
  assert (Hrem : JS.rem estimate 128 = estimate mod 128).
  { unfold JS.rem. apply Z.rem_mod_nonneg; [|lia].
    apply defaultTokenizer_nonneg. }
  assert (Hres : result
                 = if estimate mod 128 =? 0 then []
                   else [ProviderSpecific.alignment estimate (estimate mod 128)
                           (128 - estimate mod 128)]).
  { unfold result, ProviderSpecific.checkProviderSpecific.
    rewrite Hpresent, Hprovider. simpl.
    unfold ProviderSpecific.checkOpenAI. rewrite Htok. simpl default.
    fold estimate. rewrite Hrem. by destruct (estimate mod 128 =? 0). }
  split; [|split].
  - intros H. by rewrite Hres, H.
  - intros H.
    exists (ProviderSpecific.alignment estimate (estimate mod 128) (128 - estimate mod 128)).
    split; [|by repeat split].
    rewrite Hres. by destruct (Z.eqb_spec (estimate mod 128) 0).
  - intros Hempty.
    assert (H0 : estimate = 0).
    { unfold estimate, ProviderSpecific.getStablePrefixTokens.
      rewrite stableContent_provider.
      unfold SpecProvider.stable_contents in Hempty. by rewrite Hempty. }
    split; [done|]. by rewrite Hres, H0.
Qed.

(** ** The aggregate on a preset with nothing to analyse *)

(** C1, as amended.  When the preset is null or its [prompts] or its
    [prompt_order] is absent, [analyze] returns no findings, a score of 100
    and a summary of three zeros; the embedding is a total function, so there
    is no input on which it fails to return. *)
Theorem analyze_absent (preset : option Preset.t) (options : Options.t) :
  SpecAnalyze.absent preset ->
  analyze preset options = SpecAnalyze.empty_result
  /\ MacroPlacement.checkMacroPlacement preset options = []
  /\ PromptOrdering.checkPromptOrdering preset options = []
  /\ TokenThresholds.checkTokenThresholds preset options = []
  /\ InjectionDepth.checkInjectionDepth preset options = []
  /\ ProviderSpecific.checkProviderSpecific preset options = [].
Proof.
  intros Habsent.
  assert (Hp : present preset = None).
  { destruct preset as [p|]; [|done]. simpl in *.
    destruct Habsent as [-> | ->]; [done|]. by destruct (Preset.prompts p). }
  assert (H1 : MacroPlacement.checkMacroPlacement preset options = []).
  { unfold MacroPlacement.checkMacroPlacement. by rewrite Hp. }
  assert (H2 : PromptOrdering.checkPromptOrdering preset options = []).
  { unfold PromptOrdering.checkPromptOrdering. by rewrite Hp. }
  assert (H3 : TokenThresholds.checkTokenThresholds preset options = []).
  { unfold TokenThresholds.checkTokenThresholds. by rewrite Hp. }
  assert (H4 : InjectionDepth.checkInjectionDepth preset options = []).
  { unfold InjectionDepth.checkInjectionDepth. by rewrite Hp. }
  assert (H5 : ProviderSpecific.checkProviderSpecific preset options = []).
  { unfold ProviderSpecific.checkProviderSpecific.
    destruct preset as [p|]; [|done]. by rewrite Hp. }
  repeat split; try done.
  unfold analyze. rewrite H1, H2, H3, H4, H5. reflexivity.
Qed.

(** C1 as stated fails: a preset whose [prompts] and [prompt_order] are empty
    arrays passes the guards, and Token Thresholds reports the empty stable
    prefix. *)
Lemma analyze_empty_arrays_counterexample :
  ~ (forall (preset : option Preset.t) (options : Options.t),
       SpecAnalyze.empty_or_absent preset ->
       analyze preset options = SpecAnalyze.empty_result).
Proof.
  intros H.
  specialize (H (Some Samples.empty_arrays) Samples.no_options).
  assert (Hscore : AnalysisResult.score (analyze (Some Samples.empty_arrays) Samples.no_options)
                   = 97) by (vm_compute; reflexivity).
  rewrite H in Hscore; [discriminate Hscore|].
  simpl. right; by left.
Qed.

(** ** The properties at sample inputs *)

Lemma analyze_absent_witness :
  analyze None Samples.no_options = SpecAnalyze.empty_result
  /\ analyze (Some {| Preset.prompts := None;
                      Preset.prompt_order := Some Samples.macros_order;
                      Preset.squash_system_messages := None |})
       (Samples.for_provider "openai")
     = SpecAnalyze.empty_result.
Proof.
  split.
  - apply (analyze_absent None Samples.no_options). exact I.
  - apply analyze_absent. simpl. by left.
Defined.

Lemma calculateScore_spec_witness :
  calculateScore (replicate 5 (Samples.finding_of "critical")) = 0
  /\ calculateScore [Samples.finding_of "critical"] = 80
  /\ calculateScore [Samples.finding_of "warning"] = 90
  /\ calculateScore [Samples.finding_of "info"] = 97.
Proof.
  destruct calculateScore_spec as (_ & _ & _ & Hc & Hw & Hi & H5).
  split; [apply H5; vm_compute; discriminate|].
  split; [by apply Hc|]. split; [by apply Hw|by apply Hi].
Defined.

Lemma checkMacroPlacement_severity_witness :
  (Finding.severity <$>
     MacroPlacement.checkMacroPlacement (Some Samples.macros) Samples.no_options)
  = [ "critical"; "critical"; "warning"; "info" ]%string
  /\ Spec.placement_severity 3 6 = "info"%string.
Proof.
  assert (Hp : present (Some Samples.macros)
               = Some (Samples.macros_prompts, Samples.macros_order)) by reflexivity.
  assert (Hn : (0 < List.length (enabledEntries Samples.macros_order))%nat)
    by (vm_compute; lia).
  pose proof (checkMacroPlacement_severity Samples.macros Samples.no_options
                Samples.macros_prompts Samples.macros_order Hp Hn) as (Heq & _ & Hinfo).
  split.
  - rewrite Heq. vm_compute. reflexivity.
  - apply (Hinfo 3%nat). vm_compute. discriminate.
Defined.



Lemma stable_prefix_estimates_agree_witness :
  ProviderSpecific.checkProviderSpecific (Some Samples.interleaved)
    (Samples.for_provider "google")
  = [ProviderSpecific.below_google 9 4096]
  /\ TokenThresholds.estimatedTokens Samples.interleaved_prompts Samples.interleaved_order
       TokenThresholds.defaultTokenizer = 9.
Proof.
  pose proof (stable_prefix_estimates_agree Samples.interleaved_prompts
                Samples.interleaved_order TokenThresholds.defaultTokenizer)
    as (_ & _ & H).
  destruct (H Samples.interleaved (Samples.for_provider "google") eq_refl) as [_ Hg].
  split; [|vm_compute; reflexivity].
  rewrite (Hg eq_refl). vm_compute. reflexivity.
Defined.

Lemma checkOpenAI_alignment_witness :
  exists f,
    ProviderSpecific.checkProviderSpecific (Some Samples.interleaved)
      (Samples.for_provider "openai") = [f]
    /\ Finding.meta f = Meta.OpenAI 9 9 119.
Proof.
  pose proof (checkOpenAI_alignment Samples.interleaved (Samples.for_provider "openai")
                Samples.interleaved_prompts Samples.interleaved_order
                eq_refl eq_refl eq_refl) as (_ & H & _).
  destruct H as (f & Hf & _ & _ & Hm); [vm_compute; discriminate|].
  exists f. split; [done|]. rewrite Hm. vm_compute. reflexivity.
Defined.

Lemma isVolatile_classification_witness :
  isVolatile "main" (Some "Today is {{isodate}}."%string) = true
  /\ isVolatile "main" (Some "Roll {{ROLL::1d6}} now"%string) = true.
Proof.
  split.
  - apply (proj1 (proj2 (isVolatile_classification "main" (Some "Today is {{isodate}}."%string)))
             "Today is {{isodate}}."%string 9%nat eq_refl).
    exists "isodate"%string, "Today is "%string, "isodate"%string, "."%string.
    repeat split; [unfold Regex.MACRO_NAMES; by repeat (apply elem_of_cons; first [by left|right])|by left].
  - apply (proj1 (proj2 (isVolatile_classification "main" (Some "Roll {{ROLL::1d6}} now"%string)))
             "Roll {{ROLL::1d6}} now"%string 5%nat eq_refl).
    exists "roll"%string, "Roll "%string, "ROLL"%string, " now"%string.
    repeat split; [unfold Regex.MACRO_NAMES; by repeat (apply elem_of_cons; first [by left|right])|].
    right. by exists "1d6"%string.
Defined.

(** ** Further properties of the shared preset handling *)

Section PromptMap.

Lemma promptMap_foldl (prompts : list Prompt.t) (m : gmap string Prompt.t) (identifier : string) :
  foldl (fun m p => <[Prompt.identifier p := p]> m) m prompts !! identifier
  = match last (filter (fun p => Prompt.identifier p = identifier) prompts) with
    | Some p => Some p
    | None => m !! identifier
    end.
Proof.
  revert m. induction prompts as [|p prompts IH]; intros m; [done|].
  cbn [foldl]. rewrite IH, filter_cons.
  destruct (decide (Prompt.identifier p = identifier)) as [E|E].
  - rewrite last_cons. destruct (last (filter _ prompts)); [done|].
    by rewrite <- E, lookup_insert_eq.
  - destruct (last (filter _ prompts)); [done|]. by rewrite lookup_insert_ne.
Qed.

End PromptMap.

(** X1.  [promptMap] answers, for an identifier, the last prompt of
    [preset.prompts] that carries it, and nothing when no prompt does: a later
    prompt with the same identifier replaces an earlier one, and a missing
    identifier is not an error. *)
Theorem promptMap_lookup (prompts : list Prompt.t) (identifier : string) :
  promptMap prompts !! identifier
  = last (filter (fun p => Prompt.identifier p = identifier) prompts).
Proof.
  unfold promptMap. rewrite promptMap_foldl, lookup_empty.
  by destruct (last _).
Qed.

Section OrderForms.

Lemma omap_enabled_records (order : list OrderRecord.t) :
  omap (fun e =>
          match e with
          | OrderElem.Rec r => if OrderRecord.enabled r then Some r else None
          | OrderElem.Wrapper _ _ => None
          end) (map OrderElem.Rec order)
  = List.filter OrderRecord.enabled order.
Proof.
  induction order as [|r order IH]; [done|].
  cbn [map omap list_omap List.filter]. rewrite <- IH. by destruct (OrderRecord.enabled r).
Qed.

Lemma enabledEntries_wrapper (character_id : Z) (order : list OrderRecord.t)
    (rest : list OrderElem.t) :
  enabledEntries (OrderElem.Wrapper character_id order :: rest)
  = List.filter OrderRecord.enabled order.
Proof. unfold enabledEntries. cbn [orderArray]. apply omap_enabled_records. Qed.

Lemma enabledEntries_flat (order : list OrderRecord.t) :
  enabledEntries (map OrderElem.Rec order) = List.filter OrderRecord.enabled order.
Proof.
  unfold enabledEntries.
  replace (orderArray (map OrderElem.Rec order)) with (map OrderElem.Rec order)
    by (by destruct order).
  apply omap_enabled_records.
Qed.

Lemma filter_enabled_idem (order : list OrderRecord.t) :
  List.filter OrderRecord.enabled (List.filter OrderRecord.enabled order)
  = List.filter OrderRecord.enabled order.
Proof.
  induction order as [|r order IH]; [done|]. cbn [List.filter].
  destruct (OrderRecord.enabled r) eqn:E; [|done].
  cbn [List.filter]. by rewrite E, IH.
Qed.

Lemma enabledEntries_enabled (prompt_order : list OrderElem.t) :
  Forall (fun r => OrderRecord.enabled r = true) (enabledEntries prompt_order).
Proof.
  unfold enabledEntries. induction (orderArray prompt_order) as [|e l IH]; [constructor|].
  cbn [omap list_omap]. destruct e as [r|c o]; [|done].
  destruct (OrderRecord.enabled r) eqn:E; [|done]. by constructor.
Qed.

(** The analysis reads the prompt order only through its enabled records. *)
Lemma analyze_enabledEntries (prompts : option (list Prompt.t))
    (po1 po2 : list OrderElem.t) (squash : option bool) (options : Options.t) :
  enabledEntries po1 = enabledEntries po2 ->
  analyze (Some {| Preset.prompts := prompts; Preset.prompt_order := Some po1;
                   Preset.squash_system_messages := squash |}) options
  = analyze (Some {| Preset.prompts := prompts; Preset.prompt_order := Some po2;
                     Preset.squash_system_messages := squash |}) options.
Proof.
  intros H. destruct prompts as [ps|]; [|reflexivity].
  unfold analyze, MacroPlacement.checkMacroPlacement, PromptOrdering.checkPromptOrdering,
    TokenThresholds.checkTokenThresholds, InjectionDepth.checkInjectionDepth,
    ProviderSpecific.checkProviderSpecific.
  cbn [present Preset.prompts Preset.prompt_order Preset.squash_system_messages].
  unfold TokenThresholds.estimatedTokens, InjectionDepth.enabledIdentifiers,
    ProviderSpecific.checkAnthropic, ProviderSpecific.checkOpenAI,
    ProviderSpecific.checkGoogle, ProviderSpecific.systemPrompts,
    ProviderSpecific.getStablePrefixTokens.
  by rewrite H.
Qed.

End OrderForms.

(** X2.  The analysis does not depend on the form of the prompt order: a
    per-character wrapper is analysed like the flat array of its [order],
    whatever follows the first wrapper is ignored, and records that are not
    enabled can be removed without changing the result. *)
Theorem analyze_order_forms (prompts : option (list Prompt.t)) (squash : option bool)
    (options : Options.t) (character_id : Z) (order : list OrderRecord.t)
    (rest : list OrderElem.t) :
  let run prompt_order :=
    analyze (Some {| Preset.prompts := prompts; Preset.prompt_order := Some prompt_order;
                     Preset.squash_system_messages := squash |}) options in
  run (OrderElem.Wrapper character_id order :: rest) = run (map OrderElem.Rec order)
  /\ run (map OrderElem.Rec (List.filter OrderRecord.enabled order))
     = run (map OrderElem.Rec order).
Proof.
  intros run. split; apply analyze_enabledEntries.
  - by rewrite enabledEntries_wrapper, enabledEntries_flat.
  - by rewrite !enabledEntries_flat, filter_enabled_idem.
Qed.

(** ** What every finding of the analysis looks like *)

Section Findings.

Lemma Forall_concat_imap {A B} (f : nat -> A -> list B) (Q : nat -> A -> B -> Prop)
    (l : list A) :
  (forall i x, l !! i = Some x -> Forall (Q i x) (f i x)) ->
  Forall (fun y => exists i x, l !! i = Some x /\ Q i x y) (concat (imap f l)).
Proof.
  intros H. apply Forall_concat, Forall_lookup. intros i ys Hi.
  rewrite list_lookup_imap in Hi. destruct (l !! i) as [x|] eqn:E; [|done].
  simpl in Hi. simplify_eq. eapply Forall_impl; [by apply H|].
  intros y Hy. by exists i, x.
Qed.

Lemma exec_loop_Forall (P : Finding.t -> Prop) (push : nat -> string -> Finding.t)
    (content : string) :
  (forall k cap, P (push k cap)) ->
  forall fuel lastIndex macroIndex l,
    MacroPlacement.exec_loop fuel lastIndex macroIndex content push = Some l ->
    Forall P l.
Proof.
  intros Hpush. induction fuel as [|fuel IH]; intros li mi l; [done|].
  cbn [MacroPlacement.exec_loop].
  destruct (Regex.exec li content) as [[[cap start]|] li'].
  - destruct (MacroPlacement.exec_loop fuel li' (S mi) content push) as [fs|] eqn:E; [|done].
    intros ?; simplify_eq. constructor; [apply Hpush|by eapply IH].
  - intros ?; simplify_eq. constructor.
Qed.

Lemma scan_entry_Forall (P : Finding.t -> Prop) (m : gmap string Prompt.t)
    (total i : nat) (entry : OrderRecord.t) :
  (forall prompt k cap, m !! OrderRecord.identifier entry = Some prompt ->
                        P (MacroPlacement.finding entry prompt i total k cap)) ->
  Forall P (MacroPlacement.scan_entry m total i entry).
Proof.
  intros H. unfold MacroPlacement.scan_entry.
  destruct (m !! OrderRecord.identifier entry) as [prompt|] eqn:E; [|constructor].
  destruct (negb _); [constructor|].
  destruct (MacroPlacement.exec_loop _ _ _ _ _) as [l|] eqn:El; [|constructor].
  cbn [default]. eapply exec_loop_Forall; [|exact El]. intros k cap. by apply H.
Qed.

Lemma severity_at_known (i total : nat) :
  SpecResult.known_severity (MacroPlacement.severity_at i total).
Proof.
  unfold MacroPlacement.severity_at, SpecResult.known_severity.
  destruct (i =? 0)%nat; [by left|]. destruct (JS.ltb _ _); [right; by left|right; by right].
Qed.

Lemma checkMacroPlacement_Forall (P : Finding.t -> Prop)
    (preset : option Preset.t) (options : Options.t) :
  (forall entry prompt i total k cap,
     P (MacroPlacement.finding entry prompt i total k cap)) ->
  Forall P (MacroPlacement.checkMacroPlacement preset options).
Proof.
  intros H. unfold MacroPlacement.checkMacroPlacement.
  destruct (present preset) as [[prompts po]|]; [|constructor].
  destruct (_ =? 0)%nat; [constructor|].
  eapply Forall_impl.
  - apply (Forall_concat_imap _ (fun _ _ f => P f)). intros i entry _.
    apply scan_entry_Forall. intros. apply H.
  - by intros f (i & x & _ & Hf).
Qed.

Lemma ordering_loop_Forall (P : Finding.t -> Prop) (rest : list PromptOrdering.classified)
    (start : nat) :
  (forall i c sa, P (PromptOrdering.finding i c sa)) ->
  Forall P (PromptOrdering.ordering_loop start rest).
Proof.
  intros H. revert start. induction rest as [|c after IH]; intros start; [constructor|].
  cbn [PromptOrdering.ordering_loop].
  destruct (negb _); [apply IH|]. destruct (_ <? 2)%nat; [apply IH|].
  constructor; [apply H|apply IH].
Qed.

Lemma checkPromptOrdering_Forall (P : Finding.t -> Prop)
    (preset : option Preset.t) (options : Options.t) :
  (forall i c sa, P (PromptOrdering.finding i c sa)) ->
  Forall P (PromptOrdering.checkPromptOrdering preset options).
Proof.
  intros H. unfold PromptOrdering.checkPromptOrdering.
  destruct (present preset) as [[prompts po]|]; [|constructor].
  destruct (_ =? 0)%nat; [constructor|]. by apply ordering_loop_Forall.
Qed.

Lemma checkTokenThresholds_Forall (P : Finding.t -> Prop)
    (preset : option Preset.t) (options : Options.t) :
  (forall provider e t, P (TokenThresholds.finding provider e t)) ->
  (forall provider e member, P (TokenThresholds.finding_inherited provider e member)) ->
  Forall P (TokenThresholds.checkTokenThresholds preset options).
Proof.
  intros H Hi. unfold TokenThresholds.checkTokenThresholds.
  destruct (present preset) as [[prompts po]|]; [|constructor].
  destruct (TokenThresholds.threshold_of _) as [t|member].
  - destruct (_ >=? _); [constructor|]. constructor; [apply H|constructor].
  - constructor; [apply Hi|constructor].
Qed.

Lemma checkInjectionDepth_Forall (P : Finding.t -> Prop)
    (preset : option Preset.t) (options : Options.t) :
  (forall prompt depth dyn, P (InjectionDepth.finding prompt depth dyn)) ->
  Forall P (InjectionDepth.checkInjectionDepth preset options).
Proof.
  intros H. unfold InjectionDepth.checkInjectionDepth.
  destruct (present preset) as [[prompts po]|]; [|constructor].
  apply Forall_concat, Forall_forall. intros l Hl.
  change (map ?f ?l) with (f <$> l) in Hl.
  apply list_elem_of_fmap in Hl as (p & -> & _).
  unfold InjectionDepth.check_prompt.
  repeat (destruct (negb _); [constructor|]).
  destruct (Prompt.injection_depth p) as [d|]; [|constructor].
  destruct (_ >=? _); [constructor|]. constructor; [apply H|constructor].
Qed.

Lemma checkProviderSpecific_Forall (P : Finding.t -> Prop)
    (preset : option Preset.t) (options : Options.t) :
  (forall n, P (ProviderSpecific.squash_on n)) ->
  (forall n, P (ProviderSpecific.squash_off n)) ->
  (forall e r p, P (ProviderSpecific.alignment e r p)) ->
  (forall e t, P (ProviderSpecific.below_google e t)) ->
  Forall P (ProviderSpecific.checkProviderSpecific preset options).
Proof.
  intros Hon Hoff Hal Hgo. unfold ProviderSpecific.checkProviderSpecific.
  destruct preset as [p|]; [|constructor].
  destruct (present (Some p)) as [[prompts po]|]; [|constructor].
  destruct (negb _); [constructor|].
  destruct (String.eqb _ "anthropic").
  { unfold ProviderSpecific.checkAnthropic. destruct (_ >? 1); [|constructor].
    destruct (bool_decide _); (constructor; [done|constructor]). }
  destruct (String.eqb _ "openai").
  { unfold ProviderSpecific.checkOpenAI. destruct (negb _); [|constructor].
    constructor; [done|constructor]. }
  destruct (String.eqb _ "google"); [|constructor].
  unfold ProviderSpecific.checkGoogle. destruct (_ <? _); [|constructor].
  constructor; [done|constructor].
Qed.

Lemma filter_all {A} (P : A -> Prop) `{!forall x, Decision (P x)} (l : list A) :
  Forall P l -> filter P l = l.
Proof. induction 1 as [|x l Hx _ IH]; [done|]. by rewrite filter_cons_True, IH. Qed.

Lemma count_severity_perm (s : string) (l1 l2 : list Finding.t) :
  l1 ≡ₚ l2 -> count_severity s l1 = count_severity s l2.
Proof. intros H. unfold count_severity, JS.alen. by rewrite H. Qed.

Lemma count_severity_total (l : list Finding.t) :
  Forall (fun f => SpecResult.known_severity (Finding.severity f)) l ->
  count_severity "critical" l + count_severity "warning" l + count_severity "info" l
  = JS.alen l.
Proof.
  induction 1 as [|f l Hf _ IH].
  - reflexivity.
  - rewrite !count_severity_cons. unfold JS.alen in *. cbn [List.length].
    destruct Hf as [-> | [-> | ->]]; cbn [String.eqb Ascii.eqb Bool.eqb andb]; lia.
Qed.

End Findings.

Section RuleNames.

Lemma rule_and_severity (preset : option Preset.t) (options : Options.t) :
  Forall (fun f => Finding.rule f = "macro-placement"%string
                   /\ SpecResult.known_severity (Finding.severity f))
    (MacroPlacement.checkMacroPlacement preset options)
  /\ Forall (fun f => Finding.rule f = "prompt-ordering"%string
                      /\ SpecResult.known_severity (Finding.severity f))
       (PromptOrdering.checkPromptOrdering preset options)
  /\ Forall (fun f => Finding.rule f = "token-thresholds"%string
                      /\ SpecResult.known_severity (Finding.severity f))
       (TokenThresholds.checkTokenThresholds preset options)
  /\ Forall (fun f => Finding.rule f = "injection-depth"%string
                      /\ SpecResult.known_severity (Finding.severity f))
       (InjectionDepth.checkInjectionDepth preset options)
  /\ Forall (fun f => Finding.rule f = "provider-specific"%string
                      /\ SpecResult.known_severity (Finding.severity f))
       (ProviderSpecific.checkProviderSpecific preset options).
Proof.
  split; [|split; [|split; [|split]]].
  - apply checkMacroPlacement_Forall. intros. split; [reflexivity|].
    apply severity_at_known.
  - apply checkPromptOrdering_Forall. intros. split; [reflexivity|]. right; by left.
  - apply checkTokenThresholds_Forall; intros; (split; [reflexivity|]).
    + unfold TokenThresholds.finding. cbn [Finding.severity].
      unfold TokenThresholds.severity_of, SpecResult.known_severity.
      destruct (JS.geb _ (9 # 10)); [right; by left|].
      destruct (JS.geb _ _); right; by right.
    + right; by right.
  - apply checkInjectionDepth_Forall. intros. split; [reflexivity|].
    unfold InjectionDepth.finding. cbn [Finding.severity].
    unfold InjectionDepth.severity_of, SpecResult.known_severity.
    destruct (_ && _)%bool; [by left|]. destruct (_ <=? _); [right; by left|].
    destruct dyn; [right; by left|right; by right].
  - apply checkProviderSpecific_Forall; intros; (split; [reflexivity|]).
    + right; by right.
    + right; by left.
    + right; by right.
    + right; by left.
Qed.

End RuleNames.

(** X3.  Whatever the preset and the options, every finding of the analysis
    has one of the three severities, the three counts of the summary add up to
    the number of findings, the score lies between 0 and 100, and it is 100
    minus 20 per critical, 10 per warning and 3 per info of the summary,
    floored at 0. *)
Theorem analyze_result_invariants (preset : option Preset.t) (options : Options.t) :
  let r := analyze preset options in
  let s := AnalysisResult.summary r in
  Forall (fun f => SpecResult.known_severity (Finding.severity f))
    (AnalysisResult.findings r)
  /\ Summary.critical s + Summary.warning s + Summary.info s
     = JS.alen (AnalysisResult.findings r)
  /\ 0 <= AnalysisResult.score r <= 100
  /\ AnalysisResult.score r
     = Z.max 0 (100 - 20 * Summary.critical s - 10 * Summary.warning s
                  - 3 * Summary.info s).
Proof.
  intros r s.
  assert (Hall : Forall (fun f => SpecResult.known_severity (Finding.severity f))
                   (AnalysisResult.findings r)).
  { destruct (rule_and_severity preset options) as (H1 & H2 & H3 & H4 & H5).
    unfold r, analyze. cbn [AnalysisResult.findings].
    repeat (apply Forall_app; split);
      (eapply Forall_impl; [eassumption|]); by intros f [_ ?]. }
  split; [done|]. split; [by apply count_severity_total|].
  unfold s, r, analyze.
  cbn [AnalysisResult.score AnalysisResult.summary Summary.critical Summary.warning
         Summary.info].
  rewrite calculateScore_closed.
  match goal with |- context [count_severity "critical" ?l] => set (fs := l) end.
  pose proof (count_severity_nonneg "critical" fs).
  pose proof (count_severity_nonneg "warning" fs).
  pose proof (count_severity_nonneg "info" fs).
  fold fs. split; lia.
Qed.

(** X4.  The findings of the analysis that carry a rule's name are exactly
    the findings that rule returns on the same preset and options, in the
    same order; no rule reports under another rule's name. *)
Theorem analyze_by_rule (preset : option Preset.t) (options : Options.t) :
  let findings := AnalysisResult.findings (analyze preset options) in
  SpecResult.by_rule "macro-placement" findings
  = MacroPlacement.checkMacroPlacement preset options
  /\ SpecResult.by_rule "prompt-ordering" findings
     = PromptOrdering.checkPromptOrdering preset options
  /\ SpecResult.by_rule "token-thresholds" findings
     = TokenThresholds.checkTokenThresholds preset options
  /\ SpecResult.by_rule "injection-depth" findings
     = InjectionDepth.checkInjectionDepth preset options
  /\ SpecResult.by_rule "provider-specific" findings
     = ProviderSpecific.checkProviderSpecific preset options.
Proof.
  intros findings.
  destruct (rule_and_severity preset options) as (H1 & H2 & H3 & H4 & H5).
  assert (Hin : forall (name : string) l,
            Forall (fun f => Finding.rule f = name
                             /\ SpecResult.known_severity (Finding.severity f)) l ->
            SpecResult.by_rule name l = l).
  { intros name l H. apply filter_all. eapply Forall_impl; [exact H|]. by intros f [? _]. }
  assert (Hout : forall (name other : string) l,
            Forall (fun f => Finding.rule f = other
                             /\ SpecResult.known_severity (Finding.severity f)) l ->
            name <> other ->
            SpecResult.by_rule name l = []).
  { intros name other l H Hne. apply filter_none. eapply Forall_impl; [exact H|].
    intros f [E _] E'. congruence. }
  unfold findings, analyze. cbn [AnalysisResult.findings].
  unfold SpecResult.by_rule in *. rewrite !filter_app.
  repeat split.
  - rewrite (Hin _ _ H1), (Hout _ _ _ H2), (Hout _ _ _ H3), (Hout _ _ _ H4),
      (Hout _ _ _ H5) by discriminate. cbn [app]; by rewrite ?List.app_nil_r.
  - rewrite (Hout _ _ _ H1), (Hin _ _ H2), (Hout _ _ _ H3), (Hout _ _ _ H4),
      (Hout _ _ _ H5) by discriminate. cbn [app]; by rewrite ?List.app_nil_r.
  - rewrite (Hout _ _ _ H1), (Hout _ _ _ H2), (Hin _ _ H3), (Hout _ _ _ H4),
      (Hout _ _ _ H5) by discriminate. cbn [app]; by rewrite ?List.app_nil_r.
  - rewrite (Hout _ _ _ H1), (Hout _ _ _ H2), (Hout _ _ _ H3), (Hin _ _ H4),
      (Hout _ _ _ H5) by discriminate. cbn [app]; by rewrite ?List.app_nil_r.
  - rewrite (Hout _ _ _ H1), (Hout _ _ _ H2), (Hout _ _ _ H3), (Hout _ _ _ H4),
      (Hin _ _ H5) by discriminate. cbn [app]; by rewrite ?List.app_nil_r.
Qed.

Lemma calculateScore_app_le (l1 l2 : list Finding.t) :
  calculateScore (l1 ++ l2) <= calculateScore l1
  /\ calculateScore (l1 ++ l2) <= calculateScore l2.
Proof.
  rewrite !calculateScore_closed, !count_severity_app.
  pose proof (count_severity_nonneg "critical" l1).
  pose proof (count_severity_nonneg "warning" l1).
  pose proof (count_severity_nonneg "info" l1).
  pose proof (count_severity_nonneg "critical" l2).
  pose proof (count_severity_nonneg "warning" l2).
  pose proof (count_severity_nonneg "info" l2). lia.
Qed.

(** X5.  The score depends on the findings only through how many there are
    of each severity: reordering the findings leaves it unchanged, and the
    score of two lists put together is never above the score of either. *)
Theorem calculateScore_order_independent :
  (forall l1 l2 : list Finding.t, l1 ≡ₚ l2 -> calculateScore l1 = calculateScore l2)
  /\ (forall l1 l2 : list Finding.t,
        calculateScore (l1 ++ l2) <= calculateScore l1
        /\ calculateScore (l1 ++ l2) <= calculateScore l2).
Proof.
  split.
  - intros l1 l2 H. rewrite !calculateScore_closed.
    by rewrite !(count_severity_perm _ _ _ H).
  - apply calculateScore_app_le.
Qed.

(** ** Positions and entries behind the findings *)

Section Behind.

Lemma elem_of_concat {A} (x : A) (ls : list (list A)) :
  x ∈ concat ls <-> exists l, x ∈ l /\ l ∈ ls.
Proof.
  induction ls as [|l0 ls IH]; cbn [concat].
  - split; [by intros ?%elem_of_nil|]. by intros (l & _ & ?%elem_of_nil).
  - rewrite elem_of_app, IH. split.
    + intros [H|(l & Hx & Hl)]; [exists l0; split; [done|left]|].
      exists l. split; [done|by right].
    + intros (l & Hx & [->|Hl]%elem_of_cons); [by left|]. right. by exists l.
Qed.

Lemma scan_entry_elem (m : gmap string Prompt.t) (total i : nat)
    (entry : OrderRecord.t) (f : Finding.t) :
  f ∈ MacroPlacement.scan_entry m total i entry ->
  exists prompt content k p cap,
    m !! OrderRecord.identifier entry = Some prompt
    /\ Prompt.content prompt = Some content
    /\ Spec.occ_from content O !! k = Some (p, cap)
    /\ f = MacroPlacement.finding entry prompt i total k cap.
Proof.
  unfold MacroPlacement.scan_entry.
  destruct (m !! OrderRecord.identifier entry) as [prompt|] eqn:E;
    [|by intros ?%elem_of_nil].
  destruct (Prompt.content prompt) as [[|a content]|] eqn:Ec;
    cbn [JS.truthy negb]; try by intros ?%elem_of_nil.
  cbn [from_option id]. rewrite exec_loop_enough. cbn [from_option id].
  intros (k & Hk)%list_elem_of_lookup_1. rewrite list_lookup_imap in Hk.
  destruct (Spec.occ_from (String a content) O !! k) as [[p cap]|] eqn:Eo; [|done].
  simpl in Hk. simplify_eq. by exists prompt, (String a content), k, p, cap.
Qed.

Lemma occ_from_macro_at (content : string) (k p : nat) (cap : string) :
  Spec.occ_from content O !! k = Some (p, cap) -> Spec.macro_at content p.
Proof.
  intros H. apply macro_at_match_here.
  assert (Hp : p ∈ (Spec.occ_from content O).*1).
  { apply list_elem_of_fmap. exists (p, cap). split; [done|].
    by eapply list_elem_of_lookup_2. }
  apply occ_from_positions in Hp as (j & -> & ? & ?). by rewrite Nat.add_0_l.
Qed.

Lemma ordering_loop_elem (rest : list PromptOrdering.classified) (start : nat)
    (f : Finding.t) :
  f ∈ PromptOrdering.ordering_loop start rest <->
  exists k c,
    rest !! k = Some c /\ PromptOrdering.volatile c = true
    /\ let stableAfter :=
         List.filter (fun s => negb (PromptOrdering.volatile s)) (drop (S k) rest) in
       (2 <= List.length stableAfter)%nat
       /\ f = PromptOrdering.finding (start + k) c stableAfter.
Proof.
  revert start. induction rest as [|c0 after IH]; intros start.
  - cbn [PromptOrdering.ordering_loop]. split; [by intros ?%elem_of_nil|].
    by intros (k & c & Hk & _).
  - cbn [PromptOrdering.ordering_loop].
    assert (Htail : f ∈ PromptOrdering.ordering_loop (S start) after <->
              exists k c, (c0 :: after) !! S k = Some c
                /\ PromptOrdering.volatile c = true
                /\ let stableAfter :=
                     List.filter (fun s => negb (PromptOrdering.volatile s))
                       (drop (S (S k)) (c0 :: after)) in
                   (2 <= List.length stableAfter)%nat
                   /\ f = PromptOrdering.finding (start + S k) c stableAfter).
    { rewrite IH. split; intros (k & c & Hk & Hv & Hlen & Hf); exists k, c.
      - split; [done|]. split; [done|]. cbv zeta in *. split; [done|].
        replace (start + S k)%nat with (S start + k)%nat by lia. exact Hf.
      - split; [done|]. split; [done|]. cbv zeta in *. split; [done|].
        replace (S start + k)%nat with (start + S k)%nat by lia. exact Hf. }
    destruct (PromptOrdering.volatile c0) eqn:Hv0; cbn [negb].
    + destruct (Nat.ltb_spec
                  (List.length (List.filter (fun s => negb (PromptOrdering.volatile s)) after)) 2)
        as [Hlt|Hge].
      * rewrite Htail. split.
        -- intros (k & c & H). by exists (S k), c.
        -- intros ([|k] & c & Hk & Hv & Hlen & Hf); [|by exists k, c].
           change (drop 1 (c0 :: after)) with after in Hlen. lia.
      * rewrite elem_of_cons, Htail. split.
        -- intros [->|(k & c & H)]; [|by exists (S k), c].
           exists O, c0. rewrite Nat.add_0_r. by repeat split.
        -- intros ([|k] & c & Hk & Hv & Hlen & Hf); [|right; by exists k, c].
           left. simpl in Hk. simplify_eq. by rewrite Nat.add_0_r.
    + rewrite Htail. split.
      * intros (k & c & H). by exists (S k), c.
      * intros ([|k] & c & Hk & Hv & Hlen & Hf); [|by exists k, c].
        simpl in Hk. simplify_eq. congruence.
Qed.

End Behind.

(** X6.  Every finding of Macro Placement is about an entry of the effective
    sequence that has a prompt: the position it records is the index of that
    entry, below [totalEntries], and its affected entry is the identifier
    there.  That entry is volatile, so its content is not part of the stable
    prefix Token Thresholds estimates. *)
Theorem checkMacroPlacement_entries
    (preset : Preset.t) (options : Options.t)
    (prompts : list Prompt.t) (prompt_order : list OrderElem.t) (f : Finding.t) :
  present (Some preset) = Some (prompts, prompt_order) ->
  f ∈ MacroPlacement.checkMacroPlacement (Some preset) options ->
  exists (i : nat) (entry : OrderRecord.t) (prompt : Prompt.t),
    enabledEntries prompt_order !! i = Some entry
    /\ promptMap prompts !! OrderRecord.identifier entry = Some prompt
    /\ SpecResult.macro_position f = Some (Z.of_nat i)
    /\ (i < List.length (enabledEntries prompt_order))%nat
    /\ Finding.affectedEntry f = OrderRecord.identifier entry
    /\ isVolatile (OrderRecord.identifier entry) (Prompt.content prompt) = true
    /\ TokenThresholds.stableContent (promptMap prompts) [entry] = [].
Proof.
  intros Hpresent Hf. unfold MacroPlacement.checkMacroPlacement in Hf.
  rewrite Hpresent in Hf.
  destruct (_ =? 0)%nat; [by apply elem_of_nil in Hf|].
  apply elem_of_concat in Hf as (l & Hf & Hl).
  apply list_elem_of_lookup_1 in Hl as (i & Hi). rewrite list_lookup_imap in Hi.
  destruct (enabledEntries prompt_order !! i) as [entry|] eqn:Ei; [|done].
  simpl in Hi. simplify_eq.
  apply scan_entry_elem in Hf as (prompt & content & k & p & cap & Hp & Hc & Ho & ->).
  assert (Hvol : isVolatile (OrderRecord.identifier entry) (Prompt.content prompt) = true).
  { apply isVolatile_iff. right; right. exists content, p. split; [done|].
    by eapply occ_from_macro_at. }
  exists i, entry, prompt. repeat split; try done.
  - by eapply lookup_lt_Some.
  - cbn [TokenThresholds.stableContent]. rewrite Hp. cbn [content_of]. by rewrite Hvol.
Qed.

(** X7.  Prompt Ordering reports an entry only when it is volatile and at
    least two stable entries follow it: every finding is the one for some
    position of the effective sequence holding a volatile entry, and it
    counts between 2 and [total - position - 1] stable entries after it.  The
    rule is silent exactly when every volatile entry has fewer than two stable
    entries after it. *)
Theorem checkPromptOrdering_findings
    (preset : Preset.t) (options : Options.t)
    (prompts : list Prompt.t) (prompt_order : list OrderElem.t) :
  present (Some preset) = Some (prompts, prompt_order) ->
  let classified :=
    imap (PromptOrdering.classify (promptMap prompts)) (enabledEntries prompt_order) in
  let stableAfter (i : nat) :=
    List.filter (fun s => negb (PromptOrdering.volatile s)) (drop (S i) classified) in
  let findings := PromptOrdering.checkPromptOrdering (Some preset) options in
  (forall f, f ∈ findings ->
     exists i c,
       classified !! i = Some c
       /\ PromptOrdering.volatile c = true
       /\ f = PromptOrdering.finding i c (stableAfter i)
       /\ (2 <= List.length (stableAfter i)
             <= List.length (enabledEntries prompt_order) - i - 1)%nat)
  /\ (findings = [] <->
      forall i c, classified !! i = Some c -> PromptOrdering.volatile c = true ->
                  (List.length (stableAfter i) < 2)%nat).
Proof.
  intros Hpresent classified stableAfter findings.
  assert (Hfind : forall f, f ∈ findings <->
            exists k c, classified !! k = Some c /\ PromptOrdering.volatile c = true
              /\ (2 <= List.length (stableAfter k))%nat
              /\ f = PromptOrdering.finding k c (stableAfter k)).
  { intros f. unfold findings, PromptOrdering.checkPromptOrdering. rewrite Hpresent.
    destruct (Nat.eqb_spec (List.length (enabledEntries prompt_order)) 0) as [E|_].
    - split; [by intros ?%elem_of_nil|]. intros (k & c & Hk & _).
      apply nil_length_inv in E. unfold classified in Hk. by rewrite E in Hk.
    - fold classified. rewrite ordering_loop_elem. by setoid_rewrite Nat.add_0_l. }
  split.
  - intros f (i & c & Hi & Hv & Hlen & ->)%Hfind. exists i, c.
    repeat split; try done.
    unfold stableAfter. etrans; [apply List.filter_length_le|].
    rewrite length_drop. unfold classified. rewrite length_imap. lia.
  - split.
    + intros Hnil i c Hi Hv.
      destruct (Nat.ltb_spec (List.length (stableAfter i)) 2) as [?|Hge]; [done|].
      assert (Hin : PromptOrdering.finding i c (stableAfter i) ∈ findings).
      { apply Hfind. by exists i, c. }
      rewrite Hnil in Hin. by apply elem_of_nil in Hin.
    + intros Hall. destruct findings as [|f l] eqn:E; [done|].
      assert (Hin : f ∈ f :: l) by left.
      apply Hfind in Hin as (i & c & Hi & Hv & Hlen & _).
      specialize (Hall i c Hi Hv). lia.
Qed.

(** ** The pattern object between calls *)

Section ExecState.

Lemma macro_at_drop (content : string) (lastIndex j : nat) :
  (lastIndex <= String.length content)%nat ->
  (is_Some (Regex.match_here (Regex.drop_chars j (Regex.drop_chars lastIndex content)))
   /\ (j <= String.length content - lastIndex)%nat)
  <-> Spec.macro_at content (lastIndex + j).
Proof.
  intros Hli. rewrite macro_at_match_here, drop_chars_drop. split.
  - intros [? ?]. split; [lia|done].
  - intros [? ?]. split; [done|lia].
Qed.

End ExecState.

(** X8.  [exec] under the [g] flag, from any scan position: when it returns a
    match, the match is the leftmost occurrence of the pattern at or after the
    scan position, the captured name is one of the nine names up to case, and
    the scan position it leaves is the end of the match, inside the content;
    when it returns null there is no occurrence at or after the scan position
    and the scan position is back at 0.  Occurrences before the scan position
    are never reported, which is why every rule resets it before scanning. *)
Theorem exec_from_lastIndex (lastIndex : nat) (content : string) :
  match Regex.exec lastIndex content with
  | (Some (cap, start), lastIndex') =>
      (lastIndex <= start)%nat
      /\ Spec.macro_at content start
      /\ (forall p, (lastIndex <= p < start)%nat -> ~ Spec.macro_at content p)
      /\ lastIndex' = (start + 2 + String.length cap + 2)%nat
      /\ (lastIndex' <= String.length content)%nat
      /\ exists name, name ∈ Regex.MACRO_NAMES /\ Spec.eq_ci name cap = true
  | (None, lastIndex') =>
      lastIndex' = O
      /\ forall p, (lastIndex <= p)%nat -> ~ Spec.macro_at content p
  end.
Proof.
  unfold Regex.exec.
  destruct (Nat.ltb_spec (String.length content) lastIndex) as [Hgt|Hle].
  { split; [done|]. intros p Hp [Hlen _]%macro_at_match_here. lia. }
  destruct (Regex.search (Regex.drop_chars lastIndex content) lastIndex)
    as [[[cap start] e]|] eqn:E.
  - apply search_Some in E as (k & len & Hk & -> & -> & Hnone & Hm).
    rewrite drop_chars_length in Hk.
    pose proof (match_here_length _ _ _ Hm) as Hlen.
    rewrite drop_chars_drop, drop_chars_length in Hlen.
    pose proof (match_here_sound _ _ _ Hm)
      as (name & term & t & rest & Hn & Ht & Hs & Hc & Htt & Hl).
    split; [lia|]. split.
    { apply macro_at_drop; [done|]. by rewrite Hm. }
    split.
    { intros p Hp Hmac.
      replace p with (lastIndex + (p - lastIndex))%nat in Hmac by lia.
      apply macro_at_drop in Hmac as [[x Hx] _]; [|done].
      rewrite Hnone in Hx by lia. done. }
    split; [lia|]. split; [lia|]. by exists name.
  - split; [done|]. intros p Hp Hmac.
    replace p with (lastIndex + (p - lastIndex))%nat in Hmac by lia.
    apply macro_at_drop in Hmac as [[x Hx] _]; [|done].
    by rewrite (search_None _ _ E) in Hx.
Qed.

(** ** Thresholds in code units, and the two threshold rules together *)

Section Characters.

Lemma severity_warning_iff (estimate threshold : Z) :
  0 < threshold ->
  TokenThresholds.severity_of (JS.div estimate threshold) = "warning"%string
  <-> 9 * threshold <= 10 * estimate.
Proof.
  intros Ht. rewrite severity_of_ratio. fold (JS.div estimate threshold).
  rewrite div_geb_pos by done.
  destruct (Z.leb_spec (9 * threshold) (estimate * 10)); split; intros; try done; lia.
Qed.

Lemma checkTokenThresholds_unfold (preset : Preset.t) (options : Options.t)
    (prompts : list Prompt.t) (prompt_order : list OrderElem.t) :
  present (Some preset) = Some (prompts, prompt_order) ->
  let provider := JS.or_else (Options.provider options) "anthropic" in
  let threshold := TokenThresholds.threshold_of provider in
  let estimate :=
    TokenThresholds.estimatedTokens prompts prompt_order
      (default TokenThresholds.defaultTokenizer (Options.tokenizer options)) in
  TokenThresholds.checkTokenThresholds (Some preset) options
  = match threshold with
    | TokenThresholds.Tokens t =>
        if estimate >=? t then [] else [TokenThresholds.finding provider estimate t]
    | TokenThresholds.Inherited member =>
        [TokenThresholds.finding_inherited provider estimate member]
    end.
Proof.
  intros Hp. cbv zeta. unfold TokenThresholds.checkTokenThresholds. by rewrite Hp.
Qed.

Lemma getStablePrefixTokens_estimatedTokens (prompts : list Prompt.t)
    (prompt_order : list OrderElem.t) (tokenizer : string -> Z) :
  ProviderSpecific.getStablePrefixTokens prompts prompt_order tokenizer
  = TokenThresholds.estimatedTokens prompts prompt_order tokenizer.
Proof.
  unfold ProviderSpecific.getStablePrefixTokens, TokenThresholds.estimatedTokens.
  by rewrite stableContent_provider, stableContent_thresholds.
Qed.

Lemma estimatedTokens_stable_contents (prompts : list Prompt.t)
    (prompt_order : list OrderElem.t) (tokenizer : string -> Z) :
  TokenThresholds.estimatedTokens prompts prompt_order tokenizer
  = tokenizer (JS.join JS.newline (SpecProvider.stable_contents prompts prompt_order)).
Proof.
  unfold TokenThresholds.estimatedTokens, SpecProvider.stable_contents.
  by rewrite stableContent_thresholds.
Qed.

End Characters.

(** X9.  With the default tokenizer, and a provider that is not the name of
    a member plain objects inherit, the thresholds can be read in code units
    of the stable prefix (the contents joined by line feeds).  Against the
    threshold 1024 Token Thresholds is silent from 4093 code units on and
    warns, rather than informs, from 3685; against 4096 it is silent from
    16381 on and warns from 14745. *)
Theorem checkTokenThresholds_in_code_units
    (preset : Preset.t) (options : Options.t)
    (prompts : list Prompt.t) (prompt_order : list OrderElem.t) :
  present (Some preset) = Some (prompts, prompt_order) ->
  Options.tokenizer options = None ->
  JS.inherits (JS.or_else (Options.provider options) "anthropic") = false ->
  let len :=
    JS.slen (JS.join JS.newline (SpecProvider.stable_contents prompts prompt_order)) in
  let threshold :=
    TokenThresholds.threshold_of (JS.or_else (Options.provider options) "anthropic") in
  let findings := TokenThresholds.checkTokenThresholds (Some preset) options in
  (threshold = TokenThresholds.Tokens 1024 \/ threshold = TokenThresholds.Tokens 4096)
  /\ (threshold = TokenThresholds.Tokens 1024 ->
      (findings = [] <-> 4093 <= len)
      /\ forall f, f ∈ findings ->
           (Finding.severity f = "warning"%string <-> 3685 <= len)
           /\ (Finding.severity f = "info"%string <-> len < 3685))
  /\ (threshold = TokenThresholds.Tokens 4096 ->
      (findings = [] <-> 16381 <= len)
      /\ forall f, f ∈ findings ->
           (Finding.severity f = "warning"%string <-> 14745 <= len)
           /\ (Finding.severity f = "info"%string <-> len < 14745)).
Proof.
  intros Hpresent Htok Hplain len threshold findings.
  assert (Hest : TokenThresholds.estimatedTokens prompts prompt_order
                   (default TokenThresholds.defaultTokenizer (Options.tokenizer options))
                 = (len + 3) / 4).
  { rewrite Htok. cbn [from_option id].
    by rewrite estimatedTokens_stable_contents. }
  assert (Hfind : forall t, threshold = TokenThresholds.Tokens t ->
                  findings
                  = if (len + 3) / 4 >=? t then []
                    else [TokenThresholds.finding
                            (JS.or_else (Options.provider options) "anthropic")
                            ((len + 3) / 4) t]).
  { intros t Ht. unfold findings. rewrite (checkTokenThresholds_unfold _ _ _ _ Hpresent).
    cbv zeta. fold threshold. by rewrite Ht, Hest. }
  assert (Hlen : 0 <= len) by (unfold len, JS.slen; lia).
  assert (Hsev : forall t f, threshold = TokenThresholds.Tokens t -> f ∈ findings ->
            0 < t ->
            (Finding.severity f = "warning"%string
               <-> 9 * t <= 10 * ((len + 3) / 4))
            /\ (Finding.severity f = "info"%string
                  <-> ~ 9 * t <= 10 * ((len + 3) / 4))).
  { intros t f Ht Hf Hpos. rewrite (Hfind t Ht) in Hf.
    destruct (_ >=? _); [by apply elem_of_nil in Hf|].
    apply list_elem_of_singleton in Hf as ->.
    unfold TokenThresholds.finding. cbn [Finding.severity].
    pose proof (severity_warning_iff ((len + 3) / 4) t Hpos) as Hw.
    split; [done|]. rewrite <- Hw. rewrite severity_of_ratio.
    destruct (Qle_bool _ _); split; intros; done. }
  pose proof (Z.div_mod (len + 3) 4 ltac:(lia)) as Hdm.
  pose proof (Z.mod_pos_bound (len + 3) 4 ltac:(lia)) as Hmb.
  revert Hfind Hsev Hdm. generalize ((len + 3) / 4). intros q Hfind Hsev Hdm.
  split.
  { unfold threshold.
    destruct (threshold_of_cases (JS.or_else (Options.provider options) "anthropic"))
      as [[_ H]|[H _]]; [exact H|congruence]. }
  split; intros Ht.
  - split.
    + rewrite (Hfind _ Ht). destruct (Z.geb_spec q 1024) as [H|H];
        (split; [intros ?|intros ?]); try done; lia.
    + intros f Hf. destruct (Hsev _ f Ht Hf ltac:(lia)) as [Hw Hi].
      rewrite Hw, Hi. split; lia.
  - split.
    + rewrite (Hfind _ Ht). destruct (Z.geb_spec q 4096) as [H|H];
        (split; [intros ?|intros ?]); try done; lia.
    + intros f Hf. destruct (Hsev _ f Ht Hf ltac:(lia)) as [Hw Hi].
      rewrite Hw, Hi. split; lia.
Qed.

(** X10.  Token Thresholds and Provider-Specific each return at most one
    finding and never a critical one.  For provider google they decide on the
    same estimate against the same 4096: either both are silent, or both
    report, Provider-Specific with a warning, so that the score of the
    analysis is then at most 87. *)
Theorem threshold_rules_together
    (preset : Preset.t) (options : Options.t)
    (prompts : list Prompt.t) (prompt_order : list OrderElem.t) :
  present (Some preset) = Some (prompts, prompt_order) ->
  let thresholds := TokenThresholds.checkTokenThresholds (Some preset) options in
  let specific := ProviderSpecific.checkProviderSpecific (Some preset) options in
  let estimate :=
    TokenThresholds.estimatedTokens prompts prompt_order
      (default TokenThresholds.defaultTokenizer (Options.tokenizer options)) in
  ((List.length thresholds <= 1)%nat /\ (List.length specific <= 1)%nat
   /\ Forall (fun f => Finding.severity f <> "critical"%string) (thresholds ++ specific))
  /\ (Options.provider options = Some "google"%string ->
      (4096 <= estimate -> thresholds = [] /\ specific = [])
      /\ (estimate < 4096 ->
          exists f1 f2,
            thresholds = [f1] /\ specific = [f2]
            /\ Finding.severity f2 = "warning"%string
            /\ AnalysisResult.score (analyze (Some preset) options) <= 87)).
Proof.
  intros Hpresent thresholds specific estimate.
  destruct (rule_and_severity (Some preset) options) as (_ & _ & H3 & _ & H5).
  split.
  - split; [|split].
    + unfold thresholds. rewrite (checkTokenThresholds_unfold _ _ _ _ Hpresent).
      cbv zeta. destruct (TokenThresholds.threshold_of _); [|simpl; lia].
      destruct (_ >=? _); simpl; lia.
    + unfold specific, ProviderSpecific.checkProviderSpecific. rewrite Hpresent.
      destruct (negb _); [simpl; lia|].
      unfold ProviderSpecific.checkAnthropic, ProviderSpecific.checkOpenAI,
        ProviderSpecific.checkGoogle.
      repeat (match goal with |- context [if ?b then _ else _] => destruct b end);
        simpl; lia.
    + apply Forall_app. split.
      * apply checkTokenThresholds_Forall; [|intros; discriminate].
        intros provider e t.
        unfold TokenThresholds.finding. cbn [Finding.severity].
        unfold TokenThresholds.severity_of.
        repeat (match goal with |- context [if ?b then _ else _] => destruct b end);
          discriminate.
      * apply checkProviderSpecific_Forall; intros; discriminate.
  - intros Hprov.
    assert (Ht : thresholds
                 = if estimate >=? 4096 then []
                   else [TokenThresholds.finding "google" estimate 4096]).
    { unfold thresholds. rewrite (checkTokenThresholds_unfold _ _ _ _ Hpresent).
      cbv zeta. rewrite Hprov. reflexivity. }
    assert (Hs : specific
                 = if estimate <? 4096 then [ProviderSpecific.below_google estimate 4096]
                   else []).
    { unfold specific, ProviderSpecific.checkProviderSpecific.
      rewrite Hpresent, Hprov. cbn [JS.truthy negb from_option id].
      cbn [String.eqb Ascii.eqb Bool.eqb andb].
      unfold ProviderSpecific.checkGoogle.
      rewrite getStablePrefixTokens_estimatedTokens.
      change ProviderSpecific.defaultTokenizer with TokenThresholds.defaultTokenizer.
      fold estimate. by destruct (estimate <? 4096). }
    split.
    + intros Hge. rewrite Ht, Hs.
      destruct (Z.geb_spec estimate 4096); [|lia].
      by destruct (Z.ltb_spec estimate 4096); [lia|].
    + intros Hlt.
      exists (TokenThresholds.finding "google" estimate 4096),
             (ProviderSpecific.below_google estimate 4096).
      assert (Ht' : thresholds = [TokenThresholds.finding "google" estimate 4096]).
      { rewrite Ht. by destruct (Z.geb_spec estimate 4096); [lia|]. }
      assert (Hs' : specific = [ProviderSpecific.below_google estimate 4096]).
      { rewrite Hs. by destruct (Z.ltb_spec estimate 4096); [|lia]. }
      split; [done|]. split; [done|]. split; [reflexivity|].
      unfold analyze. cbn [AnalysisResult.score]. fold thresholds. fold specific.
      rewrite calculateScore_closed, !count_severity_app, Ht', Hs'.
      set (m := MacroPlacement.checkMacroPlacement (Some preset) options).
      set (o := PromptOrdering.checkPromptOrdering (Some preset) options).
      set (d := InjectionDepth.checkInjectionDepth (Some preset) options).
      pose proof (count_severity_nonneg "critical" m).
      pose proof (count_severity_nonneg "warning" m).
      pose proof (count_severity_nonneg "info" m).
      pose proof (count_severity_nonneg "critical" o).
      pose proof (count_severity_nonneg "warning" o).
      pose proof (count_severity_nonneg "info" o).
      pose proof (count_severity_nonneg "critical" d).
      pose proof (count_severity_nonneg "warning" d).
      pose proof (count_severity_nonneg "info" d).
      rewrite !count_severity_cons.
      unfold ProviderSpecific.below_google, TokenThresholds.finding.
      cbn [Finding.severity].
      unfold TokenThresholds.severity_of.
      assert (Hnil : forall s, count_severity s [] = 0) by reflexivity.
      rewrite !Hnil.
      repeat (match goal with |- context [if JS.geb ?a ?b then _ else _] =>
                destruct (JS.geb a b) end);
        cbn [String.eqb Ascii.eqb Bool.eqb andb]; lia.
Qed.

(** X11.  Macro Placement is silent exactly when no entry of the effective
    sequence has a prompt whose content holds a dynamic macro; entries without
    a prompt or without content never count. *)
Theorem checkMacroPlacement_silent
    (preset : Preset.t) (options : Options.t)
    (prompts : list Prompt.t) (prompt_order : list OrderElem.t) :
  present (Some preset) = Some (prompts, prompt_order) ->
  MacroPlacement.checkMacroPlacement (Some preset) options = []
  <-> forall (entry : OrderRecord.t) (prompt : Prompt.t) (content : string) (p : nat),
        entry ∈ enabledEntries prompt_order ->
        promptMap prompts !! OrderRecord.identifier entry = Some prompt ->
        Prompt.content prompt = Some content ->
        ~ Spec.macro_at content p.
Proof.
  intros Hpresent. split.
  - intros Hnil entry prompt content p Hin Hp Hc Hmac.
    apply list_elem_of_lookup_1 in Hin as (i & Hi).
    assert (Hp' : p ∈ (Spec.occ_from content O).*1).
    { apply occ_from_positions. apply macro_at_match_here in Hmac as [? ?].
      exists p. by rewrite Nat.add_0_l. }
    apply list_elem_of_fmap in Hp' as ([q cap] & _ & Hocc).
    apply list_elem_of_lookup_1 in Hocc as (k & Hk).
    set (total := List.length (enabledEntries prompt_order)).
    assert (Hf : MacroPlacement.finding entry prompt i total k cap
                   ∈ MacroPlacement.checkMacroPlacement (Some preset) options).
    { unfold MacroPlacement.checkMacroPlacement. rewrite Hpresent. fold total.
      destruct (Nat.eqb_spec total 0) as [E|_].
      { apply lookup_lt_Some in Hi. fold total in Hi. lia. }
      apply elem_of_concat.
      exists (MacroPlacement.scan_entry (promptMap prompts) total i entry). split.
      - rewrite (scan_entry_occ _ _ _ _ _ _ Hp Hc).
        apply list_elem_of_lookup_2 with k. by rewrite list_lookup_imap, Hk.
      - apply list_elem_of_lookup_2 with i. by rewrite list_lookup_imap, Hi. }
    rewrite Hnil in Hf. by apply elem_of_nil in Hf.
  - intros Hnone.
    destruct (MacroPlacement.checkMacroPlacement (Some preset) options) as [|f l] eqn:E;
      [done|].
    assert (Hf : f ∈ MacroPlacement.checkMacroPlacement (Some preset) options)
      by (rewrite E; left).
    unfold MacroPlacement.checkMacroPlacement in Hf. rewrite Hpresent in Hf.
    destruct (_ =? 0)%nat; [by apply elem_of_nil in Hf|].
    apply elem_of_concat in Hf as (fs & Hf & Hfs).
    apply list_elem_of_lookup_1 in Hfs as (i & Hi). rewrite list_lookup_imap in Hi.
    destruct (enabledEntries prompt_order !! i) as [entry|] eqn:Ei; [|done].
    simpl in Hi. simplify_eq.
    apply scan_entry_elem in Hf as (prompt & content & k & p & cap & Hp & Hc & Ho & _).
    exfalso. apply (Hnone entry prompt content p); try done.
    + by eapply list_elem_of_lookup_2.
    + by eapply occ_from_macro_at.
Qed.

(** ** index.js *)

Section Host.

Lemma detectProvider_known (h : Index.Host) :
  Index.detectProvider h = "anthropic"%string
  \/ Index.detectProvider h = "openai"%string
  \/ Index.detectProvider h = "google"%string.
Proof.
  unfold Index.detectProvider. destruct (Index.oai_settings h) as [s|]; [|by left].
  repeat case_bool_decide; auto.
Qed.

End Host.

(** X12.  [runAnalysis] returns null exactly when there is neither a preset
    override nor an [oai_settings] global, or when, outside Node, no analyzer
    is on the window.  Otherwise it returns what the analyzer (under Node:
    [analyze]) gives for the preset under an options object that holds a
    provider only: a tokenizer in the options override is never passed on, so
    the default tokenizer is always used.  Under Node with no provider
    override the provider is the one detected from the host, always one of
    anthropic, openai and google. *)
Theorem runAnalysis_result (h : Index.Host) (presetOverride : option Preset.t)
    (optionsOverride : option Options.t) :
  let result := fst (Index.runAnalysis h presetOverride optionsOverride) in
  (result = None <->
     (presetOverride = None /\ Index.oai_settings h = None)
     \/ (Index.IS_NODE h = false /\ Index.cacheAnalyzer h = None))
  /\ (forall r, result = Some r ->
        exists preset provider analyzer,
          r = analyzer (Some preset)
                {| Options.provider := Some provider; Options.tokenizer := None |}
          /\ (Index.IS_NODE h = true -> analyzer = analyze)
          /\ (Index.IS_NODE h = false -> Index.cacheAnalyzer h = Some analyzer)
          /\ (presetOverride = None ->
              Some preset = Index.as_preset <$> Index.getCurrentPreset h)
          /\ (forall p, presetOverride = Some p -> preset = p)
          /\ (Index.IS_NODE h = true ->
              (optionsOverride ≫= Options.provider) = None ->
              provider = Index.detectProvider h
              /\ (provider = "anthropic"%string \/ provider = "openai"%string
                  \/ provider = "google"%string)))
  /\ (forall o tokenizer,
        optionsOverride = Some o ->
        Index.runAnalysis h presetOverride
          (Some {| Options.provider := Options.provider o;
                   Options.tokenizer := tokenizer |})
        = Index.runAnalysis h presetOverride optionsOverride).
Proof.
  intros result. unfold result, Index.runAnalysis, Index.getCurrentPreset.
  split; [|split].
  - destruct presetOverride as [p|]; [|destruct (Index.oai_settings h) as [s|]];
      cbn [fmap option_fmap option_map]; try destruct (Index.getSettings h) as [st h'];
      destruct (Index.IS_NODE h), (Index.cacheAnalyzer h); cbn [fst];
      split; intros H; try done;
      try (destruct H as [[? ?]|[? ?]]; done);
      try (right; done); try (left; done).
  - intros r Hr.
    destruct presetOverride as [p|].
    + destruct (Index.getSettings h) as [st h'] eqn:Es.
      destruct (if Index.IS_NODE h then _ else _) as [f|] eqn:En; [|done].
      cbn [fst] in Hr. simplify_eq.
      eexists p, _, f. split; [reflexivity|].
      split; [by intros Hn; rewrite Hn in En; simplify_eq|].
      split; [by intros Hn; rewrite Hn in En|].
      split; [done|]. split; [by intros ? [= ->]|].
      intros Hnode Hnone. rewrite Hnone. unfold Index.getSettings in Es.
      rewrite Hnode in Es. simplify_eq.
      cbn [JS.or_else JS.truthy Index.provider Index.defaultSettings String.eqb
             Ascii.eqb Bool.eqb andb].
      split; [reflexivity|apply detectProvider_known].
    + destruct (Index.oai_settings h) as [s|] eqn:Eo; cbn [fmap option_fmap option_map] in *;
        [|done].
      destruct (Index.getSettings h) as [st h'] eqn:Es.
      destruct (if Index.IS_NODE h then _ else _) as [f|] eqn:En; [|done].
      cbn [fst] in Hr. simplify_eq.
      eexists _, _, f. split; [reflexivity|].
      split; [by intros Hn; rewrite Hn in En; simplify_eq|].
      split; [by intros Hn; rewrite Hn in En|].
      split; [done|]. split; [done|].
      intros Hnode Hnone. rewrite Hnone. unfold Index.getSettings in Es.
      rewrite Hnode in Es. simplify_eq.
      cbn [JS.or_else JS.truthy Index.provider Index.defaultSettings String.eqb
             Ascii.eqb Bool.eqb andb].
      split; [reflexivity|apply detectProvider_known].
  - intros o tokenizer ->. reflexivity.
Qed.

(** X13.  The preset that [getCurrentPreset] builds always passes the guards
    of the rules, because absent [prompts] and [prompt_order] become empty
    arrays.  So when the host settings hold no prompts and no prompt order,
    [runAnalysis] under Node does not return the empty result: Token
    Thresholds reports the empty stable prefix, and the score is 97, or 87
    when the completion source is google. *)
Theorem runAnalysis_without_prompts (h : Index.Host) (s : Index.OaiSettings) :
  Index.IS_NODE h = true ->
  Index.oai_settings h = Some s ->
  (forall c, Index.getCurrentPreset h = Some c ->
             present (Some (Index.as_preset c))
             = Some (default [] (Index.prompts s), default [] (Index.prompt_order s)))
  /\ (default [] (Index.prompts s) = [] ->
      default [] (Index.prompt_order s) = [] ->
      exists r,
        fst (Index.runAnalysis h None None) = Some r
        /\ SpecResult.by_rule "token-thresholds" (AnalysisResult.findings r) <> []
        /\ AnalysisResult.score r
           = if bool_decide (Index.chat_completion_source s = Some "google"%string)
             then 87 else 97).
Proof.
  intros Hnode Hs. split.
  - intros c Hc. unfold Index.getCurrentPreset in Hc. rewrite Hs in Hc. by simplify_eq.
  - intros Hp Ho. unfold Index.runAnalysis, Index.getCurrentPreset, Index.getSettings.
    rewrite Hs, Hnode. cbn [fmap option_fmap option_map fst].
    eexists. split; [reflexivity|].
    unfold Index.as_preset. rewrite Hp, Ho.
    unfold Index.detectProvider. rewrite Hs.
    cbn [JS.or_else JS.truthy Index.provider Index.defaultSettings String.eqb
           Ascii.eqb Bool.eqb andb mbind option_bind].
    repeat case_bool_decide; simplify_eq; split; by vm_compute.
Qed.

(** ** ui/components.js *)

Section Escape.

Lemma replace_char_app (c : ascii) (by_ a b : string) :
  Components.replace_char c by_ (a +:+ b)
  = Components.replace_char c by_ a +:+ Components.replace_char c by_ b.
Proof.
  induction a as [|x a IH]; [done|]. rewrite app_cons.
  cbn [Components.replace_char]. rewrite IH.
  destruct (Ascii.eqb x c); [by rewrite app_assoc_s|by rewrite app_cons].
Qed.

Lemma escape_passes (s : string) :
  Components.replace_char (ascii_of_nat 34) "&quot;"
    (Components.replace_char ">" "&gt;"
       (Components.replace_char "<" "&lt;"
          (Components.replace_char "&" "&amp;" s)))
  = SpecComponents.escape_each s.
Proof.
  induction s as [|c s IH]; [done|].
  cbn [Components.replace_char SpecComponents.escape_each]. unfold SpecComponents.escape_char.
  destruct (Ascii.eqb_spec c "&") as [->|Hamp].
  { rewrite !replace_char_app, IH. reflexivity. }
  cbn [Components.replace_char].
  destruct (Ascii.eqb_spec c "<") as [->|Hlt].
  { rewrite !replace_char_app, IH. reflexivity. }
  cbn [Components.replace_char].
  destruct (Ascii.eqb_spec c ">") as [->|Hgt].
  { rewrite !replace_char_app, IH. reflexivity. }
  cbn [Components.replace_char].
  destruct (Ascii.eqb_spec c (ascii_of_nat 34)) as [->|Hq].
  { rewrite IH. reflexivity. }
  by rewrite IH.
Qed.

Lemma has_char_app (c : ascii) (a b : string) :
  SpecComponents.has_char c (a +:+ b) = (SpecComponents.has_char c a || SpecComponents.has_char c b)%bool.
Proof.
  induction a as [|x a IH]; [done|]. rewrite app_cons. cbn [SpecComponents.has_char].
  by rewrite IH, orb_assoc.
Qed.

Lemma escape_char_clean (c x : ascii) :
  x = "<"%char \/ x = ">"%char \/ x = ascii_of_nat 34 ->
  SpecComponents.has_char x (SpecComponents.escape_char c) = false.
Proof.
  intros Hx. unfold SpecComponents.escape_char.
  destruct (Ascii.eqb_spec c "&"); [by destruct Hx as [->|[->| ->]]|].
  destruct (Ascii.eqb_spec c "<"); [by destruct Hx as [->|[->| ->]]|].
  destruct (Ascii.eqb_spec c ">"); [by destruct Hx as [->|[->| ->]]|].
  destruct (Ascii.eqb_spec c (ascii_of_nat 34)); [by destruct Hx as [->|[->| ->]]|].
  cbn [SpecComponents.has_char]. rewrite orb_false_r. apply Ascii.eqb_neq.
  destruct Hx as [->|[->| ->]]; done.
Qed.

Lemma escape_each_clean (s : string) (x : ascii) :
  x = "<"%char \/ x = ">"%char \/ x = ascii_of_nat 34 ->
  SpecComponents.has_char x (SpecComponents.escape_each s) = false.
Proof.
  intros Hx. induction s as [|c s IH]; [done|].
  cbn [SpecComponents.escape_each]. by rewrite has_char_app, IH, escape_char_clean.
Qed.

Lemma escape_char_head (c : ascii) :
  exists h t, SpecComponents.escape_char c = String h t
    /\ (h = c \/ h = "&"%char)
    /\ (h = c -> c <> "&"%char -> t = EmptyString).
Proof.
  unfold SpecComponents.escape_char.
  destruct (Ascii.eqb_spec c "&") as [->|?]; [by eexists _, _; split; [reflexivity|split; [by left|]]|].
  destruct (Ascii.eqb_spec c "<") as [->|?];
    [eexists _, _; split; [reflexivity|split; [by right|by intros [=]]]|].
  destruct (Ascii.eqb_spec c ">") as [->|?];
    [eexists _, _; split; [reflexivity|split; [by right|by intros [=]]]|].
  destruct (Ascii.eqb_spec c (ascii_of_nat 34)) as [->|?];
    [eexists _, _; split; [reflexivity|split; [by right|by intros [=]]]|].
  eexists _, _. split; [reflexivity|]. split; [by left|done].
Qed.

Lemma escape_each_inj (s1 s2 : string) :
  SpecComponents.escape_each s1 = SpecComponents.escape_each s2 -> s1 = s2.
Proof.
  revert s2. induction s1 as [|a s1 IH]; intros [|b s2]; cbn [SpecComponents.escape_each].
  - done.
  - destruct (escape_char_head b) as (h & t & -> & _). by rewrite app_cons.
  - destruct (escape_char_head a) as (h & t & -> & _). by rewrite app_cons.
  - intros H. destruct (decide (a = b)) as [->|Hne].
    { apply String.app_inj in H. by rewrite (IH _ H). }
    exfalso. revert H. unfold SpecComponents.escape_char.
    destruct (Ascii.eqb_spec a "&") as [->|?]; destruct (Ascii.eqb_spec b "&") as [->|?];
      try done;
      repeat (match goal with
              | |- context [Ascii.eqb ?x ?y] => destruct (Ascii.eqb_spec x y) as [->|?]
              end); try done;
      rewrite ?app_cons, ?app_nil_l; intros [=]; congruence.
Qed.

End Escape.

(** X14.  [escapeHtml] returns the empty string for an absent or empty
    argument.  Otherwise its four replacements amount to one pass that writes
    [&amp;], [&lt;], [&gt;] or [&quot;] for the four characters and every
    other character unchanged: the later replacements never touch what the
    earlier ones wrote.  The result holds no [<], no [>] and no double quote,
    and two different texts never escape to the same result. *)
Theorem escapeHtml_spec :
  Components.escapeHtml None = EmptyString
  /\ Components.escapeHtml (Some EmptyString) = EmptyString
  /\ (forall s : string, Components.escapeHtml (Some s) = SpecComponents.escape_each s)
  /\ (forall s : string,
        SpecComponents.has_char "<" (Components.escapeHtml (Some s)) = false
        /\ SpecComponents.has_char ">" (Components.escapeHtml (Some s)) = false
        /\ SpecComponents.has_char (ascii_of_nat 34) (Components.escapeHtml (Some s)) = false)
  /\ (forall s1 s2 : string,
        Components.escapeHtml (Some s1) = Components.escapeHtml (Some s2) -> s1 = s2).
Proof.
  assert (H : forall s, Components.escapeHtml (Some s) = SpecComponents.escape_each s).
  { intros [|c s]; [done|]. unfold Components.escapeHtml.
    cbn [JS.truthy negb from_option id]. apply escape_passes. }
  split; [done|]. split; [done|]. split; [done|]. split.
  - intros s. rewrite H. repeat split; apply escape_each_clean; auto.
  - intros s1 s2. rewrite !H. apply escape_each_inj.
Qed.

Section Sorted.

Let compare (a b : Finding.t) : Z :=
  Components.order_or_3 (Finding.severity a) - Components.order_or_3 (Finding.severity b).

Lemma order_or_3_cases (severity : string) :
  (severity = "warning"%string /\ Components.order_or_3 severity = 1)
  \/ (severity = "info"%string /\ Components.order_or_3 severity = 2)
  \/ (severity <> "warning"%string /\ severity <> "info"%string
      /\ Components.order_or_3 severity = 3).
Proof.
  unfold Components.order_or_3, Components.order.
  destruct (String.eqb_spec severity "critical") as [->|?];
    [right; right; by repeat split|].
  destruct (String.eqb_spec severity "warning") as [->|?]; [by left|].
  destruct (String.eqb_spec severity "info") as [->|?]; [right; by left|].
  right; right. by repeat split.
Qed.

Lemma sort_place_skip (x : Finding.t) (a b : list Finding.t) :
  Forall (fun y => Components.order_or_3 (Finding.severity y)
                   < Components.order_or_3 (Finding.severity x)) a ->
  Components.sort_place compare x (a ++ b) = a ++ Components.sort_place compare x b.
Proof.
  induction 1 as [|y a Hy _ IH]; [done|].
  cbn [app Components.sort_place]. unfold compare at 1.
  destruct (Z.leb_spec
              (Components.order_or_3 (Finding.severity x)
               - Components.order_or_3 (Finding.severity y)) 0); [lia|].
  by rewrite IH.
Qed.

Lemma sort_place_here (x : Finding.t) (b : list Finding.t) :
  Forall (fun y => Components.order_or_3 (Finding.severity x)
                   <= Components.order_or_3 (Finding.severity y)) b ->
  Components.sort_place compare x b = x :: b.
Proof.
  destruct 1 as [|y b Hy _]; [done|].
  cbn [Components.sort_place]. unfold compare.
  by destruct (Z.leb_spec
                 (Components.order_or_3 (Finding.severity x)
                  - Components.order_or_3 (Finding.severity y)) 0); [|lia].
Qed.

Lemma group_rank (findings : list Finding.t) :
  Forall (fun y => Components.order_or_3 (Finding.severity y) = 1)
    (SpecComponents.warnings findings)
  /\ Forall (fun y => Components.order_or_3 (Finding.severity y) = 2)
       (SpecComponents.infos findings)
  /\ Forall (fun y => Components.order_or_3 (Finding.severity y) = 3)
       (SpecComponents.others findings).
Proof.
  unfold SpecComponents.warnings, SpecComponents.infos, SpecComponents.others.
  repeat split; apply Forall_forall; intros y [Hy _]%list_elem_of_filter;
    destruct (order_or_3_cases (Finding.severity y)) as [[? ?]|[[? ?]|(? & ? & ?)]];
    try done; try congruence; by destruct Hy.
Qed.

Lemma sorted_groups (findings : list Finding.t) :
  Components.sorted findings
  = SpecComponents.warnings findings ++ SpecComponents.infos findings
      ++ SpecComponents.others findings.
Proof.
  unfold Components.sorted. fold compare.
  induction findings as [|x l IH]; [done|].
  cbn [Components.sort]. rewrite IH.
  destruct (group_rank l) as (Hw & Hi & Ho).
  unfold SpecComponents.warnings, SpecComponents.infos, SpecComponents.others in *.
  rewrite !filter_cons.
  destruct (order_or_3_cases (Finding.severity x)) as [[E R]|[[E R]|(N1 & N2 & R)]].
  - rewrite decide_True, decide_False, decide_False by (rewrite E; try done; by intros [? _]).
    apply sort_place_here. repeat (apply Forall_app; split);
      (eapply Forall_impl; [eassumption|]); intros y Hy; cbv beta in *; lia.
  - rewrite decide_False, decide_True, decide_False
      by (rewrite E; try done; by intros [_ ?]).
    rewrite sort_place_skip by (eapply Forall_impl; [eassumption|]; intros y Hy; cbv beta in *; lia).
    f_equal. apply sort_place_here. repeat (apply Forall_app; split);
      (eapply Forall_impl; [eassumption|]); intros y Hy; cbv beta in *; lia.
  - rewrite decide_False, decide_False, decide_True by done.
    rewrite sort_place_skip by (eapply Forall_impl; [eassumption|]; intros y Hy; cbv beta in *; lia).
    f_equal.
    rewrite sort_place_skip by (eapply Forall_impl; [eassumption|]; intros y Hy; cbv beta in *; lia).
    f_equal. apply sort_place_here.
    eapply Forall_impl; [eassumption|]. intros y Hy; cbv beta in *; lia.
Qed.

End Sorted.

(** X15.  When there are findings, each with one of the three severities
    (as those of the analysis are), [renderFindingsList] renders the warnings
    first, then the infos, and the critical findings last, each group in the
    order of the analysis: the rank 0 that the table gives to "critical" is
    falsy, so the fallback 3 replaces it.  No finding is lost or repeated. *)
Theorem renderFindingsList_order (findings : list Finding.t) :
  findings <> [] ->
  Forall (fun f => SpecResult.known_severity (Finding.severity f)) findings ->
  Components.sorted findings
  = SpecComponents.warnings findings ++ SpecComponents.infos findings
      ++ SpecComponents.criticals findings
  /\ Components.sorted findings ≡ₚ findings.
Proof.
  intros _ Hknown. split.
  - rewrite sorted_groups. do 2 f_equal.
    unfold SpecComponents.others, SpecComponents.criticals.
    induction Hknown as [|x l Hx _ IH]; [done|].
    rewrite !filter_cons, IH.
    destruct Hx as [E|[E|E]]; rewrite E.
    + by rewrite !decide_True.
    + by rewrite !decide_False by (try done; by intros [? _]).
    + by rewrite !decide_False by (try done; by intros [_ ?]).
  - clear Hknown. unfold Components.sorted. induction findings as [|x l IH]; [done|].
    cbn [Components.sort]. rewrite <- IH at 2.
    generalize (Components.sort
                  (fun a b => Components.order_or_3 (Finding.severity a)
                              - Components.order_or_3 (Finding.severity b)) l).
    intros s. induction s as [|y s IHs]; [done|].
    cbn [Components.sort_place]. destruct (_ <=? 0); [done|].
    rewrite IHs. apply Permutation_swap.
Qed.

(** X16.  The label shown for a score: a list without findings is labelled
    Excellent; one critical finding is enough to lose that label, two leave
    at best Needs Work, and three or more give Poor. *)
Theorem getScoreLabel_of_score (findings : list Finding.t) :
  let label := fst (Components.getScoreLabel (calculateScore findings)) in
  let criticals := count_severity "critical" findings in
  (findings = [] -> label = "Excellent"%string)
  /\ (1 <= criticals -> label <> "Excellent"%string)
  /\ (2 <= criticals -> label = "Needs Work"%string \/ label = "Poor"%string)
  /\ (3 <= criticals -> label = "Poor"%string).
Proof.
  intros label criticals. unfold label, Components.getScoreLabel.
  rewrite calculateScore_closed. fold criticals.
  pose proof (count_severity_nonneg "warning" findings).
  pose proof (count_severity_nonneg "info" findings).
  repeat split.
  - intros ->. reflexivity.
  - intros Hc. destruct (Z.geb_spec (Z.max 0 (Z.min 100
      (100 - 20 * criticals - 10 * count_severity "warning" findings
         - 3 * count_severity "info" findings))) 90); [lia|].
    repeat (match goal with |- context [if ?b then _ else _] => destruct b end); done.
  - intros Hc.
    repeat (match goal with
            | |- context [if ?a >=? ?b then _ else _] => destruct (Z.geb_spec a b)
            end); try lia; auto.
  - intros Hc.
    repeat (match goal with
            | |- context [if ?a >=? ?b then _ else _] => destruct (Z.geb_spec a b)
            end); try lia; auto.
Qed.

(** ** What the stable prefix is made of *)

Section PrefixContents.

Lemma stableContent_app (m : gmap string Prompt.t) (l1 l2 : list OrderRecord.t) :
  TokenThresholds.stableContent m (l1 ++ l2)
  = TokenThresholds.stableContent m l1 ++ TokenThresholds.stableContent m l2.
Proof.
  rewrite !stableContent_thresholds. apply omap_app.
Qed.

Lemma filter_enabled_app (l1 l2 : list OrderRecord.t) :
  List.filter OrderRecord.enabled (l1 ++ l2)
  = List.filter OrderRecord.enabled l1 ++ List.filter OrderRecord.enabled l2.
Proof. apply List.filter_app. Qed.

Lemma join_length (l : list string) :
  JS.slen (JS.join JS.newline l)
  = foldr (fun s n => JS.slen s + n) 0 l + Z.max 0 (JS.alen l - 1).
Proof.
  unfold JS.slen, JS.alen. induction l as [|x [|y l] IH].
  - reflexivity.
  - cbn [JS.join foldr List.length]. lia.
  - cbn [JS.join foldr List.length] in *. rewrite !length_app_s.
    change (String.length JS.newline) with 1%nat. lia.
Qed.

End PrefixContents.

(** X17.  The stable prefix is gathered from the whole effective sequence,
    not from its beginning: an entry that is volatile, or whose record is not
    enabled, contributes nothing wherever it stands, so moving it (here:
    taking it out of the middle of the order) leaves the estimate and the
    finding of Token Thresholds unchanged.  Stable entries that come after
    volatile content are counted like those before it. *)
Theorem checkTokenThresholds_ignores_position
    (prompts : list Prompt.t) (squash : option bool) (options : Options.t)
    (before after : list OrderRecord.t) (v : OrderRecord.t) :
  OrderRecord.enabled v = false
  \/ isVolatile (OrderRecord.identifier v)
       (content_of (promptMap prompts !! OrderRecord.identifier v)) = true ->
  let run order :=
    TokenThresholds.checkTokenThresholds
      (Some {| Preset.prompts := Some prompts;
               Preset.prompt_order := Some (map OrderElem.Rec order);
               Preset.squash_system_messages := squash |}) options in
  run (before ++ v :: after) = run (before ++ after)
  /\ run (before ++ v :: after) = run (before ++ after ++ [v]).
Proof.
  intros Hv run.
  assert (Hone : TokenThresholds.stableContent (promptMap prompts)
                   (List.filter OrderRecord.enabled [v]) = []).
  { cbn [List.filter]. destruct (OrderRecord.enabled v) eqn:E; [|done].
    destruct Hv as [?|Hv]; [done|].
    cbn [TokenThresholds.stableContent]. by rewrite Hv. }
  assert (Hest : forall tk order1 order2,
            TokenThresholds.stableContent (promptMap prompts)
              (List.filter OrderRecord.enabled order1)
            = TokenThresholds.stableContent (promptMap prompts)
                (List.filter OrderRecord.enabled order2) ->
            TokenThresholds.estimatedTokens prompts (map OrderElem.Rec order1) tk
            = TokenThresholds.estimatedTokens prompts (map OrderElem.Rec order2) tk).
  { intros tk o1 o2 H. unfold TokenThresholds.estimatedTokens.
    by rewrite !enabledEntries_flat, H. }
  assert (Hrun : forall order1 order2,
            TokenThresholds.stableContent (promptMap prompts)
              (List.filter OrderRecord.enabled order1)
            = TokenThresholds.stableContent (promptMap prompts)
                (List.filter OrderRecord.enabled order2) ->
            run order1 = run order2).
  { intros o1 o2 H. unfold run, TokenThresholds.checkTokenThresholds.
    cbn [present Preset.prompts Preset.prompt_order]. by rewrite (Hest _ _ _ H). }
  split; apply Hrun.
  - change (v :: after) with ([v] ++ after).
    rewrite !filter_enabled_app, !stableContent_app, Hone. reflexivity.
  - change (v :: after) with ([v] ++ after).
    rewrite !filter_enabled_app, !stableContent_app, Hone.
    by rewrite List.app_nil_r.
Qed.

(** X18.  With the default tokenizer the estimate of the stable prefix is the
    ceiling of a quarter of the lengths of the stable contents added up, plus
    one for each line feed between them. *)
Theorem estimatedTokens_default (prompts : list Prompt.t) (prompt_order : list OrderElem.t) :
  let contents := SpecProvider.stable_contents prompts prompt_order in
  let total :=
    foldr (fun s n => JS.slen s + n) 0 contents + Z.max 0 (JS.alen contents - 1) in
  let estimate :=
    TokenThresholds.estimatedTokens prompts prompt_order TokenThresholds.defaultTokenizer in
  total <= 4 * estimate < total + 4
  /\ (contents = [] -> estimate = 0)
  /\ ProviderSpecific.getStablePrefixTokens prompts prompt_order
       ProviderSpecific.defaultTokenizer = estimate.
Proof.
  intros contents total estimate.
  assert (He : estimate = (total + 3) / 4).
  { unfold estimate. rewrite estimatedTokens_stable_contents. fold contents.
    unfold TokenThresholds.defaultTokenizer, JS.ceil_div4. by rewrite join_length. }
  split; [|split].
  - rewrite He. pose proof (Z.div_mod (total + 3) 4 ltac:(lia)).
    pose proof (Z.mod_pos_bound (total + 3) 4 ltac:(lia)). lia.
  - intros Hnil. rewrite He. unfold total. rewrite Hnil. reflexivity.
  - rewrite getStablePrefixTokens_estimatedTokens. reflexivity.
Qed.

(** X19.  Without a provider option the analysis is the analysis for
    anthropic with the findings of Provider-Specific left out: Token
    Thresholds falls back to anthropic under that very name, the three other
    rules do not read the options, and Provider-Specific stays silent. *)
Theorem analyze_without_provider (preset : option Preset.t) (tokenizer : option (string -> Z)) :
  let absent := {| Options.provider := None; Options.tokenizer := tokenizer |} in
  let anthropic :=
    {| Options.provider := Some "anthropic"%string; Options.tokenizer := tokenizer |} in
  AnalysisResult.findings (analyze preset anthropic)
  = AnalysisResult.findings (analyze preset absent)
      ++ ProviderSpecific.checkProviderSpecific preset anthropic
  /\ ProviderSpecific.checkProviderSpecific preset absent = []
  /\ AnalysisResult.score (analyze preset anthropic)
     <= AnalysisResult.score (analyze preset absent).
Proof.
  intros absent anthropic.
  assert (Hps : ProviderSpecific.checkProviderSpecific preset absent = []).
  { unfold ProviderSpecific.checkProviderSpecific.
    destruct preset as [p|]; [|done]. by destruct (present (Some p)) as [[? ?]|]. }
  assert (Heq : AnalysisResult.findings (analyze preset anthropic)
                = AnalysisResult.findings (analyze preset absent)
                    ++ ProviderSpecific.checkProviderSpecific preset anthropic).
  { unfold analyze. cbn [AnalysisResult.findings]. rewrite Hps.
    rewrite List.app_nil_r, <- !List.app_assoc. reflexivity. }
  split; [done|]. split; [done|].
  change (AnalysisResult.score (analyze preset anthropic))
    with (calculateScore (AnalysisResult.findings (analyze preset anthropic))).
  change (AnalysisResult.score (analyze preset absent))
    with (calculateScore (AnalysisResult.findings (analyze preset absent))).
  rewrite Heq. apply calculateScore_app_le.
Qed.

(** ** The macro text a finding reports *)

Section Reported.

Lemma char_eq_ci_colon (c : ascii) :
  Regex.char_eq_ci ":" c = true -> c = ":"%char.
Proof. destruct c as [[] [] [] [] [] [] [] []]; vm_compute; congruence. Qed.

Lemma char_eq_ci_closing (c : ascii) :
  Regex.char_eq_ci "}" c = true -> c = "}"%char.
Proof. destruct c as [[] [] [] [] [] [] [] []]; vm_compute; congruence. Qed.

Lemma eq_ci_terminator (term t : string) :
  term ∈ Regex.TERMINATORS -> Spec.eq_ci term t = true -> t = term.
Proof.
  unfold Regex.TERMINATORS. rewrite !elem_of_cons, elem_of_nil.
  intros [->|[->|[]]]; destruct t as [|a [|b [|c t]]]; simpl; try done;
    rewrite ?andb_false_r; try done.
  - intros [Ha [Hb _]%andb_true_iff]%andb_true_iff.
    by rewrite (char_eq_ci_colon _ Ha), (char_eq_ci_colon _ Hb).
  - intros [Ha [Hb _]%andb_true_iff]%andb_true_iff.
    by rewrite (char_eq_ci_closing _ Ha), (char_eq_ci_closing _ Hb).
Qed.

Lemma app_inv_tail_s (a b t : string) : a +:+ t = b +:+ t -> a = b.
Proof.
  revert b. induction a as [|x a IH]; intros [|y b]; rewrite ?app_cons, ?app_nil_l.
  - done.
  - intros H%(f_equal String.length). simpl in H. rewrite length_app_s in H. lia.
  - intros H%(f_equal String.length). simpl in H. rewrite length_app_s in H. lia.
  - intros H. injection H as -> H. by rewrite (IH _ H).
Qed.

Lemma occ_from_capture (s : string) (pos p : nat) (cap : string) :
  (p, cap) ∈ Spec.occ_from s pos ->
  exists j len, (j <= String.length s)%nat
                /\ Regex.match_here (Regex.drop_chars j s) = Some (cap, len).
Proof.
  revert pos. induction s as [|c s IH]; intros pos; cbn [Spec.occ_from];
    rewrite elem_of_app; intros [H|H].
  - destruct (Regex.match_here EmptyString) as [[cp ln]|] eqn:E;
      [by vm_compute in E|by apply elem_of_nil in H].
  - by apply elem_of_nil in H.
  - destruct (Regex.match_here (String c s)) as [[cp ln]|] eqn:E;
      [|by apply elem_of_nil in H].
    apply list_elem_of_singleton in H. simplify_eq.
    exists O, ln. split; [simpl; lia|done].
  - apply IH in H as (j & len & Hj & Hm).
    exists (S j), len. split; [simpl; lia|done].
Qed.

End Reported.

(** X20.  The macro a Macro Placement finding reports is the name as the
    content spells it, between two pairs of braces: the name is one of the
    nine names up to case, the content of the affected prompt holds it after
    two opening braces and before two colons or two closing braces, and any
    arguments of the macro are left out of the report. *)
Theorem checkMacroPlacement_macroFound
    (preset : Preset.t) (options : Options.t)
    (prompts : list Prompt.t) (prompt_order : list OrderElem.t) (f : Finding.t) :
  present (Some preset) = Some (prompts, prompt_order) ->
  f ∈ MacroPlacement.checkMacroPlacement (Some preset) options ->
  exists (name spelled term content before after : string)
         (position total : Z) (percent : Q) (prompt : Prompt.t),
    Finding.meta f
    = Meta.MacroPlacement ("{{" +:+ spelled +:+ "}}") position total percent
    /\ name ∈ Regex.MACRO_NAMES /\ Spec.eq_ci name spelled = true
    /\ (term = "::"%string \/ term = "}}"%string)
    /\ promptMap prompts !! Finding.affectedEntry f = Some prompt
    /\ Prompt.content prompt = Some content
    /\ content = before +:+ "{{" +:+ spelled +:+ term +:+ after.
Proof.
  intros Hpresent Hf. unfold MacroPlacement.checkMacroPlacement in Hf.
  rewrite Hpresent in Hf.
  destruct (_ =? 0)%nat; [by apply elem_of_nil in Hf|].
  apply elem_of_concat in Hf as (l & Hf & Hl).
  apply list_elem_of_lookup_1 in Hl as (i & Hi). rewrite list_lookup_imap in Hi.
  destruct (enabledEntries prompt_order !! i) as [entry|] eqn:Ei; [|done].
  simpl in Hi. simplify_eq.
  apply scan_entry_elem in Hf as (prompt & content & k & p & cap & Hp & Hc & Ho & ->).
  apply list_elem_of_lookup_2 in Ho.
  apply occ_from_capture in Ho as (j & len & Hj & Hm).
  destruct (drop_chars_split j content Hj) as (before & Hsplit & _).
  apply match_here_sound in Hm as (name & term & t & rest & Hn & Ht & Hs & Hcap & Htt & _).
  apply (eq_ci_terminator _ _ Ht) in Htt as ->.
  exists name, cap, term, content, before, rest.
  eexists _, _, _, prompt.
  split; [reflexivity|]. repeat split; try done.
  - revert Ht. unfold Regex.TERMINATORS. rewrite !elem_of_cons, elem_of_nil. tauto.
  - rewrite Hsplit at 1. by rewrite Hs.
Qed.

(** ** Rules that read the order as a set *)

Section OrderAsSet.

Lemma enabledIdentifiers_ext (o1 o2 : list OrderElem.t) :
  (forall identifier : string,
     identifier ∈ map OrderRecord.identifier (enabledEntries o1)
     <-> identifier ∈ map OrderRecord.identifier (enabledEntries o2)) ->
  InjectionDepth.enabledIdentifiers o1 = InjectionDepth.enabledIdentifiers o2.
Proof.
  intros H. unfold InjectionDepth.enabledIdentifiers. apply set_eq. intros x.
  rewrite !elem_of_list_to_set. apply H.
Qed.

End OrderAsSet.

(** X21.  Injection Depth and the check for anthropic walk the prompts, not
    the order: of the order they keep only the set of identifiers of its
    enabled records.  Two orders with the same enabled identifiers, in
    whatever sequence and however often repeated, give the same findings of
    both. *)
Theorem order_read_as_set
    (prompts : list Prompt.t) (squash : option bool) (options : Options.t)
    (o1 o2 : list OrderElem.t) :
  (forall identifier : string,
     identifier ∈ map OrderRecord.identifier (enabledEntries o1)
     <-> identifier ∈ map OrderRecord.identifier (enabledEntries o2)) ->
  let preset prompt_order :=
    Some {| Preset.prompts := Some prompts; Preset.prompt_order := Some prompt_order;
            Preset.squash_system_messages := squash |} in
  InjectionDepth.checkInjectionDepth (preset o1) options
  = InjectionDepth.checkInjectionDepth (preset o2) options
  /\ (Options.provider options = Some "anthropic"%string ->
      ProviderSpecific.checkProviderSpecific (preset o1) options
      = ProviderSpecific.checkProviderSpecific (preset o2) options).
Proof.
  intros H preset. apply enabledIdentifiers_ext in H. split.
  - unfold InjectionDepth.checkInjectionDepth, preset.
    cbn [present Preset.prompts Preset.prompt_order]. by rewrite H.
  - intros Hp. unfold ProviderSpecific.checkProviderSpecific, preset.
    cbn [present Preset.prompts Preset.prompt_order Preset.squash_system_messages].
    rewrite Hp. cbn [JS.truthy negb from_option id].
    change (String.eqb "anthropic" "anthropic") with true. cbv iota.
    unfold ProviderSpecific.checkAnthropic, ProviderSpecific.systemPrompts.
    unfold InjectionDepth.enabledIdentifiers in H. by rewrite H.
Qed.

(** X22.  For a volatile entry at position [i] of the effective sequence:
    with fewer than two stable entries after it, Prompt Ordering has no
    finding about position [i]; with two or more it has exactly one, of
    severity warning, about that entry, recording the number of stable
    entries after it and their identifiers.  Its description names the
    entry (by the name of its prompt, or by its identifier when it has none)
    and the number, and it lists the names of the stable entries when each
    of them has a prompt or an identifier other than [constructor] and
    [__proto__], no prompt being identified [__proto__]. *)
Theorem checkPromptOrdering_volatile_entry
    (preset : Preset.t) (options : Options.t)
    (prompts : list Prompt.t) (prompt_order : list OrderElem.t)
    (i : nat) (c : PromptOrdering.classified) :
  present (Some preset) = Some (prompts, prompt_order) ->
  let classified :=
    imap (PromptOrdering.classify (promptMap prompts)) (enabledEntries prompt_order) in
  let stableAfter :=
    List.filter (fun s => negb (PromptOrdering.volatile s)) (drop (S i) classified) in
  let about_i :=
    filter (fun f => SpecFindings.ordering_position f = Some i)
      (PromptOrdering.checkPromptOrdering (Some preset) options) in
  let name_of (s : PromptOrdering.classified) :=
    SpecFindings.entry_name (promptMap prompts) (PromptOrdering.entry s) in
  classified !! i = Some c ->
  PromptOrdering.volatile c = true ->
  ((List.length stableAfter < 2)%nat -> about_i = [])
  /\ ((2 <= List.length stableAfter)%nat ->
      exists f,
        about_i = [f]
        /\ Finding.rule f = "prompt-ordering"%string
        /\ Finding.severity f = "warning"%string
        /\ Finding.affectedEntry f = OrderRecord.identifier (PromptOrdering.entry c)
        /\ Finding.meta f
           = Meta.PromptOrdering (Z.of_nat i) (JS.alen stableAfter)
               (map (fun s => OrderRecord.identifier (PromptOrdering.entry s)) stableAfter)
        /\ SpecFindings.mentions (Finding.description f) (name_of c)
        /\ SpecFindings.mentions (Finding.description f) (JS.num (JS.alen stableAfter))
        /\ (Forall (fun s => SpecFindings.plainly_named (promptMap prompts)
                               (PromptOrdering.entry s)) stableAfter ->
            SpecFindings.mentions (Finding.description f)
              (JS.join ", " (map name_of stableAfter)))).
Proof.
  intros Hpresent classified stableAfter about_i name_of Hi Hv.
  assert (Habout : about_i
    = if (List.length stableAfter <? 2)%nat then []
      else [PromptOrdering.finding i c stableAfter]).
  { unfold about_i, PromptOrdering.checkPromptOrdering. rewrite Hpresent.
    destruct (Nat.eqb_spec (List.length (enabledEntries prompt_order)) 0) as [E|_].
    { apply nil_length_inv in E. unfold classified in Hi. by rewrite E in Hi. }
    fold classified.
    pose proof (ordering_loop_lookup classified O i c Hi) as H.
    rewrite Nat.add_0_l in H. by rewrite H, Hv. }
  assert (Hc : PromptOrdering.display_name c = Some (name_of c)).
  { destruct (classified_elem _ _ c (list_elem_of_lookup_2 _ _ _ Hi)) as (j & e & ->).
    by apply volatile_plainly_named. }
  split.
  - intros Hlt. rewrite Habout. by destruct (Nat.ltb_spec (List.length stableAfter) 2); [|lia].
  - intros Hge. exists (PromptOrdering.finding i c stableAfter).
    split; [rewrite Habout; by destruct (Nat.ltb_spec (List.length stableAfter) 2); [lia|]|].
    split; [reflexivity|]. split; [reflexivity|]. split; [reflexivity|].
    split; [reflexivity|].
    unfold PromptOrdering.finding. cbn [Finding.description].
    split; [|split].
    + rewrite Hc. cbn [JS.template from_option id]. apply mentions_skip, mentions_here.
    + do 6 apply mentions_skip. apply mentions_here.
    + intros Hplain.
      rewrite (joined_names (promptMap prompts)).
      * do 8 apply mentions_skip. apply mentions_here.
      * apply Forall_forall. intros s Hs.
        rewrite Forall_forall in Hplain. specialize (Hplain s Hs).
        assert (Hin : s ∈ classified).
        { apply list_elem_of_In, filter_In in Hs as [Hs _].
          apply list_elem_of_In in Hs. by eapply (subseteq_drop (S i)). }
        destruct (classified_elem _ _ s Hin) as (j & e & ->).
        by apply display_name_plain.
Qed.

(** X23.  The thresholds are 1024 for anthropic and openai and 4096 for
    google.  When the provider in use (anthropic when the option is absent
    or empty) is not the name of a member that plain objects inherit, the
    threshold is a number, 1024 unless the provider is google, and for a
    preset with prompts and prompt order: an estimate of the stable prefix
    at or above the threshold gives no finding; an estimate below it gives
    exactly one, of severity warning when estimate / threshold >= 0.9 and
    info otherwise, whose meta holds the estimate, the threshold, the
    deficit and the ratio.  The default tokenizer is the ceiling of a
    quarter of the length. *)
Theorem checkTokenThresholds_spec
    (preset : Preset.t) (options : Options.t)
    (prompts : list Prompt.t) (prompt_order : list OrderElem.t) :
  present (Some preset) = Some (prompts, prompt_order) ->
  let provider := JS.or_else (Options.provider options) "anthropic" in
  JS.inherits provider = false ->
  let tokenizer := default TokenThresholds.defaultTokenizer (Options.tokenizer options) in
  let estimate := TokenThresholds.estimatedTokens prompts prompt_order tokenizer in
  (TokenThresholds.threshold_of "anthropic" = TokenThresholds.Tokens 1024
   /\ TokenThresholds.threshold_of "openai" = TokenThresholds.Tokens 1024
   /\ TokenThresholds.threshold_of "google" = TokenThresholds.Tokens 4096)
  /\ (exists threshold,
        let ratio := (inject_Z estimate / inject_Z threshold)%Q in
        TokenThresholds.threshold_of provider = TokenThresholds.Tokens threshold
        /\ (Options.provider options = None -> threshold = 1024)
        /\ (provider <> "anthropic"%string -> provider <> "openai"%string ->
            provider <> "google"%string -> threshold = 1024)
        /\ (threshold <= estimate ->
            TokenThresholds.checkTokenThresholds (Some preset) options = [])
        /\ (estimate < threshold ->
            exists f,
              TokenThresholds.checkTokenThresholds (Some preset) options = [f]
              /\ Finding.rule f = "token-thresholds"%string
              /\ ((9 # 10 <= ratio)%Q -> Finding.severity f = "warning"%string)
              /\ (~ (9 # 10 <= ratio)%Q -> Finding.severity f = "info"%string)
              /\ Finding.meta f
                 = Meta.TokenThresholds estimate threshold (threshold - estimate) ratio))
  /\ (forall text : string,
        Options.tokenizer options = None ->
        Z.of_nat (String.length text) <= 4 * tokenizer text
          < Z.of_nat (String.length text) + 4).
Proof.
  intros Hpresent provider Hplain tokenizer estimate.
  split; [apply threshold_of_known|]. split.
  - assert (Ht : exists threshold,
               TokenThresholds.threshold_of provider = TokenThresholds.Tokens threshold
               /\ (threshold = 1024 \/ threshold = 4096)).
    { destruct (threshold_of_cases provider) as [[_ [H|H]]|[H _]]; [| |congruence].
      - exists 1024. split; [done|by left].
      - exists 4096. split; [done|by right]. }
    destruct Ht as (threshold & Ht & Hval). exists threshold. intros ratio.
    split; [done|]. split; [|split; [|split]].
    + intros Hnone. unfold provider in Ht. rewrite Hnone in Ht.
      cbn [JS.or_else JS.truthy] in Ht.
      destruct threshold_of_known as (Ha & _). rewrite Ha in Ht. by simplify_eq.
    + intros Ha Ho Hg. rewrite (threshold_of_other provider Ha Ho Hg Hplain) in Ht.
      by simplify_eq.
    + intros Hge. unfold TokenThresholds.checkTokenThresholds. rewrite Hpresent.
      fold provider. rewrite Ht. fold tokenizer. fold estimate.
      destruct (Z.geb_spec estimate threshold); [done|lia].
    + intros Hlt. exists (TokenThresholds.finding provider estimate threshold).
      split.
      { unfold TokenThresholds.checkTokenThresholds. rewrite Hpresent.
        fold provider. rewrite Ht. fold tokenizer. fold estimate.
        destruct (Z.geb_spec estimate threshold); [lia|done]. }
      split; [reflexivity|].
      unfold TokenThresholds.finding. cbn [Finding.severity Finding.meta].
      rewrite severity_of_ratio. fold ratio.
      split; [|split; [|reflexivity]].
      * intros H. apply Qle_bool_iff in H. by rewrite H.
      * intros H. destruct (Qle_bool (9 # 10) ratio) eqn:E; [|done].
        by apply Qle_bool_iff in E.
  - intros text Hnone. unfold tokenizer. rewrite Hnone. apply defaultTokenizer_ceil.
Qed.

(** ** The further properties at sample inputs *)

Lemma calculateScore_order_independent_witness :
  calculateScore [Samples.finding_of "critical"; Samples.finding_of "info"]
  = calculateScore [Samples.finding_of "info"; Samples.finding_of "critical"].
Proof.
  apply (proj1 calculateScore_order_independent). apply Permutation_swap.
Defined.

Lemma checkMacroPlacement_entries_witness :
  exists (i : nat) (entry : OrderRecord.t),
    enabledEntries Samples.macros_order !! i = Some entry
    /\ OrderRecord.identifier entry = "main"%string
    /\ isVolatile "main" (Some "Pick {{random::a,b}} on {{date}}."%string) = true.
Proof.
  pose (f := MacroPlacement.finding (Samples.on "main")
               (Samples.prompt "main" "Main" "Pick {{random::a,b}} on {{date}}.")
               0 6 0 "random").
  assert (Hin : f ∈ MacroPlacement.checkMacroPlacement (Some Samples.macros)
                      Samples.no_options) by (vm_compute; left).
  destruct (checkMacroPlacement_entries Samples.macros Samples.no_options
              Samples.macros_prompts Samples.macros_order f eq_refl Hin)
    as (i & entry & prompt & Hi & Hp & _ & _ & Ha & Hv & _).
  exists i, entry. split; [done|]. split; [by rewrite <- Ha|].
  reflexivity.
Defined.

Lemma checkPromptOrdering_findings_witness :
  PromptOrdering.checkPromptOrdering (Some Samples.interleaved) Samples.no_options <> [].
Proof.
  destruct (checkPromptOrdering_findings Samples.interleaved Samples.no_options
              Samples.interleaved_prompts Samples.interleaved_order eq_refl)
    as [_ [Hsilent _]].
  intros Hnil.
  specialize (Hsilent Hnil 1%nat
                (PromptOrdering.classify (promptMap Samples.interleaved_prompts) 1
                   (Samples.on "chatHistory"))).
  assert (Hlt : (2 < 2)%nat); [|lia].
  apply Hsilent; vm_compute; reflexivity.
Defined.

Lemma checkTokenThresholds_in_code_units_witness :
  TokenThresholds.checkTokenThresholds (Some Samples.interleaved) Samples.no_options <> [].
Proof.
  destruct (checkTokenThresholds_in_code_units Samples.interleaved Samples.no_options
              Samples.interleaved_prompts Samples.interleaved_order eq_refl eq_refl eq_refl)
    as (_ & H1024 & _).
  destruct (H1024 eq_refl) as [Hiff _].
  intros Hnil. apply Hiff in Hnil. vm_compute in Hnil. by apply Hnil.
Defined.

Lemma threshold_rules_together_witness :
  AnalysisResult.score (analyze (Some Samples.interleaved) (Samples.for_provider "google"))
  <= 87.
Proof.
  destruct (threshold_rules_together Samples.interleaved (Samples.for_provider "google")
              Samples.interleaved_prompts Samples.interleaved_order eq_refl)
    as (_ & Hgoogle).
  destruct (Hgoogle eq_refl) as [_ Hbelow].
  destruct Hbelow as (f1 & f2 & _ & _ & _ & Hscore); [vm_compute; reflexivity|].
  exact Hscore.
Defined.

Lemma checkMacroPlacement_silent_witness :
  ~ Spec.macro_at "You are a narrator." 8.
Proof.
  apply (proj1 (checkMacroPlacement_silent Samples.interleaved Samples.no_options
                  Samples.interleaved_prompts Samples.interleaved_order eq_refl)
           ltac:(vm_compute; reflexivity)
           (Samples.on "main") (Samples.prompt "main" "Main" "You are a narrator.")).
  - vm_compute. left.
  - vm_compute. reflexivity.
  - reflexivity.
Defined.

Lemma runAnalysis_result_witness :
  fst (Index.runAnalysis HostSamples.node None None) = None.
Proof.
  apply (proj1 (runAnalysis_result HostSamples.node None None)). by left.
Defined.

Lemma runAnalysis_without_prompts_witness :
  exists r,
    fst (Index.runAnalysis HostSamples.node_with_settings None None) = Some r
    /\ AnalysisResult.score r = 97.
Proof.
  destruct (runAnalysis_without_prompts HostSamples.node_with_settings
              HostSamples.bare_settings eq_refl eq_refl) as [_ H].
  destruct (H eq_refl eq_refl) as (r & Hr & _ & Hs).
  exists r. split; [done|]. rewrite Hs. reflexivity.
Defined.

Lemma checkTokenThresholds_ignores_position_witness :
  TokenThresholds.checkTokenThresholds (Some Samples.interleaved) Samples.no_options
  = TokenThresholds.checkTokenThresholds
      (Some {| Preset.prompts := Some Samples.interleaved_prompts;
               Preset.prompt_order :=
                 Some (map OrderElem.Rec
                         [Samples.on "main"; Samples.on "charDescription";
                          Samples.on "scenario"; Samples.on "chatHistory"]);
               Preset.squash_system_messages := Some true |}) Samples.no_options.
Proof.
  apply (proj2 (checkTokenThresholds_ignores_position Samples.interleaved_prompts
                  (Some true) Samples.no_options [Samples.on "main"]
                  [Samples.on "charDescription"; Samples.on "scenario"]
                  (Samples.on "chatHistory") ltac:(right; vm_compute; reflexivity))).
Defined.

Lemma checkMacroPlacement_macroFound_witness :
  exists (name term content before after : string) (prompt : Prompt.t),
    name ∈ Regex.MACRO_NAMES /\ Spec.eq_ci name "random" = true
    /\ (term = "::"%string \/ term = "}}"%string)
    /\ promptMap Samples.macros_prompts !! "main"%string = Some prompt
    /\ Prompt.content prompt = Some content
    /\ content = before +:+ "{{" +:+ "random" +:+ term +:+ after.
Proof.
  pose (f := MacroPlacement.finding (Samples.on "main")
               (Samples.prompt "main" "Main" "Pick {{random::a,b}} on {{date}}.")
               0 6 0 "random").
  assert (Hin : f ∈ MacroPlacement.checkMacroPlacement (Some Samples.macros)
                      Samples.no_options) by (vm_compute; left).
  destruct (checkMacroPlacement_macroFound Samples.macros Samples.no_options
              Samples.macros_prompts Samples.macros_order f eq_refl Hin)
    as (name & spelled & term & content & before & after & position & total
        & percent & prompt & Hmeta & Hn & Hci & Hterm & Hp & Hc & Hs).
  assert (Hsp : spelled = "random"%string).
  { unfold f, MacroPlacement.finding in Hmeta. cbn [Finding.meta] in Hmeta.
    injection Hmeta as Hm _ _ _.
    rewrite !app_cons, !app_nil_l in Hm.
    symmetry. by apply (app_inv_tail_s _ _ "}}"). }
  subst spelled. by exists name, term, content, before, after, prompt.
Defined.

Lemma order_read_as_set_witness :
  InjectionDepth.checkInjectionDepth (Some Samples.injections) Samples.no_options
  = InjectionDepth.checkInjectionDepth
      (Some {| Preset.prompts := Some Samples.injections_prompts;
               Preset.prompt_order :=
                 Some (map OrderElem.Rec
                         [Samples.on "deep"; Samples.off "main"; Samples.on "note";
                          Samples.on "main"; Samples.on "note"]);
               Preset.squash_system_messages := None |}) Samples.no_options.
Proof.
  apply (proj1 (order_read_as_set Samples.injections_prompts None Samples.no_options
                  Samples.injections_order
                  (map OrderElem.Rec
                     [Samples.on "deep"; Samples.off "main"; Samples.on "note";
                      Samples.on "main"; Samples.on "note"])
                  ltac:(intros identifier;
                        change (identifier ∈ ["main"; "note"; "deep"]
                                <-> identifier ∈ ["deep"; "note"; "main"; "note"])%string;
                        rewrite !elem_of_cons, !elem_of_nil; tauto))).
Defined.

Lemma renderFindingsList_order_witness :
  Components.sorted
    [Samples.finding_of "critical"; Samples.finding_of "info";
     Samples.finding_of "warning"]
  = [Samples.finding_of "warning"; Samples.finding_of "info";
     Samples.finding_of "critical"].
Proof.
  apply (proj1 (renderFindingsList_order
                  [Samples.finding_of "critical"; Samples.finding_of "info";
                   Samples.finding_of "warning"]
                  ltac:(discriminate)
                  ltac:(repeat constructor; unfold SpecResult.known_severity;
                        cbn [Finding.severity Samples.finding_of]; tauto))).
Defined.

Lemma checkPromptOrdering_volatile_entry_witness :
  exists f,
    filter (fun f => SpecFindings.ordering_position f = Some 1%nat)
      (PromptOrdering.checkPromptOrdering (Some Samples.interleaved) Samples.no_options)
    = [f]
    /\ Finding.severity f = "warning"%string
    /\ Finding.affectedEntry f = "chatHistory"%string
    /\ SpecFindings.mentions (Finding.description f) "Chat History"
    /\ SpecFindings.mentions (Finding.description f) "Description, Scenario".
Proof.
  assert (Hp : present (Some Samples.interleaved)
               = Some (Samples.interleaved_prompts, Samples.interleaved_order))
    by reflexivity.
  pose proof (checkPromptOrdering_volatile_entry Samples.interleaved Samples.no_options
                Samples.interleaved_prompts Samples.interleaved_order 1
                (PromptOrdering.classify (promptMap Samples.interleaved_prompts) 1
                   (Samples.on "chatHistory"))
                Hp) as H.
  destruct H as [_ H]; [vm_compute; reflexivity|vm_compute; reflexivity|].
  destruct H as (f & Hf & _ & Hs & Ha & _ & Hname & _ & Hnames); [vm_compute; lia|].
  exists f. split; [exact Hf|]. split; [exact Hs|]. split; [exact Ha|].
  split; [exact Hname|].
  apply Hnames.
  match goal with
  | |- Forall ?P ?l => let l' := eval vm_compute in l in change (Forall P l')
  end.
  constructor; [left; vm_compute; by eexists|].
  constructor; [left; vm_compute; by eexists|].
  constructor.
Defined.

Lemma checkTokenThresholds_spec_witness :
  exists f,
    TokenThresholds.checkTokenThresholds (Some Samples.interleaved) Samples.no_options = [f]
    /\ Finding.severity f = "info"%string.
Proof.
  assert (Hp : present (Some Samples.interleaved)
               = Some (Samples.interleaved_prompts, Samples.interleaved_order))
    by reflexivity.
  pose proof (checkTokenThresholds_spec Samples.interleaved Samples.no_options
                Samples.interleaved_prompts Samples.interleaved_order Hp eq_refl)
    as (_ & (threshold & Ht & _ & _ & _ & H) & _).
  assert (threshold = 1024) as -> by (vm_compute in Ht; by simplify_eq).
  destruct H as (f & Hf & _ & _ & Hinfo & _); [vm_compute; reflexivity|].
  exists f. split; [done|]. apply Hinfo. vm_compute. by intros H.
Defined.
